(** * PixiJS performance benchmark action: comparison, aggregation and teardown

    A shallow embedding of the action's [run] entry points and of
    [runIsolatedBenchmark].  JavaScript numbers are IEEE 754 binary64 values,
    modelled by Rocq's primitive floats, so every arithmetic step below
    rounds exactly as the source does. *)

From Stdlib Require Import ZArith List String Ascii Bool Lia.
From Stdlib Require Import Floats.
Import ListNotations.

Set Implicit Arguments.

(** ** JavaScript numbers and the JSON values the action reads *)

Module JS.

Local Open Scope float_scope.

Definition number := float.

(** [x > y] and [x < y] of the language: false as soon as a side is NaN. *)
Definition gt (x y : number) : bool := y <? x.
Definition lt (x y : number) : bool := x <? y.

(** [Math.max(x, y)]: NaN if either is NaN, and +0 is larger than -0. *)
Definition Math_max (x y : number) : number :=
  if is_nan x || is_nan y then nan
  else if x <? y then y
  else if y <? x then x
  else if get_sign x then y else x.

Definition Math_sqrt (x : number) : number := sqrt x.

(** [x ** 2], taken as the product [x * x]. *)
Definition sq (x : number) : number := x * x.

(** The length of an array as a number. *)
Definition of_length (n : nat) : number := of_uint63 (Uint63.of_Z (Z.of_nat n)).

(** The primitive values a JSON payload can hold under [fps].  Strings and
    nested arrays or objects are left out of the payloads; the conversion of
    a string is modelled for the one string the action does convert, the
    [perf-change] input (module [Input] below). *)
Inductive value :=
| Undefined
| Null
| Bool (b : bool)
| Num (n : number).

(** [Number(v)]. *)
Definition Number (v : value) : number :=
  match v with
  | Undefined => nan
  | Null => 0
  | Bool true => 1
  | Bool false => 0
  | Num n => n
  end.

(** [a + v] and [v - a] for a number [a]: both sides are converted. *)
Definition plus (a : number) (v : value) : number := a + Number v.
Definition minus (v : value) (a : number) : number := Number v - a.

(** An element of a result array: a primitive, a string, or an object, of
    which only the [name] and [fps] properties are ever read.  A missing
    property reads as [undefined]. *)
Inductive entry :=
| Prim (v : value)
| Str (s : string)
| Obj (name : option string) (fps : value).

(** Truthiness, as tested by [!baselineResult] and by the wait for
    [window.benchmarkResult]. *)
Definition truthy (e : entry) : bool :=
  match e with
  | Prim Undefined | Prim Null => false
  | Prim (Bool b) => b
  | Prim (Num n) => negb (is_zero n || is_nan n)
  | Str s => negb (String.eqb s EmptyString)
  | Obj _ _ => true
  end.

(** Outcome of a step that may throw. *)
Inductive result (A : Type) :=
| Ok (a : A)
| Throw (msg : string).
Arguments Throw {A} msg.

Definition rbind {A B} (r : result A) (k : A -> result B) : result B :=
  match r with
  | Ok a => k a
  | Throw msg => Throw msg
  end.

(** [e.fps]: a TypeError on [undefined] and [null]; primitives and strings
    have no such property. *)
Definition get_fps (e : entry) : result value :=
  match e with
  | Prim Undefined | Prim Null => Throw "TypeError: Cannot read properties of undefined"
  | Prim _ | Str _ => Ok Undefined
  | Obj _ f => Ok f
  end.

(** [e.name]; [None] is [undefined]. *)
Definition get_name (e : entry) : result (option string) :=
  match e with
  | Prim Undefined | Prim Null => Throw "TypeError: Cannot read properties of undefined"
  | Prim _ | Str _ => Ok None
  | Obj n _ => Ok n
  end.

(** What the two reads yield when they do not throw. *)
Definition fps_of (e : entry) : value :=
  match e with
  | Obj _ f => f
  | _ => Undefined
  end.

Definition name_of (e : entry) : option string :=
  match e with
  | Obj n _ => n
  | _ => None
  end.

(** [x] is strictly positive, on the specification side of a number. *)
Definition SFpos (x : spec_float) : bool := SFltb (S754_zero false) x.

(** [a[i]]: [undefined] past the end of the array. *)
Definition at_index (a : list entry) (i : nat) : entry := nth i a (Prim Undefined).

End JS.

(** ** The [perf-change] input: [Number(core.getInput('perf-change'))]

    [core.getInput] reads the environment variable of the input, takes the
    empty string when it is not set, and trims it.  [Number] applied to a
    string follows the language's StringNumericLiteral grammar.  Strings are
    sequences of bytes, read as UTF-8. *)

Module Input.

Import JS.
Local Open Scope string_scope.
Local Open Scope Z_scope.

Definition code (c : ascii) : Z := Z.of_N (N_of_ascii c).

Definition utf8 (l : list nat) : string := string_of_list_ascii (map ascii_of_nat l).

(** The white space and line terminators of the language: TAB, LF, VT, FF,
    CR, SP, U+00A0, U+1680, U+2000 to U+200A, U+2028, U+2029, U+202F,
    U+205F, U+3000 and U+FEFF. *)
Definition StrWhiteSpaceChar : list string :=
  map utf8
    [[9]; [10]; [11]; [12]; [13]; [32]; [194; 160]; [225; 154; 128];
     [226; 128; 128]; [226; 128; 129]; [226; 128; 130]; [226; 128; 131];
     [226; 128; 132]; [226; 128; 133]; [226; 128; 134]; [226; 128; 135];
     [226; 128; 136]; [226; 128; 137]; [226; 128; 138]; [226; 128; 168];
     [226; 128; 169]; [226; 128; 175]; [226; 129; 159]; [227; 128; 128];
     [239; 187; 191]]%nat.

(** [s] without its prefix [p]. *)
Fixpoint after (p s : string) : option string :=
  match p, s with
  | EmptyString, _ => Some s
  | String a p', String b s' => if Ascii.eqb a b then after p' s' else None
  | String _ _, EmptyString => None
  end.

(** [s] without the white space character it starts with. *)
Definition skipWhiteSpaceChar (s : string) : option string :=
  fold_right (fun ws found => match after ws s with Some r => Some r | None => found end)
             None StrWhiteSpaceChar.

Fixpoint trimStart_from (n : nat) (s : string) : string :=
  match n with
  | O => s
  | S n' =>
      match skipWhiteSpaceChar s with
      | Some r => trimStart_from n' r
      | None => s
      end
  end.

Definition trimStart (s : string) : string := trimStart_from (String.length s) s.

(** Nothing but white space. *)
Definition blank (s : string) : bool := String.eqb (trimStart s) "".

Fixpoint trimEnd (s : string) : string :=
  match s with
  | EmptyString => EmptyString
  | String c r => if blank s then EmptyString else String c (trimEnd r)
  end.

(** [String.prototype.trim]. *)
Definition trim (s : string) : string := trimEnd (trimStart s).

(** [core.getInput(name)]: [(process.env[...] || '').trim()]; [env] is the
    variable, [None] when it is not set. *)
Definition getInput (env : option string) : string :=
  trim (match env with Some val => val | None => "" end).

(** The value of a digit in [base]: [0-9], [a-f], [A-F]. *)
Definition digit (base : Z) (c : ascii) : option Z :=
  let n := code c in
  let d := if (48 <=? n) && (n <=? 57) then n - 48
           else if (97 <=? n) && (n <=? 102) then n - 87
           else if (65 <=? n) && (n <=? 70) then n - 55
           else base in
  if d <? base then Some d else None.

(** The digits [s] starts with: their value after [value], their number
    added to [count], and what follows them. *)
Fixpoint digits (base : Z) (s : string) (value : Z) (count : Z) : Z * Z * string :=
  match s with
  | String c r =>
      match digit base c with
      | Some d => digits base r (value * base + d) (count + 1)
      | None => (value, count, s)
      end
  | EmptyString => (value, count, s)
  end.

(** The number value of [m * 10 ^ e] for a natural [m], under the sign of
    the literal: rounded to nearest, ties to even; infinite beyond the
    largest number. *)
Definition rounded (negative : bool) (m e : Z) : number :=
  match m with
  | Zpos _ =>
      SF2Prim (SFdiv prec emax
                 (S754_finite negative (Z.to_pos (m * 10 ^ Z.max e 0)) 0)
                 (S754_finite false (Z.to_pos (10 ^ Z.max (- e) 0)) 0))
  | _ => SF2Prim (S754_zero negative)
  end.

(** An optional [e] or [E] with a signed integer, up to the end of the
    string. *)
Definition ExponentPart (s : string) : option Z :=
  match s with
  | EmptyString => Some 0
  | String c r =>
      if (code c =? 101) || (code c =? 69) then
        let '(negative, r') :=
          match r with
          | String sign r' =>
              if code sign =? 45 then (true, r')
              else if code sign =? 43 then (false, r')
              else (false, r)
          | EmptyString => (false, r)
          end in
        match digits 10 r' 0 0 with
        | (e, n, EmptyString) => if 0 <? n then Some (if negative then - e else e) else None
        | _ => None
        end
      else None
  end.

(** [Infinity], or decimal digits with an optional point and an optional
    exponent; there is a digit before or after the point. *)
Definition StrUnsignedDecimalLiteral (negative : bool) (s : string) : option number :=
  if String.eqb s "Infinity" then Some (SF2Prim (S754_infinity negative))
  else
    let '(whole, n1, r1) := digits 10 s 0 0 in
    let '(m, n2, r2) :=
      match r1 with
      | String c r => if code c =? 46 then digits 10 r whole 0 else (whole, 0, r1)
      | EmptyString => (whole, 0, r1)
      end in
    if 0 <? n1 + n2 then
      match ExponentPart r2 with
      | Some e => Some (rounded negative m (e - n2))
      | None => None
      end
    else None.

Definition StrDecimalLiteral (s : string) : option number :=
  match s with
  | String c r =>
      if code c =? 45 then StrUnsignedDecimalLiteral true r
      else if code c =? 43 then StrUnsignedDecimalLiteral false r
      else StrUnsignedDecimalLiteral false s
  | EmptyString => None
  end.

(** [0x], [0o] and [0b] literals, in either case, without a sign. *)
Definition NonDecimalIntegerLiteral (s : string) : option number :=
  match s with
  | String z (String p r) =>
      if code z =? 48 then
        let base :=
          if (code p =? 120) || (code p =? 88) then 16
          else if (code p =? 111) || (code p =? 79) then 8
          else if (code p =? 98) || (code p =? 66) then 2
          else 0 in
        if base =? 0 then None
        else
          match digits base r 0 0 with
          | (m, n, EmptyString) => if 0 <? n then Some (rounded false m 0) else None
          | _ => None
          end
      else None
  | _ => None
  end.

Definition StrNumericLiteral (s : string) : option number :=
  match NonDecimalIntegerLiteral s with
  | Some n => Some n
  | None => StrDecimalLiteral s
  end.

(** [Number(s)] for a string: 0 when nothing but white space, the value of
    the literal between the white space, and NaN when what is there is not
    a literal. *)
Definition StringToNumber (s : string) : number :=
  let text := trim s in
  if String.eqb text "" then 0%float
  else
    match StrNumericLiteral text with
    | Some n => n
    | None => nan
    end.

(** [const perfChange = Number(core.getInput('perf-change'))]. *)
Definition perfChange (env : option string) : number := StringToNumber (getInput env).

(** [s] holds something, and it is not a numeric literal. *)
Definition not_numeric (s : string) : bool :=
  let text := trim s in
  negb (String.eqb text "") &&
  match StrNumericLiteral text with Some _ => false | None => true end.

(** A visible ASCII character. *)
Definition printable (c : ascii) : bool := (33 <=? code c) && (code c <=? 126).

(** The characters a numeric literal can start with: a digit, a sign, the
    point, and the [I] of [Infinity]. *)
Definition opens_literal (c : ascii) : bool :=
  match digit 10 c with
  | Some _ => true
  | None => (code c =? 43) || (code c =? 45) || (code c =? 46) || (code c =? 73)
  end.

(** The characters a numeric literal is written with: the digits of the
    hexadecimal notation, which hold the [b] and [B] of the binary prefix
    and the [e] and [E] of the exponent, the signs, the point, the [x] and
    [o] of the prefixes in either case, and the letters of [Infinity]. *)
Definition literal_char (c : ascii) : bool :=
  match digit 16 c with
  | Some _ => true
  | None =>
      existsb (Z.eqb (code c)) [43; 45; 46; 120; 88; 111; 79; 73; 110; 105; 116; 121]
  end.

Fixpoint literal_chars (s : string) : bool :=
  match s with
  | EmptyString => true
  | String a r => literal_char a && literal_chars r
  end.

(** [c] occurs in [s]. *)
Fixpoint occurs (c : ascii) (s : string) : bool :=
  match s with
  | EmptyString => false
  | String a r => Ascii.eqb c a || occurs c r
  end.

End Input.

(** ** Effects: the runner's world, and steps that may throw *)

Module Eff.

Import JS.

(** A comment of the pull request.  The Markdown text itself is not
    modelled: a comment records whether its body contains the marker and
    the data its body was rendered from. *)
Record comment (R : Type) := {
  comment_id : nat;
  has_marker : bool;
  rendered : option R
}.

(** Everything the action can change or leave behind. *)
Record world (R : Type) := {
  server : bool;                (* the static server is listening *)
  browsers : nat;               (* browser processes launched and not closed *)
  open_pages : list string;     (* pages created and not closed, by URL *)
  failures : list string;       (* messages given to core.setFailed, in order *)
  warnings : list string;       (* messages given to core.warning *)
  output : option (list entry); (* the results file *)
  comments : list (comment R)   (* the pull request's thread *)
}.

Definition M (R A : Type) : Type := world R -> result A * world R.

Definition ret {R A} (a : A) : M R A := fun w => (Ok a, w).

Definition throw {R A} (msg : string) : M R A := fun w => (Throw msg, w).

Definition bind {R A B} (m : M R A) (k : A -> M R B) : M R B :=
  fun w =>
    match m w with
    | (Ok a, w') => k a w'
    | (Throw msg, w') => (Throw msg, w')
    end.

(** [try { body } finally { fin }]: [fin] always runs; what it throws
    replaces the outcome of [body]. *)
Definition try_finally {R A} (body : M R A) (fin : M R unit) : M R A :=
  fun w =>
    let (r, w1) := body w in
    match fin w1 with
    | (Ok _, w2) => (r, w2)
    | (Throw msg, w2) => (Throw msg, w2)
    end.

(** [try { body } catch (err) { handler(err.message) }]. *)
Definition try_catch {R A} (body : M R A) (handler : string -> M R A) : M R A :=
  fun w =>
    match body w with
    | (Ok a, w1) => (Ok a, w1)
    | (Throw msg, w1) => handler msg w1
    end.

(** A pure step that may throw, run inside the world. *)
Definition lift {R A} (r : result A) : M R A := fun w => (r, w).

(** A step of the outside world that rejects with [msg] when told to. *)
Definition may_fail {R} (o : option string) : M R unit :=
  match o with
  | Some msg => throw msg
  | None => ret tt
  end.

Definition modify {R} (f : world R -> world R) : M R unit := fun w => (Ok tt, f w).

Definition gets {R A} (f : world R -> A) : M R A := fun w => (Ok (f w), w).

(** The first occurrence of [u] is dropped: one page is closed. *)
Fixpoint remove_first (u : string) (l : list string) : list string :=
  match l with
  | [] => []
  | v :: l' => if String.eqb u v then l' else v :: remove_first u l'
  end.

Section Steps.
Context {R : Type}.

Definition setFailed (msg : string) : M R unit :=
  modify (fun w => {| server := server w; browsers := browsers w; open_pages := open_pages w;
                      failures := failures w ++ [msg]; warnings := warnings w;
                      output := output w; comments := comments w |}).

Definition warning (msg : string) : M R unit :=
  modify (fun w => {| server := server w; browsers := browsers w; open_pages := open_pages w;
                      failures := failures w; warnings := warnings w ++ [msg];
                      output := output w; comments := comments w |}).

Definition set_server (b : bool) : M R unit :=
  modify (fun w => {| server := b; browsers := browsers w; open_pages := open_pages w;
                      failures := failures w; warnings := warnings w;
                      output := output w; comments := comments w |}).

(** [if (server) server.close()]. *)
Definition close_server : M R unit :=
  bind (gets (@server R)) (fun s => if s then set_server false else ret tt).

(** [chromium.launch]. *)
Definition launch : M R unit :=
  modify (fun w => {| server := server w; browsers := S (browsers w); open_pages := open_pages w;
                      failures := failures w; warnings := warnings w;
                      output := output w; comments := comments w |}).

(** Closing every context and then the browser: the process ends and its
    pages go with it. *)
Definition close_browser : M R unit :=
  modify (fun w => {| server := server w; browsers := pred (browsers w); open_pages := [];
                      failures := failures w; warnings := warnings w;
                      output := output w; comments := comments w |}).

(** [browser.newPage()]. *)
Definition newPage (url : string) : M R unit :=
  modify (fun w => {| server := server w; browsers := browsers w;
                      open_pages := url :: open_pages w;
                      failures := failures w; warnings := warnings w;
                      output := output w; comments := comments w |}).

(** [page.close()]. *)
Definition close_page (url : string) : M R unit :=
  modify (fun w => {| server := server w; browsers := browsers w;
                      open_pages := remove_first url (open_pages w);
                      failures := failures w; warnings := warnings w;
                      output := output w; comments := comments w |}).

Definition writeFile (rs : list entry) : M R unit :=
  modify (fun w => {| server := server w; browsers := browsers w; open_pages := open_pages w;
                      failures := failures w; warnings := warnings w;
                      output := Some rs; comments := comments w |}).

Definition set_comments (cs : list (comment R)) : M R unit :=
  modify (fun w => {| server := server w; browsers := browsers w; open_pages := open_pages w;
                      failures := failures w; warnings := warnings w;
                      output := output w; comments := cs |}).

(** The comment sink as the action meets it. *)
Record sink := {
  token : bool;                      (* [GITHUB_TOKEN] is set and not empty *)
  pull_request : option nat;         (* the pull request's number, if any *)
  listComments_fails : option string;
  updateComment_fails : option string;
  createComment_fails : option string
}.

(** [octokit.rest.issues.listComments({ ...repo, issue_number })]: one
    request, without [per_page] or [page], answered with the first page of
    the thread, which holds 30 comments, oldest first. *)
Definition per_page : nat := 30.

Definition listComments (cs : list (comment R)) : list (comment R) := firstn per_page cs.

(** List the comments, update the listed one that carries the marker, or
    create one.  [updateComment] addresses the comment by its identifier;
    [createComment] appends to the thread. *)
Definition upsertComment (s : sink) (body : R) : M R unit :=
  bind (may_fail (listComments_fails s)) (fun _ =>
  bind (gets (@comments R)) (fun cs =>
  match find (@has_marker R) (listComments cs) with
  | Some existing =>
      bind (may_fail (updateComment_fails s)) (fun _ =>
      set_comments
        (map (fun c => if Nat.eqb (comment_id c) (comment_id existing)
                       then {| comment_id := comment_id c; has_marker := true;
                               rendered := Some body |}
                       else c) cs))
  | None =>
      bind (may_fail (createComment_fails s)) (fun _ =>
      set_comments
        (cs ++ [{| comment_id := S (fold_right Nat.max 0 (map (@comment_id R) cs));
                   has_marker := true; rendered := Some body |}]))
  end)).

(** [if (token && github.context.payload.pull_request) { ... }]. *)
Definition postComment (s : sink) (body : R) : M R unit :=
  if token s && match pull_request s with Some _ => true | None => false end
  then upsertComment s body
  else ret tt.

(** The message with which [postComment] rejects on a thread [cs], if it
    does. *)
Definition sink_error (s : sink) (cs : list (comment R)) : option string :=
  if token s && match pull_request s with Some _ => true | None => false end then
    match listComments_fails s with
    | Some msg => Some msg
    | None =>
        match find (@has_marker R) (listComments cs) with
        | Some _ => updateComment_fails s
        | None => createComment_fails s
        end
    end
  else None.

End Steps.

(** The invocation is reported as failed exactly when [core.setFailed]
    was called. *)
Definition failed {R} (w : world R) : bool :=
  match failures w with
  | [] => false
  | _ :: _ => true
  end.

Definition initial {R} (cs : list (comment R)) : world R :=
  {| server := false; browsers := 0; open_pages := []; failures := []; warnings := [];
     output := None; comments := cs |}.

End Eff.

Declare Scope eff_scope.
Delimit Scope eff_scope with eff.
Notation "x <- m ;; k" := (Eff.bind m (fun x => k))
  (at level 61, m at next level, right associativity) : eff_scope.
Notation "m ;; k" := (Eff.bind m (fun _ => k))
  (at level 61, right associativity) : eff_scope.

(** What a benchmark page does once it is opened. *)
Inductive page_behaviour :=
| NavigationFails (msg : string)   (* [page.goto] rejects *)
| Publishes (e : JS.entry).        (* [window.benchmarkResult] ends up as [e]:
                                      [undefined] when the page never sets it *)

(** The baseline file as [JSON.parse] sees it. *)
Inductive baseline_input :=
| NoBaseline                       (* no path given, or no such file: ['[]'] is parsed *)
| Malformed (msg : string)         (* [JSON.parse] throws *)
| Parsed (a : list JS.entry).

(** The two trend arrows of the report: the red one pointing down and the
    one pointing up. *)
Inductive trend := Down | Up.

(** ** The single-baseline-file runner: [run] compares the pull request's
       results with a stored baseline, index by index

    Messages are kept without the path, URL or threshold the source
    interpolates into them, except where a caught error's own message is
    passed on. *)

Module Main.

Import JS Eff.
Local Open Scope float_scope.
Local Open Scope eff_scope.

Record row := {
  name : option string;
  devFPS : option number;        (* [None] is [null] *)
  prFPS : number;
  diffPercent : option number;   (* [None] is [null] *)
  regression : bool;
  arrow : option trend           (* [None] is [null] *)
}.

(** The comment body, kept as the data it is rendered from. *)
Record body := {
  table : list row;
  regressionLine : bool;
  threshold : number
}.

Record inputs := {
  dist_exists : bool;
  pixi_exists : bool;
  benchmark_files : result (list string); (* the page URLs [findRecursive] yields, or its error *)
  perfChange : number;                    (* [Number(core.getInput('perf-change'))] *)
  page : string -> page_behaviour;
  baseline_file : baseline_input;
  comment_sink : sink
}.

(** The run whose [perf-change] input reads [env], [None] when it is not
    set, and whose surroundings are those of [i]. *)
Definition reading (env : option string) (i : inputs) : inputs :=
  {| dist_exists := dist_exists i; pixi_exists := pixi_exists i;
     benchmark_files := benchmark_files i;
     perfChange := Input.perfChange env;
     page := page i; baseline_file := baseline_file i; comment_sink := comment_sink i |}.

(** [page.goto(pageUrl)]. *)
Definition goto (i : inputs) (pageUrl : string) : M body unit :=
  match page i pageUrl with
  | NavigationFails msg => throw msg
  | Publishes _ => ret tt
  end.

(** [page.waitForFunction(() => window.benchmarkResult, { timeout: 30_000 })]
    followed by [jsonValue()]: the wait ends only on a truthy value. *)
Definition waitForResult (i : inputs) (pageUrl : string) : M body entry :=
  match page i pageUrl with
  | NavigationFails msg => throw msg
  | Publishes e =>
      if truthy e then ret e
      else throw "page.waitForFunction: Timeout 30000ms exceeded."
  end.

(** What a page hands over when it publishes a result. *)
Definition published (i : inputs) (pageUrl : string) : entry :=
  match page i pageUrl with
  | NavigationFails _ => Prim Undefined
  | Publishes e => e
  end.

(** The page publishes a truthy result: neither the navigation nor the
    wait throws. *)
Definition completes (i : inputs) (pageUrl : string) : bool :=
  match page i pageUrl with
  | NavigationFails _ => false
  | Publishes e => truthy e
  end.

(** One turn of [for (const pageUrl of pages)]. *)
Definition benchmarkPage (i : inputs) (pageUrl : string) (prResults : list entry)
  : M body (list entry) :=
  newPage pageUrl ;;
  goto i pageUrl ;;
  prResult <- waitForResult i pageUrl ;;
  close_page pageUrl ;;
  ret (prResults ++ [prResult]).

Fixpoint runPages (i : inputs) (pages : list string) (prResults : list entry)
  : M body (list entry) :=
  match pages with
  | [] => ret prResults
  | pageUrl :: rest =>
      prResults' <- benchmarkPage i pageUrl prResults ;;
      runPages i rest prResults'
  end.

Definition parseBaseline (b : baseline_input) : result (list entry) :=
  match b with
  | NoBaseline => Ok []
  | Malformed msg => Throw msg
  | Parsed a => Ok a
  end.

(** The body of [for (let i = 0; i < pages.length; i++)]. *)
Definition compareAt (perfChange : number) (prResults baseline : list entry) (i : nat)
  : result row :=
  let prResult := at_index prResults i in
  let baselineResult := at_index baseline i in
  if negb (truthy baselineResult) then
    rbind (get_name prResult) (fun n =>
    rbind (get_fps prResult) (fun f =>
    Ok {| name := n; devFPS := None; prFPS := Number f; diffPercent := None;
          regression := false; arrow := None |}))
  else
    rbind (get_fps baselineResult) (fun bf =>
    rbind (get_fps prResult) (fun pf =>
    let devFPS := Number bf in
    let prFPS := Number pf in
    let diffPercent := (devFPS - prFPS) / devFPS * 100 in
    let regression := gt diffPercent perfChange in
    let arrow := if gt diffPercent 0 then Down else Up in
    rbind (get_name prResult) (fun n =>
    Ok {| name := n; devFPS := Some devFPS; prFPS := prFPS;
          diffPercent := Some diffPercent; regression := regression;
          arrow := Some arrow |}))).

Fixpoint compareFrom (perfChange : number) (prResults baseline : list entry)
  (i count : nat) (tableRows : list row) : result (list row) :=
  match count with
  | O => Ok tableRows
  | S count' =>
      rbind (compareAt perfChange prResults baseline i) (fun r =>
      compareFrom perfChange prResults baseline (S i) count' (tableRows ++ [r]))
  end.

(** The comparison loop over [pages.length] indices. *)
Definition compareAll (perfChange : number) (pages : list string)
  (prResults baseline : list entry) : result (list row) :=
  compareFrom perfChange prResults baseline 0%nat (List.length pages) [].

(** [tableRows.forEach(... if (regression) regressionDetected = true)]. *)
Definition detect (tableRows : list row) : bool :=
  fold_left (fun regressionDetected r => if regression r then true else regressionDetected)
            tableRows false.

(** Everything from the comparison to the final signal. *)
Definition compareAndReport (i : inputs) (pages : list string) (prResults : list entry)
  : M body unit :=
  baseline <- lift (parseBaseline (baseline_file i)) ;;
  tableRows <- lift (compareAll (perfChange i) pages prResults baseline) ;;
  let regressionDetected := detect tableRows in
  postComment (comment_sink i)
    {| table := tableRows; regressionLine := regressionDetected;
       threshold := perfChange i |} ;;
  if regressionDetected then setFailed "Performance regression detected!" else ret tt.

(** The statements inside [try]. *)
Definition tryBlock (i : inputs) : M body unit :=
  if negb (dist_exists i) then throw "dist path not found"
  else if negb (pixi_exists i) then setFailed "pixi.mjs not found in dist path"
  else
    set_server true ;;
    pages <- lift (benchmark_files i) ;;
    launch ;;
    prResults <- runPages i pages [] ;;
    close_browser ;;
    writeFile prResults ;;
    compareAndReport i pages prResults.

(** [try { ... } catch (err) { core.setFailed(err.message) }
     finally { if (server) server.close() }]. *)
Definition run (i : inputs) : M body unit :=
  try_finally (try_catch (tryBlock i) (fun msg => setFailed msg)) close_server.

End Main.

(** ** The same runner with per-page [try]/[catch]/[finally] and a browser
       teardown in the outer [finally] *)

Module Guarded.

Import JS Eff.
Local Open Scope eff_scope.

(** One turn of [for (const pageUrl of pages)]: the page is closed in
    [finally]. *)
Definition benchmarkPage (i : Main.inputs) (pageUrl : string) (prResults : list entry)
  : M Main.body (list entry) :=
  newPage pageUrl ;;
  try_finally
    (try_catch
       (Main.goto i pageUrl ;;
        prResult <- Main.waitForResult i pageUrl ;;
        ret (prResults ++ [prResult]))
       (fun msg => setFailed ("Benchmark failed for " ++ pageUrl ++ ": " ++ msg) ;; throw msg))
    (close_page pageUrl).

Fixpoint runPages (i : Main.inputs) (pages : list string) (prResults : list entry)
  : M Main.body (list entry) :=
  match pages with
  | [] => ret prResults
  | pageUrl :: rest =>
      prResults' <- benchmarkPage i pageUrl prResults ;;
      runPages i rest prResults'
  end.

Definition tryBlock (i : Main.inputs) : M Main.body unit :=
  if negb (Main.dist_exists i) then throw "dist path not found"
  else if negb (Main.pixi_exists i) then setFailed "pixi.mjs not found in dist path"
  else
    set_server true ;;
    pages <- lift (Main.benchmark_files i) ;;
    launch ;;
    prResults <- runPages i pages [] ;;
    writeFile prResults ;;
    Main.compareAndReport i pages prResults.

(** [if (browser) { try { ...close... } catch (e) { core.warning(...) } }]
    and then [if (server) { ... server.close ... }]. *)
Definition teardown : M Main.body unit :=
  b <- gets (@browsers Main.body) ;;
  (match b with
   | O => ret tt
   | S _ => try_catch close_browser (fun msg => warning ("Browser close failed: " ++ msg))
   end) ;;
  close_server.

Definition run (i : Main.inputs) : M Main.body unit :=
  try_finally (try_catch (tryBlock i) (fun msg => setFailed msg)) teardown.

End Guarded.

(** ** The dev-versus-local runner that groups raw results by name *)

Module DevLocal.

Import JS.
Local Open Scope float_scope.

Inductive variant := Dev | Local.

(** [{ ...result, variant }], of which [name], [fps] and [variant] are read. *)
Record raw := {
  raw_name : option string;
  raw_fps : value;
  raw_variant : variant
}.

(** The object stored under a name: [{ dev?: number, local?: number }]. *)
Record vals := {
  dev : option number;
  local : option number
}.

Definition assign (v : vals) (which : variant) (fps : number) : vals :=
  match which with
  | Dev => {| dev := Some fps; local := local v |}
  | Local => {| dev := dev v; local := Some fps |}
  end.

(** The side of a group that [which] does not set. *)
Definition other_side (which : variant) (v : vals) : option number :=
  match which with
  | Dev => local v
  | Local => dev v
  end.

Definition key_eqb (a b : option string) : bool :=
  match a, b with
  | None, None => true
  | Some x, Some y => String.eqb x y
  | _, _ => false
  end.

(** [if (!grouped.has(k)) grouped.set(k, {}); grouped.get(k)[variant] = fps]
    on a [Map], which keeps its keys in insertion order. *)
Fixpoint store (k : option string) (which : variant) (fps : number)
  (grouped : list (option string * vals)) : list (option string * vals) :=
  match grouped with
  | [] => [(k, assign {| dev := None; local := None |} which fps)]
  | (k', v) :: rest =>
      if key_eqb k' k then (k', assign v which fps) :: rest
      else (k', v) :: store k which fps rest
  end.

Definition group (rawResults : list raw) : list (option string * vals) :=
  fold_left (fun grouped r => store (raw_name r) (raw_variant r) (Number (raw_fps r)) grouped)
            rawResults [].

Record row := {
  name : option string;
  devFPS : option number;
  localFPS : option number;
  diffPercent : option number;
  regression : bool;
  arrow : option trend
}.

(** The body of [for (const [name, vals] of grouped.entries())]. *)
Definition compareGroup (perfChange : number) (g : option string * vals) : row :=
  let (name, vals) := g in
  match dev vals, local vals with
  | Some devFPS, Some localFPS =>
      let diffPercent := (devFPS - localFPS) / devFPS * 100 in
      let regression := gt diffPercent perfChange in
      let arrow := if gt diffPercent 0 then Down else Up in
      {| name := name; devFPS := Some devFPS; localFPS := Some localFPS;
         diffPercent := Some diffPercent; regression := regression; arrow := Some arrow |}
  | d, l =>
      {| name := name; devFPS := d; localFPS := l; diffPercent := None;
         regression := false; arrow := None |}
  end.

(** The loop, with its two accumulators [tableRows] and
    [regressionDetected]. *)
Definition compareGroups (perfChange : number) (grouped : list (option string * vals))
  : list row * bool :=
  fold_left
    (fun (acc : list row * bool) g =>
       let (tableRows, regressionDetected) := acc in
       let r := compareGroup perfChange g in
       (tableRows ++ [r], if regression r then true else regressionDetected))
    grouped ([], false).

End DevLocal.

(** ** The averaged-repeats runner: every sample in a fresh browser *)

Module Isolated.

Import JS Eff.
Local Open Scope float_scope.
Local Open Scope eff_scope.

Definition REPEATS : nat := 3.

(** What [runIsolatedBenchmark] returns. *)
Record aggregated := {
  avg : number;
  stddev : number;
  samples : list value
}.

(** The two [reduce] calls. *)
Definition aggregate (sampleFPS : list value) : aggregated :=
  let avg := fold_left (fun a b => plus a b) sampleFPS 0 / of_length (List.length sampleFPS) in
  let stddev :=
    Math_sqrt (fold_left (fun s n => s + sq (minus n avg)) sampleFPS 0
               / of_length (List.length sampleFPS)) in
  {| avg := avg; stddev := stddev; samples := sampleFPS |}.

Record comparison := {
  name : string;
  devResult : aggregated;
  localResult : aggregated;
  diffPercent : number;
  regression : bool;
  arrow : trend
}.

Record body := {
  table : list comparison;
  regressionLine : bool;
  threshold : number
}.

Record scenario := {
  scenario_name : string;   (* [path.basename(dir)] *)
  devURL : string;
  localURL : string
}.

Record inputs := {
  dist_exists : bool;
  pixi_exists : bool;
  perfChange : number;                   (* [Number(core.getInput('perf-change'))] *)
  index_files : result (list scenario);  (* what [findIndexModules] yields, or its error *)
  page : string -> nat -> page_behaviour;(* by URL and repeat *)
  comment_sink : sink
}.

(** The run whose [perf-change] input reads [env], [None] when it is not
    set, and whose surroundings are those of [inp]. *)
Definition reading (env : option string) (inp : inputs) : inputs :=
  {| dist_exists := dist_exists inp; pixi_exists := pixi_exists inp;
     perfChange := Input.perfChange env;
     index_files := index_files inp; page := page inp; comment_sink := comment_sink inp |}.

(** What the page at [url] hands over on repeat [i]. *)
Definition published (inp : inputs) (url : string) (i : nat) : entry :=
  match page inp url i with
  | NavigationFails _ => Prim Undefined
  | Publishes e => e
  end.

(** The page publishes a truthy result on repeat [i]. *)
Definition completes (inp : inputs) (url : string) (i : nat) : bool :=
  match page inp url i with
  | NavigationFails _ => false
  | Publishes e => truthy e
  end.

(** The scenario completes: both of its pages publish on every repeat. *)
Definition scenario_completes (inp : inputs) (s : scenario) : Prop :=
  forall k, (k < REPEATS)%nat ->
            completes inp (devURL s) k = true /\ completes inp (localURL s) k = true.

(** The samples a completing page yields. *)
Definition samples_of (inp : inputs) (url : string) : list value :=
  map (fun k => fps_of (published inp url k)) (seq 0%nat REPEATS).

(** [runSingleBenchmark(browser, url, label, sampleFPS, i)].  The object
    [{ timeout: 60_000 }] is handed to [page.waitForFunction] as its second
    argument, which is the argument of the page function and not the
    options: the wait ends after the default 30 seconds. *)
Definition runSingleBenchmark (inp : inputs) (url : string) (sampleFPS : list value) (i : nat)
  : M body (list value) :=
  newPage url ;;
  match page inp url i with
  | NavigationFails msg => throw msg
  | Publishes e =>
      if truthy e then
        fps <- lift (get_fps e) ;;
        close_page url ;;
        ret (sampleFPS ++ [fps])
      else throw "page.waitForFunction: Timeout 30000ms exceeded."
  end.

(** [for (let i = 0; i < REPEATS; i++)], counting the turns left. *)
Fixpoint repeatFrom (inp : inputs) (url : string) (i count : nat) (sampleFPS : list value)
  : M body (list value) :=
  match count with
  | O => ret sampleFPS
  | S count' =>
      launch ;;
      sampleFPS' <-
        try_finally (runSingleBenchmark inp url sampleFPS i)
                    (try_catch close_browser (fun _ => throw "Failed to close browser")) ;;
      repeatFrom inp url (S i) count' sampleFPS'
  end.

Definition runIsolatedBenchmark (inp : inputs) (url : string) : M body aggregated :=
  sampleFPS <- repeatFrom inp url 0%nat REPEATS [] ;;
  ret (aggregate sampleFPS).

Definition effectiveDevFps (devAvg : number) : number := Math_max devAvg 1.

Definition allowedPercent (perfChange devAvg : number) : number :=
  perfChange * (60 / effectiveDevFps devAvg).

(** The statements between the two measurements and [comparisons.push]. *)
Definition compare (perfChange : number) (name : string) (devResult localResult : aggregated)
  : comparison :=
  let diffPercent := (avg devResult - avg localResult) / avg devResult * 100 in
  let regression := gt diffPercent (allowedPercent perfChange (avg devResult)) in
  let arrow := if gt diffPercent 0 then Down else Up in
  {| name := name; devResult := devResult; localResult := localResult;
     diffPercent := diffPercent; regression := regression; arrow := arrow |}.

Fixpoint runScenarios (inp : inputs) (indexFiles : list scenario) (comparisons : list comparison)
  : M body (list comparison) :=
  match indexFiles with
  | [] => ret comparisons
  | s :: rest =>
      devResult <- runIsolatedBenchmark inp (devURL s) ;;
      localResult <- runIsolatedBenchmark inp (localURL s) ;;
      runScenarios inp rest
        (comparisons ++ [compare (perfChange inp) (scenario_name s) devResult localResult])
  end.

(** [for (const row of comparisons) { if (regression) regressionDetected = true; ... }]. *)
Definition detect (comparisons : list comparison) : bool :=
  fold_left (fun regressionDetected r => if regression r then true else regressionDetected)
            comparisons false.

(** Everything from the Markdown output to the final signal. *)
Definition report (inp : inputs) (comparisons : list comparison) : M body unit :=
  let regressionDetected := detect comparisons in
  postComment (comment_sink inp)
    {| table := comparisons; regressionLine := regressionDetected;
       threshold := perfChange inp |} ;;
  if regressionDetected then setFailed "Performance regression slower than dev."
  else ret tt.

(** The statements inside [try]. *)
Definition tryBlock (inp : inputs) : M body unit :=
  if negb (dist_exists inp) then throw "dist path not found"
  else if negb (pixi_exists inp) then throw "pixi.mjs not found in dist path"
  else
    set_server true ;;
    indexFiles <- lift (index_files inp) ;;
    match indexFiles with
    | [] => throw "No index.mjs benchmark entrypoints found."
    | _ :: _ =>
        comparisons <- runScenarios inp indexFiles [] ;;
        report inp comparisons
    end.

(** The outer [browser] variable is never assigned, so [finally] only
    closes the server. *)
Definition run (inp : inputs) : M body unit :=
  try_finally (try_catch (tryBlock inp) (fun msg => setFailed msg)) close_server.

End Isolated.

(** ** The specification's vocabulary *)

Module Spec.

Import JS.
Local Open Scope float_scope.

(** The sum of a sample sequence, taken from the left. *)
Definition sum (xs : list number) : number := fold_left add xs 0.

(** The average of a sample sequence. *)
Definition average (xs : list number) : number := sum xs / of_length (List.length xs).

(** The population standard deviation: the squared deviations from the
    average are summed and divided by the number of samples N, not N-1. *)
Definition population_stddev (xs : list number) : number :=
  sqrt (sum (map (fun x => sq (x - average xs)) xs) / of_length (List.length xs)).

(** A row of the FPS-scaled comparison as the specification words it: the
    percentage of the baseline lost by the candidate, flagged when it
    exceeds [fixedPercent * (60 / max(baseline.mean, 1))]. *)
Definition scaled_row (fixedPercent : number) (c : Isolated.comparison) : Prop :=
  let baseline := Isolated.avg (Isolated.devResult c) in
  let candidate := Isolated.avg (Isolated.localResult c) in
  Isolated.diffPercent c = (baseline - candidate) / baseline * 100 /\
  Isolated.regression c
  = gt (Isolated.diffPercent c) (fixedPercent * (60 / Math_max baseline 1)).

(** The trend the specification asks for: down when the difference is
    positive, up when it is negative, none when it is absent or zero. *)
Definition trend_of (diffPercent : option number) : option trend :=
  match diffPercent with
  | None => None
  | Some d => if gt d 0 then Some Down else if lt d 0 then Some Up else None
  end.

End Spec.

(** ** Concrete runs *)

Module Examples.

Import JS Eff.
Local Open Scope float_scope.
Local Open Scope string_scope.

Definition sprite_url : string := "http://localhost:8080/benchmarks/sprite/".

(** A result object for the sprite scenario. *)
Definition sprite (fps : number) : entry := Obj (Some "Sprites (50k)") (Num fps).

(** No token: the comment is skipped. *)
Definition no_sink : sink :=
  {| token := false; pull_request := None; listComments_fails := None;
     updateComment_fails := None; createComment_fails := None |}.

(** A pull request whose comments cannot be listed. *)
Definition broken_sink : sink :=
  {| token := true; pull_request := Some 7%nat;
     listComments_fails := Some "HttpError: Resource not accessible by integration";
     updateComment_fails := None; createComment_fails := None |}.

(** One sprite page publishing [published], compared with [baseline]. *)
Definition sprite_run (perfChange : number) (published : entry) (baseline : baseline_input)
  (s : sink) : Main.inputs :=
  {| Main.dist_exists := true; Main.pixi_exists := true;
     Main.benchmark_files := Ok [sprite_url];
     Main.perfChange := perfChange;
     Main.page := fun _ => Publishes published;
     Main.baseline_file := baseline;
     Main.comment_sink := s |}.

(** The page never sets [window.benchmarkResult]: the wait times out. *)
Definition stuck_run : Main.inputs := sprite_run 5 (Prim Undefined) NoBaseline no_sink.

(** Three repeats that all measure [fps]. *)
Definition steady (fps : number) : Isolated.aggregated :=
  Isolated.aggregate [Num fps; Num fps; Num fps].

(** One scenario whose dev page measures [devFps] and whose local page
    measures [localFps] on every repeat. *)
Definition sprite_scenario : Isolated.scenario :=
  {| Isolated.scenario_name := "sprite";
     Isolated.devURL := "http://localhost:8080/benchmarks/sprite/dev.html";
     Isolated.localURL := "http://localhost:8080/benchmarks/sprite/local.html" |}.

Definition isolated_run (perfChange devFps localFps : number) (s : sink) : Isolated.inputs :=
  {| Isolated.dist_exists := true; Isolated.pixi_exists := true;
     Isolated.perfChange := perfChange;
     Isolated.index_files := Ok [sprite_scenario];
     Isolated.page := fun url _ =>
       if String.eqb url (Isolated.devURL sprite_scenario)
       then Publishes (sprite devFps) else Publishes (sprite localFps);
     Isolated.comment_sink := s |}.

End Examples.

(** ** The file system the discovery functions walk

    A path is the list of its segments below the root; [render] gives the
    string the source handles.  [path.join(dir, name)] on a resolved
    directory and a name read from it is [dir ++ [name]], and
    [path.dirname] drops the last segment.  The names of one directory are
    taken to be distinct, as they are on disk. *)

Module Fs.

Import JS.
Local Open Scope string_scope.
Local Open Scope list_scope.
Local Set Warnings "-register-all".

Definition path := list string.

Inductive node :=
| File (content : string)
| Dir (entries : list (string * node)).

Fixpoint render (p : path) : string :=
  match p with
  | [] => ""
  | segment :: rest => "/" ++ segment ++ render rest
  end.

(** [s.endsWith(suffix)]. *)
Definition endsWith (s suffix : string) : bool :=
  let n := String.length s in
  let m := String.length suffix in
  (m <=? n)%nat && String.eqb (substring (n - m) m s) suffix.

Definition dirname (p : path) : path := removelast p.

Fixpoint entry_named (name : string) (entries : list (string * node)) : option node :=
  match entries with
  | [] => None
  | (name', child) :: rest =>
      if String.eqb name' name then Some child else entry_named name rest
  end.

(** The node a path leads to. *)
Fixpoint lookup (p : path) (n : node) : option node :=
  match p with
  | [] => Some n
  | name :: rest =>
      match n with
      | File _ => None
      | Dir entries =>
          match entry_named name entries with
          | Some child => lookup rest child
          | None => None
          end
      end
  end.

(** [fs.existsSync(p)]. *)
Definition existsSync (p : path) (fs : node) : bool :=
  match lookup p fs with
  | Some _ => true
  | None => false
  end.

(** The loop of [findRecursive] over the entries [readdirSync] lists:
    directories are descended into, and of the other entries those whose
    path ends in [.html] are pushed onto the one list that is handed
    down. *)
Fixpoint findRecursive_in (dir : path) (n : node) (fileList : list path) {struct n}
  : list path :=
  match n with
  | File _ => fileList
  | Dir entries =>
      (fix each (files : list (string * node)) (fileList : list path) {struct files}
         : list path :=
         match files with
         | [] => fileList
         | (file, child) :: rest =>
             let filePath := dir ++ [file] in
             each rest
               match child with
               | Dir _ => findRecursive_in filePath child fileList
               | File _ =>
                   if endsWith (render filePath) ".html" then fileList ++ [filePath]
                   else fileList
               end
         end) entries fileList
  end.

(** A directory that cannot be listed makes [readdirSync] throw. *)
Definition readable (fs : node) (dir : path) : result node :=
  match lookup dir fs with
  | None => Throw "ENOENT: no such file or directory, scandir"
  | Some (File _) => Throw "ENOTDIR: not a directory, scandir"
  | Some (Dir entries) => Ok (Dir entries)
  end.

(** [findRecursive(dir, fileList)]. *)
Definition findRecursive (fs : node) (dir : path) (fileList : list path)
  : result (list path) :=
  rbind (readable fs dir) (fun n => Ok (findRecursive_in dir n fileList)).

(** The loop of [findIndexModules]: directories are descended into, and
    of the other entries those named [index.mjs] are pushed.  The source's
    [list] is [found] here. *)
Fixpoint findIndexModules_in (dir : path) (n : node) (found : list path) {struct n}
  : list path :=
  match n with
  | File _ => found
  | Dir entries =>
      (fix each (rest : list (string * node)) (found : list path) {struct rest}
         : list path :=
         match rest with
         | [] => found
         | (entry, child) :: rest' =>
             let fp := dir ++ [entry] in
             each rest'
               match child with
               | Dir _ => findIndexModules_in fp child found
               | File _ => if String.eqb entry "index.mjs" then found ++ [fp] else found
               end
         end) entries found
  end.

(** [findIndexModules(dir, list)]. *)
Definition findIndexModules (fs : node) (dir : path) (found : list path)
  : result (list path) :=
  rbind (readable fs dir) (fun n => Ok (findIndexModules_in dir n found)).

(** The listing of a directory after a write below the entry [name]:
    the entry is replaced by what [write] makes of it, and when there is
    none the listing becomes what [absent] says. *)
Fixpoint place (name : string) (write : node -> result node)
  (absent : result (list (string * node)))
  (entries : list (string * node)) : result (list (string * node)) :=
  match entries with
  | [] => absent
  | (name', child) :: others =>
      if String.eqb name' name
      then rbind (write child) (fun child' => Ok ((name', child') :: others))
      else rbind (place name write absent others)
                 (fun others' => Ok ((name', child) :: others'))
  end.

(** [fs.writeFileSync(p, content)]: the file is replaced or created in its
    directory, which has to exist; a new name goes to the end of the
    listing. *)
Fixpoint writeFileSync (p : path) (content : string) (n : node) {struct p} : result node :=
  match p with
  | [] =>
      match n with
      | File _ => Ok (File content)
      | Dir _ => Throw "EISDIR: illegal operation on a directory, open"
      end
  | name :: rest =>
      match n with
      | File _ => Throw "ENOTDIR: not a directory, open"
      | Dir entries =>
          rbind
            (place name (writeFileSync rest content)
               match rest with
               | [] => Ok [(name, File content)]
               | _ :: _ => Throw "ENOENT: no such file or directory, open"
               end
               entries)
            (fun entries' => Ok (Dir entries'))
      end
  end.

(** [if (!fs.existsSync(page)) fs.writeFileSync(page, template)]. *)
Definition ensurePage (page : path) (template : string) (fs : node) : result node :=
  if existsSync page fs then Ok fs else writeFileSync page template fs.

(** The loop of [ensureBenchmarkHtmlTemplates] over the index files. *)
Fixpoint ensureEach (indexFiles : list path) (localHTML devHTML : string) (fs : node)
  : result node :=
  match indexFiles with
  | [] => Ok fs
  | indexPath :: rest =>
      let dir := dirname indexPath in
      rbind (ensurePage (dir ++ ["local.html"]) localHTML fs) (fun fs1 =>
      rbind (ensurePage (dir ++ ["dev.html"]) devHTML fs1) (fun fs2 =>
      ensureEach rest localHTML devHTML fs2))
  end.

(** [ensureBenchmarkHtmlTemplates(benchmarkRoot)], over the two page
    templates. *)
Definition ensureBenchmarkHtmlTemplates (benchmarkRoot : path) (localHTML devHTML : string)
  (fs : node) : result node :=
  rbind (findIndexModules fs benchmarkRoot []) (fun indexFiles =>
  match indexFiles with
  | [] => Ok fs
  | _ :: _ => ensureEach indexFiles localHTML devHTML fs
  end).

(** The walk the two discovery loops share: [keep] decides which of the
    entries that are not directories are listed. *)
Fixpoint walk (keep : string -> path -> bool) (dir : path) (n : node) (found : list path)
  {struct n} : list path :=
  match n with
  | File _ => found
  | Dir entries =>
      (fix each (rest : list (string * node)) (found : list path) {struct rest}
         : list path :=
         match rest with
         | [] => found
         | (entry, child) :: rest' =>
             each rest'
               match child with
               | Dir _ => walk keep (dir ++ [entry]) child found
               | File _ => if keep entry (dir ++ [entry]) then found ++ [dir ++ [entry]]
                           else found
               end
         end) entries found
  end.

(** One turn of the shared loop. *)
Definition visit (keep : string -> path -> bool) (dir : path) (found : list path)
  (e : string * node) : list path :=
  match snd e with
  | Dir _ => walk keep (dir ++ [fst e]) (snd e) found
  | File _ => if keep (fst e) (dir ++ [fst e]) then found ++ [dir ++ [fst e]] else found
  end.

(** What [findRecursive] keeps, and what [findIndexModules] keeps. *)
Definition html_page (file : string) (filePath : path) : bool :=
  endsWith (render filePath) ".html".

Definition index_module (entry : string) (fp : path) : bool :=
  String.eqb entry "index.mjs".

(** Induction over a tree, with the property at hand for every entry of a
    directory. *)
Fixpoint node_induction (P : node -> Prop)
  (file : forall content, P (File content))
  (directory : forall entries, Forall (fun e => P (snd e)) entries -> P (Dir entries))
  (n : node) {struct n} : P n :=
  match n with
  | File content => file content
  | Dir entries =>
      directory entries
        ((fix all (entries : list (string * node)) : Forall (fun e => P (snd e)) entries :=
            match entries with
            | [] => Forall_nil _
            | e :: rest => Forall_cons e (node_induction P file directory (snd e)) (all rest)
            end) entries)
  end.

(** The names of every directory are distinct. *)
Fixpoint distinct_names (n : node) : Prop :=
  match n with
  | File _ => True
  | Dir entries =>
      NoDup (map fst entries) /\
      (fix all (entries : list (string * node)) : Prop :=
         match entries with
         | [] => True
         | (_, child) :: rest => distinct_names child /\ all rest
         end) entries
  end.

(** What a node stays under the writes of the template step: a file keeps
    its content, a directory stays one, and the index files found below
    it are the same. *)
Definition same_listing (m m' : node) : Prop :=
  match m with
  | File content => m' = File content
  | Dir _ => exists entries', m' = Dir entries'
  end /\
  forall dir found, findIndexModules_in dir m' found = findIndexModules_in dir m found.

(** Every path of [fs] leads to the same in [fs']. *)
Definition keeps (fs fs' : node) : Prop :=
  forall q m, lookup q fs = Some m ->
  exists m', lookup q fs' = Some m' /\ same_listing m m'.

End Fs.

(** A checkout to try the discovery on: one benchmark with its entry
    point and a page written by hand, and the build. *)
Module FsExamples.

Import Fs.
Local Open Scope string_scope.
Local Open Scope list_scope.

Definition sprite_dir : node :=
  Dir [("index.mjs", File "export default 1;"); ("index.html", File "<html></html>")].

Definition checkout : node :=
  Dir [("benchmarks", Dir [("sprite", sprite_dir); ("README.md", File "")]);
       ("dist", Dir [("pixi.mjs", File "")])].

Definition benchmarks : path := ["benchmarks"].

End FsExamples.

(** ** The runner that spawns its server and waits for it: a fixed page,
       a fixed threshold of 5 percent, and no comparison without a
       baseline *)

Module Spawned.

Import JS Eff.
Local Open Scope float_scope.
Local Open Scope eff_scope.

(** What one [fetch(url)] comes to. *)
Inductive response :=
| Refused                      (* [fetch] rejects: caught, not ready yet *)
| Status (ok : bool).          (* a response, with its [res.ok] *)

(** How long [waitForServer] has been at it. *)
Record waited := {
  fetches : nat;               (* calls of [fetch] *)
  slept : nat                  (* milliseconds spent in [setTimeout] *)
}.

(** [for (let i = 0; i < retries; i++)], counting the turns left; the
    [k]-th call of [fetch] comes to [fetch k]. *)
Fixpoint waitFrom (fetch : nat -> response) (delay : nat) (i count : nat) (t : waited)
  : result bool * waited :=
  match count with
  | O => (Throw "Server did not respond", t)
  | S count' =>
      match fetch i with
      | Status true => (Ok true, {| fetches := S (fetches t); slept := slept t |})
      | _ => waitFrom fetch delay (S i) count'
               {| fetches := S (fetches t); slept := (slept t + delay)%nat |}
      end
  end.

(** [waitForServer(url, retries, delay)]. *)
Definition waitForServer (fetch : nat -> response) (retries delay : nat)
  : result bool * waited :=
  waitFrom fetch delay 0%nat retries {| fetches := 0%nat; slept := 0%nat |}.

Record row := {
  devFPS : number;
  prFPS : number;
  diffPercent : number;
  regression : bool;
  arrow : trend
}.

Record body := {
  table : list row;
  regressionLine : bool
}.

Record inputs := {
  dist_exists : bool;
  copy_dist : option string;      (* what copying the build throws, if it does *)
  fetch : nat -> response;
  page : string -> page_behaviour;
  baseline_file : baseline_input; (* [NoBaseline]: no path given, or no such file *)
  comment_sink : sink;
  kill_fails : option string      (* what [process.kill(-server.pid)] throws, if it
                                     does: [ESRCH] when the process group is gone *)
}.

Definition pages : list string :=
  ["http://localhost:8080/dist/benchmark/sprite/index.html"%string].

(** [page.goto(pageUrl)]. *)
Definition goto (i : inputs) (pageUrl : string) : M body unit :=
  match page i pageUrl with
  | NavigationFails msg => throw msg
  | Publishes _ => ret tt
  end.

(** [page.waitForFunction(() => window.benchmarkResult, { timeout: 30_000 })]
    followed by [jsonValue()]. *)
Definition waitForResult (i : inputs) (pageUrl : string) : M body entry :=
  match page i pageUrl with
  | NavigationFails msg => throw msg
  | Publishes e =>
      if truthy e then ret e
      else throw "page.waitForFunction: Timeout 30000ms exceeded."
  end.

(** One turn of [for (const pageUrl of pages)]. *)
Definition benchmarkPage (i : inputs) (pageUrl : string) (prResults : list entry)
  : M body (list entry) :=
  newPage pageUrl ;;
  goto i pageUrl ;;
  prResult <- waitForResult i pageUrl ;;
  close_page pageUrl ;;
  ret (prResults ++ [prResult]).

Fixpoint runPages (i : inputs) (pages : list string) (prResults : list entry)
  : M body (list entry) :=
  match pages with
  | [] => ret prResults
  | pageUrl :: rest =>
      prResults' <- benchmarkPage i pageUrl prResults ;;
      runPages i rest prResults'
  end.

(** The body of [for (let i = 0; i < pages.length; i++)]: an index without
    a baseline result is passed over. *)
Definition compareAt (prResults baseline : list entry) (i : nat) (tableRows : list row)
  : result (list row) :=
  let prResult := at_index prResults i in
  let baselineResult := at_index baseline i in
  if negb (truthy baselineResult) then Ok tableRows
  else
    rbind (get_fps baselineResult) (fun bf =>
    rbind (get_fps prResult) (fun pf =>
    let devFPS := Number bf in
    let prFPS := Number pf in
    let diffPercent := (devFPS - prFPS) / devFPS * 100 in
    let regression := gt diffPercent 5 in
    let arrow := if gt diffPercent 0 then Down else Up in
    Ok (tableRows ++ [{| devFPS := devFPS; prFPS := prFPS; diffPercent := diffPercent;
                         regression := regression; arrow := arrow |}]))).

Fixpoint compareFrom (prResults baseline : list entry) (i count : nat) (tableRows : list row)
  : result (list row) :=
  match count with
  | O => Ok tableRows
  | S count' =>
      rbind (compareAt prResults baseline i tableRows) (fun tableRows' =>
      compareFrom prResults baseline (S i) count' tableRows')
  end.

(** [tableRows.forEach(... if (regression) regressionDetected = true)]. *)
Definition detect (tableRows : list row) : bool :=
  fold_left (fun regressionDetected r => if regression r then true else regressionDetected)
            tableRows false.

(** Everything after the results file is written. *)
Definition compareAndReport (i : inputs) (prResults : list entry) : M body unit :=
  match baseline_file i with
  | NoBaseline => ret tt
  | Malformed msg => throw msg
  | Parsed baseline =>
      tableRows <- lift (compareFrom prResults baseline 0%nat (List.length pages) []) ;;
      let regressionDetected := detect tableRows in
      postComment (comment_sink i)
        {| table := tableRows; regressionLine := regressionDetected |} ;;
      if regressionDetected then setFailed "Performance regression >5% detected."
      else ret tt
  end.

(** The statements inside [try]; [server] is the spawned process. *)
Definition tryBlock (i : inputs) : M body unit :=
  if negb (dist_exists i) then throw "dist path not found"
  else
    may_fail (copy_dist i) ;;
    set_server true ;;
    lift (fst (waitForServer (fetch i) 20 300)) ;;
    launch ;;
    prResults <- runPages i pages [] ;;
    close_browser ;;
    writeFile prResults ;;
    compareAndReport i prResults.

(** [if (server) process.kill(-server.pid)]: the signal goes to the process
    group of the spawned server, and [process.kill] throws when it cannot
    be delivered; the server is then left as it was. *)
Definition killServer (i : inputs) : M body unit :=
  s <- gets (@server body) ;;
  if s then may_fail (kill_fails i) ;; set_server false else ret tt.

(** [try { ... } catch (err) { core.setFailed(err.message) }
     finally { if (server) process.kill(-server.pid) }]: what [finally]
    throws is not caught, and [run] rejects with it. *)
Definition run (i : inputs) : M body unit :=
  try_finally (try_catch (tryBlock i) (fun msg => setFailed msg)) (killServer i).

(** The server was spawned: the build is there and was copied. *)
Definition spawned (i : inputs) : bool :=
  dist_exists i && match copy_dist i with None => true | Some _ => false end.

End Spawned.

(** ** The runner that copies the build beside itself: a missing baseline
       result gives a row whose change is the string [N/A] *)

Module Copied.

Import JS Eff.
Local Open Scope float_scope.
Local Open Scope eff_scope.

(** The [diffPercent] of a row: a number, or the string [N/A]. *)
Inductive change :=
| Percent (d : number)
| NotAvailable.

Record row := {
  name : option string;
  devFPS : option number;        (* [None] is [null] *)
  prFPS : number;
  diffPercent : change;
  regression : bool;
  arrow : option trend           (* [None] is [null] *)
}.

Record body := {
  table : list row;
  regressionLine : bool;
  threshold : number
}.

Record inputs := {
  dist_exists : bool;
  pixi_exists : bool;
  copy_dist : option string;      (* what copying the build throws, if it does *)
  perfChange : number;
  page : string -> page_behaviour;
  baseline_file : baseline_input;
  comment_sink : sink
}.

Definition pages : list string := ["http://localhost:8080/benchmarks/sprite/"%string].

Definition goto (i : inputs) (pageUrl : string) : M body unit :=
  match page i pageUrl with
  | NavigationFails msg => throw msg
  | Publishes _ => ret tt
  end.

Definition waitForResult (i : inputs) (pageUrl : string) : M body entry :=
  match page i pageUrl with
  | NavigationFails msg => throw msg
  | Publishes e =>
      if truthy e then ret e
      else throw "page.waitForFunction: Timeout 30000ms exceeded."
  end.

Definition benchmarkPage (i : inputs) (pageUrl : string) (prResults : list entry)
  : M body (list entry) :=
  newPage pageUrl ;;
  goto i pageUrl ;;
  prResult <- waitForResult i pageUrl ;;
  close_page pageUrl ;;
  ret (prResults ++ [prResult]).

Fixpoint runPages (i : inputs) (pages : list string) (prResults : list entry)
  : M body (list entry) :=
  match pages with
  | [] => ret prResults
  | pageUrl :: rest =>
      prResults' <- benchmarkPage i pageUrl prResults ;;
      runPages i rest prResults'
  end.

Definition parseBaseline (b : baseline_input) : result (list entry) :=
  match b with
  | NoBaseline => Ok []
  | Malformed msg => Throw msg
  | Parsed a => Ok a
  end.

(** The body of [for (let i = 0; i < pages.length; i++)]. *)
Definition compareAt (perfChange : number) (prResults baseline : list entry) (i : nat)
  : result row :=
  let prResult := at_index prResults i in
  let baselineResult := at_index baseline i in
  if negb (truthy baselineResult) then
    rbind (get_name prResult) (fun n =>
    rbind (get_fps prResult) (fun f =>
    Ok {| name := n; devFPS := None; prFPS := Number f; diffPercent := NotAvailable;
          regression := false; arrow := None |}))
  else
    rbind (get_fps baselineResult) (fun bf =>
    rbind (get_fps prResult) (fun pf =>
    let devFPS := Number bf in
    let prFPS := Number pf in
    let diffPercent := (devFPS - prFPS) / devFPS * 100 in
    let regression := gt diffPercent perfChange in
    let arrow := if gt diffPercent 0 then Down else Up in
    rbind (get_name prResult) (fun n =>
    Ok {| name := n; devFPS := Some devFPS; prFPS := prFPS;
          diffPercent := Percent diffPercent; regression := regression;
          arrow := Some arrow |}))).

Fixpoint compareFrom (perfChange : number) (prResults baseline : list entry)
  (i count : nat) (tableRows : list row) : result (list row) :=
  match count with
  | O => Ok tableRows
  | S count' =>
      rbind (compareAt perfChange prResults baseline i) (fun r =>
      compareFrom perfChange prResults baseline (S i) count' (tableRows ++ [r]))
  end.

(** [diffPercent == null ? '-' : `${diffPercent.toFixed(2)}%`]: a string
    is not [null] and has no [toFixed]. *)
Definition formatChange (c : change) : result unit :=
  match c with
  | Percent _ => Ok tt
  | NotAvailable => Throw "diffPercent.toFixed is not a function"
  end.

(** [tableRows.forEach(...)]: each row is formatted into the body, and then
    counted if it is a regression. *)
Fixpoint renderRows (tableRows : list row) (regressionDetected : bool) : result bool :=
  match tableRows with
  | [] => Ok regressionDetected
  | r :: rest =>
      rbind (formatChange (diffPercent r)) (fun _ =>
      renderRows rest (if regression r then true else regressionDetected))
  end.

(** Everything after the results file is written. *)
Definition compareAndReport (i : inputs) (prResults : list entry) : M body unit :=
  baseline <- lift (parseBaseline (baseline_file i)) ;;
  tableRows <- lift (compareFrom (perfChange i) prResults baseline 0%nat
                       (List.length pages) []) ;;
  regressionDetected <- lift (renderRows tableRows false) ;;
  postComment (comment_sink i)
    {| table := tableRows; regressionLine := regressionDetected;
       threshold := perfChange i |} ;;
  if regressionDetected then setFailed "Performance regression detected!" else ret tt.

(** The statements inside [try]. *)
Definition tryBlock (i : inputs) : M body unit :=
  if negb (dist_exists i) then throw "dist path not found"
  else if negb (pixi_exists i) then setFailed "pixi.mjs not found in dist path"
  else
    may_fail (copy_dist i) ;;
    set_server true ;;
    launch ;;
    prResults <- runPages i pages [] ;;
    close_browser ;;
    writeFile prResults ;;
    compareAndReport i prResults.

Definition run (i : inputs) : M body unit :=
  try_finally (try_catch (tryBlock i) (fun msg => setFailed msg)) close_server.

End Copied.

(** Runs of the two older runners to try their properties on. *)
Module OlderExamples.

Import JS Eff.
Local Open Scope float_scope.
Local Open Scope string_scope.

(** A pull request on which the comment can be posted. *)
Definition working_sink : sink :=
  {| token := true; pull_request := Some 7%nat; listComments_fails := None;
     updateComment_fails := None; createComment_fails := None |}.

(** The spawned server answers the third [fetch]; the page publishes
    [published]. *)
Definition spawned_run (published : entry) (baseline : baseline_input) (s : sink)
  : Spawned.inputs :=
  {| Spawned.dist_exists := true; Spawned.copy_dist := None;
     Spawned.fetch := fun k => if (k <? 2)%nat then Spawned.Refused else Spawned.Status true;
     Spawned.page := fun _ => Publishes published;
     Spawned.baseline_file := baseline;
     Spawned.comment_sink := s;
     Spawned.kill_fails := None |}.

(** The spawned server answers, but never with an ok response. *)
Definition unanswered_run : Spawned.inputs :=
  {| Spawned.dist_exists := true; Spawned.copy_dist := None;
     Spawned.fetch := fun _ => Spawned.Status false;
     Spawned.page := fun _ => Publishes (Examples.sprite 60);
     Spawned.baseline_file := NoBaseline;
     Spawned.comment_sink := working_sink;
     Spawned.kill_fails := None |}.

(** The page publishes and nothing is compared, but the process group of
    the server is gone by the time [finally] signals it. *)
Definition vanished_server_run : Spawned.inputs :=
  {| Spawned.dist_exists := true; Spawned.copy_dist := None;
     Spawned.fetch := fun _ => Spawned.Status true;
     Spawned.page := fun _ => Publishes (Examples.sprite 60);
     Spawned.baseline_file := NoBaseline;
     Spawned.comment_sink := working_sink;
     Spawned.kill_fails := Some "kill ESRCH" |}.

Definition copied_run (perfChange : number) (published : entry) (baseline : baseline_input)
  (s : sink) : Copied.inputs :=
  {| Copied.dist_exists := true; Copied.pixi_exists := true; Copied.copy_dist := None;
     Copied.perfChange := perfChange;
     Copied.page := fun _ => Publishes published;
     Copied.baseline_file := baseline;
     Copied.comment_sink := s |}.

(** A thread with one comment of somebody else. *)
Definition thread {R} : list (comment R) :=
  [{| comment_id := 41%nat; has_marker := false; rendered := None |}].

(** A thread whose first page is full: 30 comments of others. *)
Definition full_page {R} : list (comment R) :=
  map (fun k => {| comment_id := k; has_marker := false; rendered := None |}) (seq 1 30).

End OlderExamples.

(** ** The thread after the comment step *)

Module Thread.

Import Eff.

(** The comment the step leaves under the identifier [id]. *)
Definition report {R} (id : nat) (body : R) : comment R :=
  {| comment_id := id; has_marker := true; rendered := Some body |}.

(** What [upsertComment] makes of a thread when no call rejects. *)
Definition upserted {R} (body : R) (cs : list (comment R)) : list (comment R) :=
  match find (@has_marker R) (listComments cs) with
  | Some existing =>
      map (fun c => if Nat.eqb (comment_id c) (comment_id existing)
                    then report (comment_id c) body else c) cs
  | None => cs ++ [report (S (fold_right Nat.max 0%nat (map (@comment_id R) cs))) body]
  end.

(** The step runs: there is a token and a pull request. *)
Definition posts (s : sink) : bool :=
  token s && match pull_request s with Some _ => true | None => false end.

(** None of the three calls rejects. *)
Definition accepting (s : sink) : Prop :=
  listComments_fails s = None /\ updateComment_fails s = None /\
  createComment_fails s = None.

(** The world with another thread. *)
Definition with_comments {R} (w : world R) (cs : list (comment R)) : world R :=
  {| server := server w; browsers := browsers w; open_pages := open_pages w;
     failures := failures w; warnings := warnings w; output := output w;
     comments := cs |}.

End Thread.

(** ** The vocabulary of the grouping by name *)

Module Grouping.

Import JS DevLocal.

(** The side of a group that [which] sets. *)
Definition side (which : variant) (v : vals) : option number :=
  match which with
  | Dev => dev v
  | Local => local v
  end.

(** The keys of a list, each at its first occurrence. *)
Definition first_occurrences (keys : list (option string)) : list (option string) :=
  fold_left (fun seen k => if existsb (fun k' => key_eqb k' k) seen then seen
                           else seen ++ [k])
            keys [].

End Grouping.

(** ** The page list the single-baseline-file runner builds from the
       [.html] files *)

Module Pages.

Import JS Fs.
Local Open Scope string_scope.
Local Open Scope list_scope.

(** [path.relative(from, to)] on two resolved paths: the common leading
    segments go, every segment left of [from] becomes [..], and what is
    left of [to] follows. *)
Fixpoint relative (from to : path) : path :=
  match from, to with
  | a :: from', b :: to' =>
      if String.eqb a b then relative from' to' else map (fun _ => "..") from ++ to
  | _, _ => map (fun _ => "..") from ++ to
  end.

(** The segments with [/] between them. *)
Definition join (p : path) : string := String.concat "/" p.

(** The backslash and the slash. *)
Definition backslash : Ascii.ascii := Ascii.ascii_of_nat 92%nat.
Definition slash : Ascii.ascii := Ascii.ascii_of_nat 47%nat.

(** [.replace(/\\/g, '/')]. *)
Fixpoint slashes (s : string) : string :=
  match s with
  | EmptyString => EmptyString
  | String c rest => String (if Ascii.eqb c backslash then slash else c) (slashes rest)
  end.

(** The URL pushed for one file: that of its directory. *)
Definition pageUrl (cwd file : path) : string :=
  "http://localhost:8080/" ++ slashes (join (relative cwd (dirname file))) ++ "/".

(** [benchmarkFiles.forEach((file) => { ... pages.push(url) })]. *)
Definition pagesOf (cwd : path) (benchmarkFiles : list path) : list string :=
  fold_left (fun pages file => pages ++ [pageUrl cwd file]) benchmarkFiles [].

(** The pages of a run, or what [findRecursive] throws. *)
Definition benchmark_pages (fs : node) (cwd benchmarkFullPath : path) : result (list string) :=
  rbind (findRecursive fs benchmarkFullPath []) (fun benchmarkFiles =>
  Ok (pagesOf cwd benchmarkFiles)).

End Pages.

Module PagesExamples.

Import Fs.
Local Open Scope string_scope.
Local Open Scope list_scope.

(** A benchmark directory with two pages in it. *)
Definition two_pages : node :=
  Dir [("benchmarks",
        Dir [("sprite", Dir [("index.html", File ""); ("debug.html", File "")])])].

End PagesExamples.

(** ** The recursive copy of the build *)

Module Copy.

Import JS Fs.
Local Open Scope string_scope.
Local Open Scope list_scope.

(** [fs.mkdirSync(p, { recursive: true })]: the directories that are
    missing along [p] are created; a file in the way makes it throw. *)
Fixpoint mkdirp (p : path) (n : node) {struct p} : result node :=
  match p with
  | [] =>
      match n with
      | Dir _ => Ok n
      | File _ => Throw "EEXIST: file already exists, mkdir"
      end
  | name :: rest =>
      match n with
      | File _ => Throw "ENOTDIR: not a directory, mkdir"
      | Dir entries =>
          rbind
            (place name (mkdirp rest)
               (rbind (mkdirp rest (Dir [])) (fun made => Ok [(name, made)]))
               entries)
            (fun entries' => Ok (Dir entries'))
      end
  end.

(** [fs.copyFileSync(src, dest)]. *)
Definition copyFileSync (src dest : path) (fs : node) : result node :=
  match lookup src fs with
  | None => Throw "ENOENT: no such file or directory, copyfile"
  | Some (Dir _) => Throw "EISDIR: illegal operation on a directory, copyfile"
  | Some (File content) => writeFileSync dest content fs
  end.

(** [for (const entry of entries) copyRecursive(path.join(src, entry),
    path.join(dest, entry))], over the function that copies one entry.
    [None] stands for a call that does not come back. *)
Fixpoint copyEach (copy : path -> path -> node -> option (result node))
  (src dest : path) (entries : list string) (fs : node) : option (result node) :=
  match entries with
  | [] => Some (Ok fs)
  | entry :: rest =>
      match copy (src ++ [entry]) (dest ++ [entry]) fs with
      | Some (Ok fs') => copyEach copy src dest rest fs'
      | Some (Throw msg) => Some (Throw msg)
      | None => None
      end
  end.

(** [copyRecursive(src, dest)], with a bound on the depth of the calls:
    the file system is read again at every call, as the source does. *)
Fixpoint copyRecursive (fuel : nat) (src dest : path) (fs : node) : option (result node) :=
  match fuel with
  | O => None
  | S fuel' =>
      match lookup src fs with
      | None => Some (Throw "ENOENT: no such file or directory, stat")
      | Some (File _) => Some (copyFileSync src dest fs)
      | Some (Dir _) =>
          match mkdirp dest fs with
          | Throw msg => Some (Throw msg)
          | Ok fs1 =>
              match lookup src fs1 with
              | None => Some (Throw "ENOENT: no such file or directory, scandir")
              | Some (File _) => Some (Throw "ENOTDIR: not a directory, scandir")
              | Some (Dir entries) =>
                  copyEach (copyRecursive fuel') src dest (map fst entries) fs1
              end
          end
      end
  end.

(** The two paths part ways at some segment: neither leads through the
    other. *)
Fixpoint apart (p q : path) : bool :=
  match p, q with
  | a :: p', b :: q' => if String.eqb a b then apart p' q' else true
  | _, _ => false
  end.

(** The nesting of a tree. *)
Fixpoint depth (n : node) : nat :=
  match n with
  | File _ => 0%nat
  | Dir entries =>
      S ((fix deepest (entries : list (string * node)) : nat :=
            match entries with
            | [] => 0%nat
            | (_, child) :: rest => Nat.max (depth child) (deepest rest)
            end) entries)
  end.

(** The listing in which the entry [name] is [f] of what it was, or of an
    empty directory when there was none. *)
Fixpoint update (name : string) (f : node -> node) (entries : list (string * node))
  : list (string * node) :=
  match entries with
  | [] => [(name, f (Dir []))]
  | (name', child) :: rest =>
      if String.eqb name' name then (name', f child) :: rest
      else (name', child) :: update name f rest
  end.

(** The tree with [n] at [p]. *)
Fixpoint graft (p : path) (n : node) (fs : node) : node :=
  match p with
  | [] => n
  | name :: rest =>
      match fs with
      | File content => File content
      | Dir entries => Dir (update name (graft rest n) entries)
      end
  end.

End Copy.

Module CopyExamples.

Import Fs.
Local Open Scope string_scope.
Local Open Scope list_scope.

(** A build with a nested directory, and an empty place to copy it to. *)
Definition built : node :=
  Dir [("pixi.mjs", File "export {};"); ("assets", Dir [("bunny.png", File "PNG")])].

Definition action : node := Dir [("dist", built); ("temp", Dir [])].

End CopyExamples.

Module AbortExamples.

Import JS Eff.
Local Open Scope float_scope.
Local Open Scope string_scope.

(** The sprite scenario with pages that fail to load on the second
    repeat. *)
Definition flaky_run : Isolated.inputs :=
  {| Isolated.dist_exists := true; Isolated.pixi_exists := true;
     Isolated.perfChange := 5;
     Isolated.index_files := Ok [Examples.sprite_scenario];
     Isolated.page := fun _ k =>
       if Nat.eqb k 1 then NavigationFails "net::ERR_CONNECTION_REFUSED"
       else Publishes (Examples.sprite 60);
     Isolated.comment_sink := Examples.no_sink |}.

End AbortExamples.
(** ** Facts about binary64 arithmetic, from the specification of the
       primitive operations *)

Unset Implicit Arguments.

Module NumberFacts.

Import JS.
Local Open Scope float_scope.

Lemma SF_zero : Prim2SF 0 = S754_zero false.
Proof. reflexivity. Qed.

Lemma SF_one : Prim2SF 1 = S754_finite false 4503599627370496 (-52).
Proof. reflexivity. Qed.

Lemma SF_hundred : Prim2SF 100 = S754_finite false 7036874417766400 (-46).
Proof. reflexivity. Qed.

(** *** NaN *)

Lemma SFeqb_refl_finite s m e : SFeqb (S754_finite s m e) (S754_finite s m e) = true.
Proof.
  unfold SFeqb, SFcompare. rewrite Z.compare_refl.
  fold (Pos.compare m m). rewrite Pos.compare_refl. now destruct s.
Qed.

Lemma is_nan_SF x : is_nan x = true <-> Prim2SF x = S754_nan.
Proof.
  unfold is_nan. rewrite eqb_spec.
  destruct (Prim2SF x) as [[] | [] | | s m e]; try (split; discriminate).
  - split; reflexivity.
  - rewrite SFeqb_refl_finite. split; discriminate.
Qed.

Lemma is_nan_eq x : is_nan x = true <-> x = nan.
Proof.
  rewrite is_nan_SF. split.
  - intros H. apply Prim2SF_inj. now rewrite H.
  - now intros ->.
Qed.

Lemma gt_nan_r x : gt x nan = false.
Proof. unfold gt. rewrite ltb_spec. reflexivity. Qed.

Lemma gt_nan_l x : gt nan x = false.
Proof. unfold gt. rewrite ltb_spec. unfold SFltb. now destruct (Prim2SF x). Qed.




Lemma div_nan_r x : x / nan = nan.
Proof. apply Prim2SF_inj. rewrite div_spec. unfold SF64div. now destruct (Prim2SF x). Qed.

Lemma mul_nan_l y : nan * y = nan.
Proof. apply Prim2SF_inj. rewrite mul_spec. reflexivity. Qed.

Lemma mul_nan_r x : x * nan = nan.
Proof. apply Prim2SF_inj. rewrite mul_spec. unfold SF64mul. now destruct (Prim2SF x). Qed.



(** *** Finite numbers *)

Lemma finite_cases x :
  is_finite x = true ->
  (exists s, Prim2SF x = S754_zero s) \/ (exists s m e, Prim2SF x = S754_finite s m e).
Proof.
  unfold is_finite, is_infinity, is_nan. rewrite !eqb_spec, abs_spec.
  destruct (Prim2SF x) as [s | [] | | s m e]; try discriminate; eauto.
Qed.

Lemma finite_nonzero_shape x :
  is_finite x = true -> is_zero x = false -> exists s m e, Prim2SF x = S754_finite s m e.
Proof.
  intros F Z. destruct (finite_cases x F) as [[s E] | H]; [|assumption].
  unfold is_zero in Z. rewrite eqb_spec, E in Z. discriminate.
Qed.

Lemma sub_self_SF s m e :
  SF64sub (S754_finite s m e) (S754_finite s m e) = S754_zero false.
Proof. unfold SF64sub, SFsub. now rewrite Z.min_id, Z.sub_diag. Qed.

(** [x - x] is +0 for every finite [x]. *)
Lemma sub_self x : is_finite x = true -> x - x = 0.
Proof.
  intros F. apply Prim2SF_inj. rewrite sub_spec.
  destruct (finite_cases x F) as [[s E] | (s & m & e & E)]; rewrite E.
  - now destruct s.
  - apply sub_self_SF.
Qed.

(** The percentage of a finite non-zero rate against itself is a zero. *)
Lemma percent_self x :
  is_finite x = true -> is_zero x = false -> is_zero ((x - x) / x * 100) = true.
Proof.
  intros F Z. rewrite (sub_self _ F).
  destruct (finite_nonzero_shape _ F Z) as (s & m & e & E).
  unfold is_zero. rewrite eqb_spec, mul_spec, div_spec, E.
  now destruct s.
Qed.

(** *** Canonical mantissas *)

Lemma bounded_unpack m e :
  bounded prec emax m e = true ->
  (e = Z.max (Z.pos (digits2_pos m) + e - 53) (-1074) /\ e <= 971)%Z.
Proof.
  unfold bounded, canonical_mantissa, fexp, SpecFloat.emin, prec, emax.
  rewrite andb_true_iff, Z.eqb_eq, Z.leb_le. intros [H1 H2]. split; [|assumption].
  rewrite <- H1 at 1. reflexivity.
Qed.

Lemma digits2_bounds m :
  (2 ^ (Z.pos (digits2_pos m) - 1) <= Z.pos m < 2 ^ Z.pos (digits2_pos m))%Z.
Proof.
  induction m as [m IH | m IH |]; cbn [digits2_pos]; [ | | cbn; lia].
  - rewrite Pos2Z.inj_succ.
    replace (Z.succ (Z.pos (digits2_pos m)) - 1)%Z with (Z.succ (Z.pos (digits2_pos m) - 1)) by lia.
    rewrite !Z.pow_succ_r by lia. lia.
  - rewrite Pos2Z.inj_succ.
    replace (Z.succ (Z.pos (digits2_pos m)) - 1)%Z with (Z.succ (Z.pos (digits2_pos m) - 1)) by lia.
    rewrite !Z.pow_succ_r by lia. lia.
Qed.

Lemma iter_xO m d : Z.pos (Pos.iter xO m d) = (Z.pos m * 2 ^ Z.pos d)%Z.
Proof.
  rewrite <- Z.shiftl_mul_pow2 by lia. cbn [Z.shiftl].
  apply (Pos.iter_swap_gen _ _ Z.pos xO (Z.mul 2)). reflexivity.
Qed.

Lemma shr_fexp_canonical m e :
  bounded prec emax m e = true ->
  shr_fexp prec emax (Z.pos m) e loc_Exact
  = ({| shr_m := Z.pos m; shr_r := false; shr_s := false |}, e).
Proof.
  intros B. destruct (bounded_unpack _ _ B) as [Hc He].
  unfold shr_fexp, fexp, SpecFloat.emin, prec, emax. cbn [Zdigits2 shr_record_of_loc].
  replace (Z.max (Z.pos (digits2_pos m) + e - 53) (3 - 1024 - 53) - e)%Z with 0%Z by lia.
  reflexivity.
Qed.

(** Rounding a canonical mantissa changes nothing. *)
Lemma round_exact_canonical s m e :
  bounded prec emax m e = true ->
  binary_round_aux prec emax s (Z.pos m) e loc_Exact = S754_finite s m e.
Proof.
  intros B. unfold binary_round_aux.
  rewrite (shr_fexp_canonical _ _ B). cbn [shr_m loc_of_shr_record round_nearest_even].
  rewrite (shr_fexp_canonical _ _ B). cbn [shr_m].
  destruct (bounded_unpack _ _ B) as [_ He].
  unfold prec, emax. destruct (Z.leb_spec e (1024 - 53)); [reflexivity | lia].
Qed.

(** Nor does rounding its double at the exponent below. *)
Lemma round_exact_double s m e :
  bounded prec emax m e = true ->
  Z.pos (digits2_pos m) = 53%Z ->
  binary_round_aux prec emax s (Z.pos m~0) (e - 1) loc_Exact = S754_finite s m e.
Proof.
  intros B D. unfold binary_round_aux.
  assert (E1 : shr_fexp prec emax (Z.pos m~0) (e - 1) loc_Exact
               = ({| shr_m := Z.pos m; shr_r := false; shr_s := false |}, e)).
  { destruct (bounded_unpack _ _ B) as [Hc He].
    unfold shr_fexp, fexp, SpecFloat.emin, prec, emax.
    cbn [Zdigits2 shr_record_of_loc digits2_pos].
    rewrite Pos2Z.inj_succ, D.
    replace (Z.max (Z.succ 53 + (e - 1) - 53) (3 - 1024 - 53) - (e - 1))%Z with 1%Z by lia.
    cbn [shr iter_pos shr_1 orb]. f_equal. lia. }
  rewrite E1. cbn [shr_m loc_of_shr_record round_nearest_even].
  rewrite (shr_fexp_canonical _ _ B). cbn [shr_m].
  destruct (bounded_unpack _ _ B) as [_ He].
  unfold prec, emax. destruct (Z.leb_spec e (1024 - 53)); [reflexivity | lia].
Qed.

Lemma div_eucl_shift m k :
  (0 <= k)%Z ->
  Z.div_eucl (Z.pos m * 2 ^ k * 4503599627370496) 4503599627370496
  = (Z.pos m * 2 ^ k, 0)%Z.
Proof.
  intros Hk.
  pose proof (Z.div_eucl_eq (Z.pos m * 2 ^ k * 4503599627370496) 4503599627370496) as E.
  pose proof (Z.mod_pos_bound (Z.pos m * 2 ^ k * 4503599627370496) 4503599627370496) as Bd.
  unfold Z.modulo in Bd.
  destruct (Z.div_eucl _ _) as [q r]. cbn [fst snd] in *.
  specialize (E ltac:(lia)). specialize (Bd ltac:(lia)).
  assert (q = Z.pos m * 2 ^ k)%Z by nia. subst q.
  f_equal. lia.
Qed.

(** *** Division by one is exact *)

Lemma div_one_SF s m e :
  bounded prec emax m e = true ->
  SF64div (S754_finite s m e) (S754_finite false 4503599627370496 (-52)) = S754_finite s m e.
Proof.
  intros B. destruct (bounded_unpack _ _ B) as [Hc He].
  unfold SF64div, SFdiv, SFdiv_core_binary.
  cbn [Zdigits2].
  change (Z.pos (digits2_pos 4503599627370496)) with 53%Z.
  unfold fexp, SpecFloat.emin, prec, emax.
  destruct (Z.eq_dec (Z.pos (digits2_pos m)) 53) as [D|D];
    [destruct (Z.eq_dec e (-1074)) as [E|E] |].
  - replace (Z.min (Z.max (Z.pos (digits2_pos m) + e - (53 + -52) - 53) (3 - 1024 - 53)) (e - -52))
      with e by lia.
    replace (e - -52 - e)%Z with 52%Z by lia.
    rewrite Z.shiftl_mul_pow2 by lia.
    pose proof (div_eucl_shift m 0 ltac:(lia)) as Q.
    change (2 ^ 52)%Z with 4503599627370496%Z.
    replace (Z.pos m * 2 ^ 0 * 4503599627370496)%Z with (Z.pos m * 4503599627370496)%Z in Q by lia.
    replace (Z.pos m * 2 ^ 0)%Z with (Z.pos m) in Q by lia.
    rewrite Q. change (new_location 4503599627370496 0) with loc_Exact.
    rewrite xorb_false_r. now apply round_exact_canonical.
  - replace (Z.min (Z.max (Z.pos (digits2_pos m) + e - (53 + -52) - 53) (3 - 1024 - 53)) (e - -52))
      with (e - 1)%Z by lia.
    replace (e - -52 - (e - 1))%Z with 53%Z by lia.
    rewrite Z.shiftl_mul_pow2 by lia.
    pose proof (div_eucl_shift m 1 ltac:(lia)) as Q.
    replace (Z.pos m * 2 ^ 1 * 4503599627370496)%Z with (Z.pos m * 2 ^ 53)%Z in Q by lia.
    replace (Z.pos m * 2 ^ 1)%Z with (Z.pos m~0) in Q by lia.
    rewrite Q. change (new_location 4503599627370496 0) with loc_Exact.
    rewrite xorb_false_r. now apply round_exact_double.
  - replace (Z.min (Z.max (Z.pos (digits2_pos m) + e - (53 + -52) - 53) (3 - 1024 - 53)) (e - -52))
      with e by lia.
    replace (e - -52 - e)%Z with 52%Z by lia.
    rewrite Z.shiftl_mul_pow2 by lia.
    pose proof (div_eucl_shift m 0 ltac:(lia)) as Q.
    change (2 ^ 52)%Z with 4503599627370496%Z.
    replace (Z.pos m * 2 ^ 0 * 4503599627370496)%Z with (Z.pos m * 4503599627370496)%Z in Q by lia.
    replace (Z.pos m * 2 ^ 0)%Z with (Z.pos m) in Q by lia.
    rewrite Q. change (new_location 4503599627370496 0) with loc_Exact.
    rewrite xorb_false_r. now apply round_exact_canonical.
Qed.

Lemma div_one x : x / 1 = x.
Proof.
  apply Prim2SF_inj. rewrite div_spec, SF_one.
  pose proof (Prim2SF_valid x) as V.
  destruct (Prim2SF x) as [[] | [] | | s m e]; try reflexivity.
  now apply div_one_SF.
Qed.

(** [0 + x] is [x], except that [0 + -0] is [+0]. *)
Lemma zero_plus x : is_zero x = false -> 0 + x = x.
Proof.
  intros Z. apply Prim2SF_inj. rewrite add_spec, SF_zero.
  unfold is_zero in Z. rewrite eqb_spec in Z.
  destruct (Prim2SF x) as [[] | [] | | s m e]; try reflexivity; discriminate.
Qed.

(** *** Signs *)

Lemma round_aux_negative m e l :
  SFpos (binary_round_aux prec emax true m e l) = false.
Proof.
  unfold binary_round_aux.
  destruct (shr_fexp prec emax m e l) as [mrs' e'].
  destruct (shr_fexp prec emax _ e' loc_Exact) as [mrs'' e''].
  destruct (shr_m mrs''); [reflexivity | | reflexivity].
  now destruct (Z.leb e'' (emax - prec)).
Qed.

Lemma round_negative m e : SFpos (binary_round prec emax true m e) = false.
Proof.
  unfold binary_round. destruct (shl_align m e _) as [mz ez]. apply round_aux_negative.
Qed.

Lemma round_aux_sign_pos s m e l :
  SFpos (binary_round_aux prec emax s m e l) = true -> s = false.
Proof. destruct s; [|reflexivity]. now rewrite round_aux_negative. Qed.

(** A positive product with a positive finite factor has a positive
    other factor; likewise for a quotient. *)
Lemma mul_positive q m e :
  SFpos (SF64mul q (S754_finite false m e)) = true -> SFpos q = true.
Proof.
  unfold SF64mul, SFmul. destruct q as [[] | [] | | s mq eq]; cbn; auto.
  rewrite xorb_false_r. intros H. apply round_aux_sign_pos in H. now subst s.
Qed.

Lemma div_positive d m e :
  SFpos (SF64div d (S754_finite false m e)) = true -> SFpos d = true.
Proof.
  unfold SF64div, SFdiv. destruct d as [[] | [] | | s md ed]; cbn; auto.
  rewrite xorb_false_r.
  destruct (SFdiv_core_binary prec emax (Z.pos md) ed (Z.pos m) e) as [[mz ez] lz].
  intros H. apply round_aux_sign_pos in H. now subst s.
Qed.

Lemma div_by_infinity_not_positive d : SFpos (SF64div d (S754_infinity false)) = false.
Proof. destruct d as [[] | [] | | s md ed]; reflexivity. Qed.

(** A positive difference of two positive finite numbers: the subtrahend
    is the smaller one. *)
Lemma sub_positive_lt mb eb my ey :
  bounded prec emax mb eb = true ->
  bounded prec emax my ey = true ->
  SFpos (SF64sub (S754_finite false mb eb) (S754_finite false my ey)) = true ->
  SFltb (S754_finite false my ey) (S754_finite false mb eb) = true.
Proof.
  intros Bb By.
  destruct (bounded_unpack _ _ Bb) as [Hb _], (bounded_unpack _ _ By) as [Hy _].
  pose proof (digits2_bounds mb) as Db. pose proof (digits2_bounds my) as Dy.
  unfold SF64sub, SFsub, cond_Zopp, SFltb, SFcompare.
  destruct (Z.compare_spec ey eb) as [E | E | E].
  - subst ey. rewrite Z.min_id. unfold shl_align. rewrite Z.sub_diag. cbn [fst].
    destruct (Z.pos mb - Z.pos my)%Z eqn:S; cbn [binary_normalize].
    + discriminate.
    + intros _. fold (Pos.compare my mb).
      assert (H : (my < mb)%positive) by lia.
      rewrite (proj2 (Pos.compare_lt_iff _ _) H). reflexivity.
    + rewrite round_negative. discriminate.
  - reflexivity.
  - (* the subtrahend has the larger exponent: the difference is negative *)
    rewrite Z.min_l by lia. unfold shl_align. rewrite Z.sub_diag.
    destruct (eb - ey)%Z as [ | d | d] eqn:S; try lia. cbn [fst].
    assert (Hd : Z.pos (digits2_pos my) = 53%Z) by lia.
    rewrite Hd in Dy.
    assert (Hdb : (Z.pos (digits2_pos mb) <= 53)%Z) by lia.
    assert (Hmb : (Z.pos mb < 2 ^ 53)%Z).
    { eapply Z.lt_le_trans; [apply Db|]. apply Z.pow_le_mono_r; lia. }
    assert (Hmy : (2 ^ 53 <= Z.pos (Pos.iter xO my d))%Z).
    { rewrite iter_xO. change (2 ^ 53)%Z with (2 ^ 52 * 2 ^ 1)%Z.
      apply Z.mul_le_mono_nonneg; try lia. apply Z.pow_le_mono_r; lia. }
    destruct (Z.pos mb - Z.pos (Pos.iter xO my d))%Z eqn:S'; try lia.
    cbn [binary_normalize]. rewrite round_negative. discriminate.
Qed.

Lemma sub_positive_SF B C :
  valid_binary B = true -> valid_binary C = true ->
  SFpos B = true -> SFpos (SF64sub B C) = true -> SFltb C B = true.
Proof.
  intros VB VC PB.
  destruct B as [sb | sb | | sb mb eb]; try discriminate; destruct sb; try discriminate.
  - destruct C as [sc | sc | | sc mc ec]; try discriminate; try reflexivity.
    destruct sc; [reflexivity | discriminate].
  - destruct C as [sc | sc | | sc mc ec]; try discriminate.
    + reflexivity.
    + destruct sc; [reflexivity | discriminate].
    + destruct sc; [reflexivity |]. now apply sub_positive_lt.
Qed.

(** The sign convention: against a positive baseline [b], a positive
    percentage means that the candidate [c] is the smaller rate. *)
Lemma positive_percent_slower b c :
  (0 <? b) = true -> gt ((b - c) / b * 100) 0 = true -> lt c b = true.
Proof.
  unfold gt, lt.
  rewrite !ltb_spec, mul_spec, div_spec, sub_spec, SF_hundred, SF_zero.
  fold (SFpos (Prim2SF b)).
  fold (SFpos (SF64mul (SF64div (SF64sub (Prim2SF b) (Prim2SF c)) (Prim2SF b))
                       (S754_finite false 7036874417766400 (-46)))).
  intros PB H. apply mul_positive in H.
  pose proof (Prim2SF_valid b) as VB. pose proof (Prim2SF_valid c) as VC.
  destruct (Prim2SF b) as [sb | sb | | sb mb eb] eqn:EB; try discriminate.
  - destruct sb; try discriminate. now rewrite div_by_infinity_not_positive in H.
  - destruct sb; try discriminate. apply div_positive in H.
    now apply sub_positive_SF.
Qed.

(** *** Order *)

Lemma SFcompare_antisym x y :
  SFcompare y x = option_map CompOpp (SFcompare x y).
Proof.
  destruct x as [[] | [] | | [] mx ex], y as [[] | [] | | [] my ey]; try reflexivity;
    cbn [SFcompare option_map]; rewrite (Z.compare_antisym ex ey);
    destruct (Z.compare ex ey); cbn [CompOpp]; try reflexivity.
  all: fold (Pos.compare mx my); fold (Pos.compare my mx); rewrite (Pos.compare_antisym mx my).
  all: try rewrite CompOpp_involutive; reflexivity.
Qed.

Lemma ltb_asym x y : (x <? y) = true -> (y <? x) = false.
Proof.
  rewrite !ltb_spec. unfold SFltb. rewrite (SFcompare_antisym (Prim2SF x) (Prim2SF y)).
  now destruct (SFcompare (Prim2SF x) (Prim2SF y)) as [[] |].
Qed.

Lemma eqb_not_gt x y : (x =? y) = true -> gt x y = false.
Proof.
  unfold gt. rewrite eqb_spec, ltb_spec. unfold SFeqb, SFltb.
  rewrite (SFcompare_antisym (Prim2SF x) (Prim2SF y)).
  now destruct (SFcompare (Prim2SF x) (Prim2SF y)) as [[] |].
Qed.

Lemma ltb_leb x y : (x <? y) = true -> (x <=? y) = true.
Proof.
  rewrite ltb_spec, leb_spec. unfold SFltb, SFleb.
  now destruct (SFcompare (Prim2SF x) (Prim2SF y)) as [[] |].
Qed.

(** Two numbers of which neither is NaN nor smaller than the other
    compare as equal. *)
Lemma not_ltb_leb x y :
  is_nan x = false -> is_nan y = false ->
  (x <? y) = false -> (y <? x) = false -> (y <=? x) = true.
Proof.
  intros Nx Ny. rewrite !ltb_spec, leb_spec. unfold SFltb, SFleb.
  rewrite (SFcompare_antisym (Prim2SF x) (Prim2SF y)).
  destruct (SFcompare (Prim2SF x) (Prim2SF y)) as [[] |] eqn:E; try easy.
  exfalso.
  assert (Prim2SF x <> S754_nan) by (rewrite <- is_nan_SF; congruence).
  assert (Prim2SF y <> S754_nan) by (rewrite <- is_nan_SF; congruence).
  destruct (Prim2SF x) as [[] | [] | | [] mx ex], (Prim2SF y) as [[] | [] | | [] my ey];
    try discriminate; congruence.
Qed.

Lemma ltb_not_nan_l x y : (x <? y) = true -> is_nan x = false.
Proof.
  intros L. apply not_true_is_false. intros N. apply is_nan_SF in N.
  rewrite ltb_spec, N in L. discriminate.
Qed.

(** Below one, [Math.max(x, 1)] is one. *)
Lemma Math_max_below_one x : (x <? 1) = true -> Math_max x 1 = 1.
Proof.
  intros L. unfold Math_max. rewrite (ltb_not_nan_l _ _ L), L. reflexivity.
Qed.

(** [Math.max(x, 1)] is at least one unless [x] is NaN. *)
Lemma Math_max_one_floor x : is_nan x = false -> (1 <=? Math_max x 1) = true.
Proof.
  intros N. unfold Math_max. rewrite N. change (is_nan 1) with false. cbn [orb].
  destruct (x <? 1) eqn:L1; [reflexivity|].
  destruct (1 <? x) eqn:L2; [now apply ltb_leb|].
  destruct (get_sign x); [reflexivity|].
  now apply not_ltb_leb.
Qed.

(** *** More on NaN and the zeros *)





(** Either zero compares like +0. *)
Lemma zero_gt d t : is_zero d = true -> gt d t = gt 0 t.
Proof.
  unfold is_zero, gt. rewrite eqb_spec, !ltb_spec, SF_zero. unfold SFeqb, SFltb.
  destruct (Prim2SF d) as [[] | [] | | [] md ed]; try discriminate;
    now destruct (Prim2SF t) as [[] | [] | | [] mt et].
Qed.

(** The percentage of a rate against itself is a zero or NaN. *)
Lemma percent_self_cases x :
  is_zero ((x - x) / x * 100) = true \/ (x - x) / x * 100 = nan.
Proof.
  destruct (Prim2SF x) as [s | s | | s m e] eqn:E.
  - right. apply Prim2SF_inj. rewrite mul_spec, div_spec, sub_spec, E. now destruct s.
  - right. apply Prim2SF_inj. rewrite mul_spec, div_spec, sub_spec, E. now destruct s.
  - right. apply Prim2SF_inj. rewrite mul_spec, div_spec, sub_spec, E. reflexivity.
  - left. unfold is_zero. rewrite eqb_spec, mul_spec, div_spec, sub_spec, E, sub_self_SF.
    now destruct s.
Qed.

End NumberFacts.

(** ** Facts about the world and the comment sink *)

Module EffFacts.

Import JS Eff.

Lemma remove_first_head u l : remove_first u (u :: l) = l.
Proof. cbn. now rewrite String.eqb_refl. Qed.

(** Opening a page and closing it again leaves the world as it was. *)
Lemma open_close {R} url (w : world R) :
  snd (close_page url (snd (newPage url w))) = w.
Proof. destruct w. cbn. now rewrite String.eqb_refl. Qed.

(** The handler sees the same outcome when the bodies agree. *)
Lemma try_catch_ext {R A} (body body' : M R A) handler (w w' : world R) :
  body w = body' w' -> try_catch body handler w = try_catch body' handler w'.
Proof. unfold try_catch. now intros ->. Qed.

Section Sink.
Context {R : Type}.
Implicit Types (s : sink) (b : R) (w : world R).

Lemma postComment_outcome s b w :
  fst (postComment s b w)
  = match sink_error s (comments w) with
    | Some msg => Throw msg
    | None => Ok tt
    end.
Proof.
  unfold postComment, sink_error, upsertComment, bind, may_fail, gets, throw, ret.
  destruct (token s && _); [|reflexivity].
  destruct (listComments_fails s); [reflexivity|].
  destruct (find _ (listComments (comments w))).
  - now destruct (updateComment_fails s).
  - now destruct (createComment_fails s).
Qed.

(** The sink touches nothing but the thread. *)
Lemma postComment_frame s b w :
  let w' := snd (postComment s b w) in
  failures w' = failures w /\ server w' = server w /\ browsers w' = browsers w
  /\ open_pages w' = open_pages w /\ warnings w' = warnings w /\ output w' = output w.
Proof.
  unfold postComment, upsertComment, bind, may_fail, gets, throw, ret.
  destruct (token s && _); [|now cbn].
  destruct (listComments_fails s); [now cbn|].
  destruct (find _ (listComments (comments w))).
  - now destruct (updateComment_fails s).
  - now destruct (createComment_fails s).
Qed.

(** A sink that rejects leaves the thread as it was. *)
Lemma postComment_rejects s b w msg :
  sink_error s (comments w) = Some msg -> postComment s b w = (Throw msg, w).
Proof.
  unfold postComment, sink_error, upsertComment, bind, may_fail, gets, throw, ret.
  destruct (token s && _); [|discriminate].
  destruct (listComments_fails s); [now intros [= ->]|].
  destruct (find _ (listComments (comments w))).
  - now intros ->.
  - now intros ->.
Qed.

End Sink.

End EffFacts.

(** ** Facts about the single-baseline-file runner *)

Module MainFacts.

Import JS Eff Main.
Local Open Scope float_scope.

Lemma truthy_reads e :
  truthy e = true -> get_fps e = Ok (fps_of e) /\ get_name e = Ok (name_of e).
Proof. destruct e as [[] | |]; cbn; try discriminate; auto. Qed.

(** The row of an index at which both results are present. *)
Lemma compareAt_present perfChange prResults baseline i :
  truthy (at_index prResults i) = true ->
  truthy (at_index baseline i) = true ->
  compareAt perfChange prResults baseline i
  = let devFPS := Number (fps_of (at_index baseline i)) in
    let prFPS := Number (fps_of (at_index prResults i)) in
    let diffPercent := (devFPS - prFPS) / devFPS * 100 in
    Ok {| name := name_of (at_index prResults i);
          devFPS := Some devFPS; prFPS := prFPS;
          diffPercent := Some diffPercent;
          regression := gt diffPercent perfChange;
          arrow := Some (if gt diffPercent 0 then Down else Up) |}.
Proof.
  intros Tp Tb. unfold compareAt. rewrite Tb. cbn [negb].
  destruct (truthy_reads _ Tp) as [-> ->], (truthy_reads _ Tb) as [-> _].
  reflexivity.
Qed.

(** The row of an index at which the baseline has nothing. *)
Lemma compareAt_absent perfChange prResults baseline i :
  truthy (at_index prResults i) = true ->
  truthy (at_index baseline i) = false ->
  compareAt perfChange prResults baseline i
  = Ok {| name := name_of (at_index prResults i);
          devFPS := None; prFPS := Number (fps_of (at_index prResults i));
          diffPercent := None; regression := false; arrow := None |}.
Proof.
  intros Tp Tb. unfold compareAt. rewrite Tb. cbn [negb].
  destruct (truthy_reads _ Tp) as [-> ->]. reflexivity.
Qed.

Lemma compareAt_total perfChange prResults baseline i :
  truthy (at_index prResults i) = true ->
  exists r, compareAt perfChange prResults baseline i = Ok r.
Proof.
  intros Tp. destruct (truthy (at_index baseline i)) eqn:Tb.
  - rewrite compareAt_present by assumption. eauto.
  - rewrite compareAt_absent by assumption. eauto.
Qed.

(** The loop appends one row per index, in order. *)
Lemma compareFrom_rows perfChange prResults baseline count :
  forall i acc rows,
    compareFrom perfChange prResults baseline i count acc = Ok rows ->
    exists new,
      rows = acc ++ new /\ List.length new = count /\
      forall k r, nth_error new k = Some r ->
                  compareAt perfChange prResults baseline (i + k) = Ok r.
Proof.
  induction count as [|count IH]; intros i acc rows; cbn [compareFrom].
  - intros [= <-]. exists []. rewrite app_nil_r. repeat split. now intros [|k] r.
  - destruct (compareAt perfChange prResults baseline i) as [r0|msg] eqn:E; cbn [rbind];
      [|discriminate].
    intros H. destruct (IH _ _ _ H) as (new & -> & L & N).
    exists (r0 :: new). rewrite <- app_assoc. repeat split; [cbn; lia|].
    intros [|k] r; cbn [nth_error].
    + intros [= <-]. now rewrite Nat.add_0_r.
    + intros Hk. rewrite <- Nat.add_succ_comm. now apply N.
Qed.

Lemma compareFrom_total perfChange prResults baseline count :
  forall i acc,
    (forall k, (k < count)%nat -> truthy (at_index prResults (i + k)) = true) ->
    exists rows, compareFrom perfChange prResults baseline i count acc = Ok rows.
Proof.
  induction count as [|count IH]; intros i acc T; cbn [compareFrom]; [eauto|].
  destruct (compareAt_total perfChange prResults baseline i) as [r ->].
  { rewrite <- (Nat.add_0_r i). apply T. lia. }
  cbn [rbind]. apply IH. intros k Hk. rewrite Nat.add_succ_comm. apply T. lia.
Qed.

Lemma compareAll_rows perfChange pages prResults baseline rows :
  compareAll perfChange pages prResults baseline = Ok rows ->
  List.length rows = List.length pages /\
  forall i r, nth_error rows i = Some r ->
              compareAt perfChange prResults baseline i = Ok r.
Proof.
  unfold compareAll. intros H.
  destruct (compareFrom_rows _ _ _ _ _ _ _ H) as (new & -> & L & N).
  cbn [app]. split; [assumption|]. intros i r Hi. now apply (N i r).
Qed.

(** With every page result truthy, the comparison does not throw. *)
Lemma compareAll_total perfChange pages prResults baseline :
  List.length prResults = List.length pages ->
  Forall (fun e => truthy e = true) prResults ->
  exists rows, compareAll perfChange pages prResults baseline = Ok rows.
Proof.
  intros L F. apply compareFrom_total. intros k Hk. cbn [Nat.add].
  unfold at_index. rewrite Forall_forall in F. apply F. apply nth_In. lia.
Qed.

Lemma detect_from rows : forall b,
  fold_left (fun regressionDetected r => if regression r then true else regressionDetected)
            rows b
  = b || existsb regression rows.
Proof.
  induction rows as [|r rows IH]; intros b; cbn [fold_left existsb].
  - now rewrite orb_false_r.
  - rewrite IH. destruct (regression r), b; reflexivity.
Qed.

(** The verdict is the disjunction of the rows' flags. *)
Lemma detect_existsb rows : detect rows = existsb regression rows.
Proof. unfold detect. now rewrite detect_from. Qed.

Lemma detect_false rows :
  (forall r, In r rows -> regression r = false) -> detect rows = false.
Proof.
  intros H. rewrite detect_existsb. apply not_true_is_false. intros E.
  apply existsb_exists in E. destruct E as (r & I & E). rewrite (H r I) in E. discriminate.
Qed.

(** A row that is not flagged can be taken out without changing the
    verdict. *)
Lemma detect_drop before r after :
  regression r = false -> detect (before ++ r :: after) = detect (before ++ after).
Proof.
  intros H. rewrite !detect_existsb, !existsb_app. cbn [existsb]. now rewrite H.
Qed.

Lemma completes_publishes i pageUrl :
  completes i pageUrl = true ->
  page i pageUrl = Publishes (published i pageUrl) /\ truthy (published i pageUrl) = true.
Proof. unfold completes, published. destruct (page i pageUrl); [discriminate | auto]. Qed.

(** A page that completes adds its result and is closed again. *)
Lemma benchmarkPage_completes i pageUrl prResults w :
  completes i pageUrl = true ->
  benchmarkPage i pageUrl prResults w = (Ok (prResults ++ [published i pageUrl]), w).
Proof.
  intros C. destruct (completes_publishes _ _ C) as [P T].
  unfold benchmarkPage, bind, goto, waitForResult, newPage, close_page, modify.
  rewrite P, T. unfold ret. destruct w. cbn. now rewrite String.eqb_refl.
Qed.

Lemma runPages_completes i pages :
  Forall (fun u => completes i u = true) pages ->
  forall prResults w,
    runPages i pages prResults w = (Ok (prResults ++ map (published i) pages), w).
Proof.
  induction 1 as [|u pages C _ IH]; intros prResults w; cbn [runPages map].
  - unfold ret. now rewrite app_nil_r.
  - unfold bind. rewrite (benchmarkPage_completes _ _ _ _ C), IH, <- app_assoc. reflexivity.
Qed.

(** What the comparison, the comment and the final signal leave behind,
    whatever the sink does. *)
Lemma compareAndReport_caught i pages prResults baseline rows w :
  parseBaseline (baseline_file i) = Ok baseline ->
  compareAll (perfChange i) pages prResults baseline = Ok rows ->
  exists w',
    try_catch (compareAndReport i pages prResults) (fun msg => setFailed msg) w = (Ok tt, w') /\
    failures w'
    = failures w ++
      match sink_error (comment_sink i) (comments w) with
      | Some msg => [msg]
      | None => if detect rows then ["Performance regression detected!"%string] else []
      end /\
    server w' = server w /\ browsers w' = browsers w /\ open_pages w' = open_pages w /\
    output w' = output w.
Proof.
  intros B C. unfold try_catch, compareAndReport, bind, lift. rewrite B, C.
  pose proof (EffFacts.postComment_outcome (comment_sink i)
                {| table := rows; regressionLine := detect rows; threshold := perfChange i |} w)
    as O.
  pose proof (EffFacts.postComment_frame (comment_sink i)
                {| table := rows; regressionLine := detect rows; threshold := perfChange i |} w)
    as (F1 & F2 & F3 & F4 & _ & F6).
  destruct (postComment _ _ w) as [r w1]. cbn [fst snd] in *. subst r.
  destruct (sink_error (comment_sink i) (comments w)) as [msg|].
  - eexists. split; [reflexivity|]. cbn. rewrite F1. auto.
  - destruct (detect rows).
    + eexists. split; [reflexivity|]. cbn. rewrite F1. auto.
    + eexists. split; [reflexivity|]. cbn. rewrite F1, app_nil_r. auto.
Qed.

(** With every page completing, the statements before the comparison
    come down to a listening server and a written results file. *)
Lemma tryBlock_completes i pages cs :
  dist_exists i = true -> pixi_exists i = true ->
  benchmark_files i = Ok pages ->
  Forall (fun u => completes i u = true) pages ->
  tryBlock i (initial cs)
  = compareAndReport i pages (map (published i) pages)
      {| server := true; browsers := 0; open_pages := []; failures := [];
         warnings := []; output := Some (map (published i) pages); comments := cs |}.
Proof.
  intros D P F C. unfold tryBlock. rewrite D, P. cbn [negb].
  unfold bind at 1. cbn [set_server modify initial].
  unfold bind at 1. unfold lift at 1. rewrite F.
  unfold bind at 1. cbn [launch modify].
  unfold bind at 1. rewrite (runPages_completes _ _ C). cbn [app].
  reflexivity.
Qed.

(** A run in which every page completes and the baseline parses. *)
Lemma run_completes i pages baseline cs :
  dist_exists i = true -> pixi_exists i = true ->
  benchmark_files i = Ok pages ->
  Forall (fun u => completes i u = true) pages ->
  parseBaseline (baseline_file i) = Ok baseline ->
  exists rows w,
    compareAll (perfChange i) pages (map (published i) pages) baseline = Ok rows /\
    run i (initial cs) = (Ok tt, w) /\
    failures w
    = match sink_error (comment_sink i) cs with
      | Some msg => [msg]
      | None => if detect rows then ["Performance regression detected!"%string] else []
      end /\
    server w = false /\ browsers w = 0%nat /\ open_pages w = [] /\
    output w = Some (map (published i) pages).
Proof.
  intros D P F C B.
  destruct (compareAll_total (perfChange i) pages (map (published i) pages) baseline)
    as [rows R].
  { now rewrite length_map. }
  { rewrite Forall_map. eapply Forall_impl; [|exact C].
    intros u Hu. now destruct (completes_publishes _ _ Hu). }
  exists rows.
  destruct (compareAndReport_caught i pages (map (published i) pages) baseline rows
              {| server := true; browsers := 0; open_pages := []; failures := [];
                 warnings := []; output := Some (map (published i) pages); comments := cs |}
              B R)
    as (w' & E & Fl & Sv & Br & Op & Out).
  cbn [server browsers open_pages failures output comments app] in Fl, Sv, Br, Op, Out.
  unfold run, try_finally.
  rewrite (EffFacts.try_catch_ext _ _ _ _ _ (tryBlock_completes i pages cs D P F C)), E.
  unfold close_server, bind, gets. rewrite Sv. cbn [set_server modify].
  eexists. repeat split; cbn; assumption.
Qed.

End MainFacts.

(** ** Facts about the averaged-repeats runner *)

Module IsolatedFacts.

Import JS Eff Isolated.
Local Open Scope float_scope.

Lemma fold_plus samples : forall a,
  fold_left (fun a b => plus a b) samples a = fold_left add (map Number samples) a.
Proof. induction samples as [|v samples IH]; intros a; cbn; [reflexivity | apply IH]. Qed.

Lemma fold_deviations samples mean : forall s,
  fold_left (fun s n => s + sq (minus n mean)) samples s
  = fold_left add (map (fun x => sq (x - mean)) (map Number samples)) s.
Proof. induction samples as [|v samples IH]; intros s; cbn; [reflexivity | apply IH]. Qed.

(** The two [reduce] calls compute the average and the population standard
    deviation of the converted samples. *)
Lemma aggregate_spec sampleFPS :
  avg (aggregate sampleFPS) = Spec.average (map Number sampleFPS) /\
  stddev (aggregate sampleFPS) = Spec.population_stddev (map Number sampleFPS) /\
  samples (aggregate sampleFPS) = sampleFPS.
Proof.
  unfold aggregate, Spec.population_stddev, Spec.average, Spec.sum, Math_sqrt.
  cbn [avg stddev samples]. rewrite fold_plus, fold_deviations, length_map. auto.
Qed.

(** One sample. *)
Lemma aggregate_single_finite x :
  is_finite x = true ->
  stddev (aggregate [Num x]) = 0 /\ (avg (aggregate [Num x]) =? x) = true.
Proof.
  intros F. unfold aggregate. cbn [avg stddev fold_left List.length].
  unfold JS.plus, JS.minus, Math_sqrt, sq. cbn [Number].
  change (of_length 1) with 1. rewrite !NumberFacts.div_one.
  destruct (is_zero x) eqn:Z.
  - (* a zero of either sign *)
    destruct (NumberFacts.finite_cases x F) as [[s E] | (s & m & e & E)].
    + assert (X : x = SF2Prim (S754_zero s)) by (rewrite <- E; symmetry; apply SF2Prim_Prim2SF).
      destruct s; rewrite X; split; reflexivity.
    + unfold is_zero in Z. rewrite eqb_spec, E in Z. destruct s; discriminate.
  - rewrite (NumberFacts.zero_plus x Z). split.
    + rewrite (NumberFacts.sub_self x F). reflexivity.
    + rewrite eqb_spec. destruct (NumberFacts.finite_nonzero_shape x F Z) as (s & m & e & ->).
      apply NumberFacts.SFeqb_refl_finite.
Qed.

(** A repeat whose page completes adds its sample and leaves no browser
    behind. *)
Lemma repeat_completes inp url sampleFPS i w :
  completes inp url i = true ->
  open_pages w = [] ->
  try_finally (runSingleBenchmark inp url sampleFPS i)
              (try_catch close_browser (fun _ => throw "Failed to close browser"))
              (snd (launch w))
  = (Ok (sampleFPS ++ [fps_of (published inp url i)]), w).
Proof.
  unfold completes, published. intros C O.
  unfold try_finally, runSingleBenchmark, bind, newPage, modify.
  destruct (page inp url i) as [msg|e]; [discriminate|]. rewrite C.
  destruct (MainFacts.truthy_reads e C) as [-> _].
  unfold lift, close_page, try_catch, close_browser, modify, ret.
  destruct w. cbn in *. now subst.
Qed.

Lemma repeatFrom_completes inp url count : forall i sampleFPS w,
  (forall k, (k < count)%nat -> completes inp url (i + k) = true) ->
  open_pages w = [] ->
  repeatFrom inp url i count sampleFPS w
  = (Ok (sampleFPS ++ map (fun k => fps_of (published inp url k)) (seq i count)), w).
Proof.
  induction count as [|count IH]; intros i sampleFPS w C O; cbn [repeatFrom seq map].
  - unfold ret. now rewrite app_nil_r.
  - unfold bind at 1. cbn [launch modify].
    unfold bind at 1.
    pose proof (repeat_completes inp url sampleFPS i w) as E. cbn [launch modify snd] in E.
    rewrite E; [|rewrite <- (Nat.add_0_r i); apply C; lia | assumption].
    rewrite IH; [now rewrite <- app_assoc | | assumption].
    intros k Hk. rewrite Nat.add_succ_comm. apply C. lia.
Qed.

(** Whatever the pages do, a returned sample array has grown by one sample
    per repeat. *)
Lemma repeatFrom_length inp url count : forall i sampleFPS w r w',
  repeatFrom inp url i count sampleFPS w = (Ok r, w') ->
  List.length r = (List.length sampleFPS + count)%nat.
Proof.
  induction count as [|count IH]; intros i sampleFPS w r w'; cbn [repeatFrom].
  - unfold ret. intros [= <- _]. lia.
  - unfold bind at 1. cbn [launch modify]. unfold bind at 1.
    destruct (try_finally _ _ _) as [[s1|msg] w1] eqn:E; [|discriminate].
    intros H. apply IH in H. rewrite H.
    enough (List.length s1 = S (List.length sampleFPS)) by lia.
    revert E. unfold try_finally, runSingleBenchmark, bind, newPage, modify.
    destruct (page inp url i) as [msg|e]; [unfold throw, try_catch, close_browser, modify; discriminate|].
    destruct (truthy e); [|unfold throw, try_catch, close_browser, modify; discriminate].
    unfold lift. destruct (get_fps e) as [f|msg];
      unfold throw, try_catch, close_browser, close_page, modify, ret; [|discriminate].
    intros [= <- _]. rewrite length_app. cbn. lia.
Qed.

(** A measurement that returns has taken [REPEATS] samples and aggregated
    them. *)
Lemma runIsolatedBenchmark_returns inp url w a w' :
  runIsolatedBenchmark inp url w = (Ok a, w') ->
  List.length (samples a) = REPEATS /\ a = aggregate (samples a).
Proof.
  unfold runIsolatedBenchmark, bind.
  destruct (repeatFrom inp url 0 REPEATS [] w) as [[s|msg] w1] eqn:E; [|discriminate].
  unfold ret. intros [= <- _]. apply repeatFrom_length in E.
  destruct (aggregate_spec s) as (_ & _ & ->). auto.
Qed.

Lemma runSingleBenchmark_browsers inp url sampleFPS i w :
  browsers (snd (runSingleBenchmark inp url sampleFPS i w)) = browsers w.
Proof.
  unfold runSingleBenchmark, bind, newPage, modify.
  destruct (page inp url i) as [msg|e]; [reflexivity|].
  destruct (truthy e); [|reflexivity].
  unfold lift. now destruct (get_fps e).
Qed.

Lemma repeatFrom_step inp url i count sampleFPS w :
  repeatFrom inp url i (S count) sampleFPS w
  = let (r, w1) :=
      try_finally (runSingleBenchmark inp url sampleFPS i)
                  (try_catch close_browser (fun _ => throw "Failed to close browser"))
                  (snd (launch w)) in
    match r with
    | Ok sampleFPS' => repeatFrom inp url (S i) count sampleFPS' w1
    | Throw msg => (Throw msg, w1)
    end.
Proof.
  cbn [repeatFrom]. unfold bind at 1. cbn [launch modify snd]. unfold bind at 1.
  now destruct (try_finally _ _ _) as [[] ?].
Qed.

(** Each repeat closes its browser, and with it its page, whether the
    measurement returns or throws. *)
Lemma repeatFrom_disposes inp url count : forall i sampleFPS w,
  open_pages w = [] ->
  open_pages (snd (repeatFrom inp url i count sampleFPS w)) = [] /\
  browsers (snd (repeatFrom inp url i count sampleFPS w)) = browsers w.
Proof.
  induction count as [|count IH]; intros i sampleFPS w O.
  - now cbn.
  - rewrite repeatFrom_step.
    destruct (try_finally _ _ _) as [r w1] eqn:E.
    assert (D : open_pages w1 = [] /\ browsers w1 = browsers w).
    { revert E. unfold try_finally, try_catch, close_browser, modify.
      pose proof (runSingleBenchmark_browsers inp url sampleFPS i (snd (launch w))) as Bw.
      destruct (runSingleBenchmark _ _ _ _ _) as [r0 w0]. intros [= _ <-].
      cbn in *. now rewrite Bw. }
    destruct D as [D1 D2].
    destruct r as [s1|msg]; [|now cbn].
    destruct (IH (S i) s1 w1 D1) as [I1 I2]. now rewrite I1, I2.
Qed.

Lemma compare_scaled_row perfChange name devResult localResult :
  Spec.scaled_row perfChange (compare perfChange name devResult localResult).
Proof. split; reflexivity. Qed.

Lemma runScenarios_step inp s rest comparisons w :
  runScenarios inp (s :: rest) comparisons w
  = let (r1, w1) := runIsolatedBenchmark inp (devURL s) w in
    match r1 with
    | Throw msg => (Throw msg, w1)
    | Ok devResult =>
        let (r2, w2) := runIsolatedBenchmark inp (localURL s) w1 in
        match r2 with
        | Throw msg => (Throw msg, w2)
        | Ok localResult =>
            runScenarios inp rest
              (comparisons ++
               [compare (perfChange inp) (scenario_name s) devResult localResult]) w2
        end
    end.
Proof.
  cbn [runScenarios]. unfold bind at 1.
  destruct (runIsolatedBenchmark inp (devURL s) w) as [[d|msg] w1]; [|reflexivity].
  unfold bind at 1.
  now destruct (runIsolatedBenchmark inp (localURL s) w1) as [[l|msg] w2].
Qed.

(** Every row the scenario loop pushes is a row of the FPS-scaled
    comparison, over two aggregates of [REPEATS] samples each. *)
Lemma runScenarios_rows inp indexFiles : forall comparisons w rows w',
  runScenarios inp indexFiles comparisons w = (Ok rows, w') ->
  exists new,
    rows = comparisons ++ new /\
    List.length new = List.length indexFiles /\
    Forall (fun c => Spec.scaled_row (perfChange inp) c /\
                     arrow c = (if gt (diffPercent c) 0 then Down else Up) /\
                     List.length (samples (devResult c)) = REPEATS /\
                     List.length (samples (localResult c)) = REPEATS /\
                     devResult c = aggregate (samples (devResult c)) /\
                     localResult c = aggregate (samples (localResult c))) new.
Proof.
  induction indexFiles as [|s rest IH]; intros comparisons w rows w'.
  - cbn [runScenarios]. unfold ret. intros [= <- _]. exists []. now rewrite app_nil_r.
  - rewrite runScenarios_step.
    destruct (runIsolatedBenchmark inp (devURL s) w) as [[d|msg] w1] eqn:E1; [|discriminate].
    destruct (runIsolatedBenchmark inp (localURL s) w1) as [[l|msg] w2] eqn:E2; [|discriminate].
    intros H. destruct (IH _ _ _ _ H) as (new & -> & L & F).
    destruct (runIsolatedBenchmark_returns _ _ _ _ _ E1) as [L1 A1].
    destruct (runIsolatedBenchmark_returns _ _ _ _ _ E2) as [L2 A2].
    exists (compare (perfChange inp) (scenario_name s) d l :: new).
    rewrite <- app_assoc. repeat split; [cbn; lia|].
    constructor; [|assumption]. cbn [devResult localResult arrow diffPercent compare].
    repeat split; assumption.
Qed.

Lemma runIsolatedBenchmark_completes inp url w :
  (forall k, (k < REPEATS)%nat -> completes inp url k = true) ->
  open_pages w = [] ->
  runIsolatedBenchmark inp url w = (Ok (aggregate (samples_of inp url)), w).
Proof.
  intros C O. unfold runIsolatedBenchmark, bind.
  rewrite (repeatFrom_completes inp url REPEATS 0 [] w C O). reflexivity.
Qed.

(** With every scenario completing, the loop returns one row per
    scenario and leaves the world as it found it. *)
Lemma runScenarios_completes inp indexFiles : forall comparisons w,
  Forall (scenario_completes inp) indexFiles ->
  open_pages w = [] ->
  runScenarios inp indexFiles comparisons w
  = (Ok (comparisons ++
         map (fun s => compare (perfChange inp) (scenario_name s)
                         (aggregate (samples_of inp (devURL s)))
                         (aggregate (samples_of inp (localURL s)))) indexFiles), w).
Proof.
  induction indexFiles as [|s rest IH]; intros comparisons w F O.
  - cbn. unfold ret. now rewrite app_nil_r.
  - inversion F as [|? ? Cs Fr]; subst. rewrite runScenarios_step.
    rewrite (runIsolatedBenchmark_completes inp (devURL s) w) by (first [assumption | intros; now apply Cs]).
    rewrite (runIsolatedBenchmark_completes inp (localURL s) w) by (first [assumption | intros; now apply Cs]).
    rewrite (IH _ _ Fr O). cbn [map]. now rewrite <- app_assoc.
Qed.

Lemma flagged_from rows : forall b,
  fold_left (fun regressionDetected r => if regression r then true else regressionDetected)
            rows b
  = b || existsb regression rows.
Proof.
  induction rows as [|r rows IH]; intros b; cbn [fold_left existsb].
  - now rewrite orb_false_r.
  - rewrite IH. destruct (regression r), b; reflexivity.
Qed.

Lemma flagged_existsb rows : detect rows = existsb regression rows.
Proof. unfold detect. now rewrite flagged_from. Qed.

Lemma flagged_false rows :
  (forall r, In r rows -> regression r = false) -> detect rows = false.
Proof.
  intros H. rewrite flagged_existsb. apply not_true_is_false. intros E.
  apply existsb_exists in E. destruct E as (r & I & E). rewrite (H r I) in E. discriminate.
Qed.

(** What the comment and the final signal leave behind, whatever the sink
    does. *)
Lemma report_caught inp comparisons w :
  exists w',
    try_catch (report inp comparisons) (fun msg => setFailed msg) w = (Ok tt, w') /\
    failures w'
    = failures w ++
      match sink_error (comment_sink inp) (comments w) with
      | Some msg => [msg]
      | None => if detect comparisons
                then ["Performance regression slower than dev."%string] else []
      end /\
    server w' = server w /\ browsers w' = browsers w /\ open_pages w' = open_pages w.
Proof.
  unfold try_catch, report, bind.
  pose proof (EffFacts.postComment_outcome (comment_sink inp)
                {| table := comparisons; regressionLine := detect comparisons;
                   threshold := perfChange inp |} w) as O.
  pose proof (EffFacts.postComment_frame (comment_sink inp)
                {| table := comparisons; regressionLine := detect comparisons;
                   threshold := perfChange inp |} w) as (F1 & F2 & F3 & F4 & _ & _).
  destruct (postComment _ _ w) as [r w1]. cbn [fst snd] in *. subst r.
  destruct (sink_error (comment_sink inp) (comments w)) as [msg|].
  - eexists. split; [reflexivity|]. cbn. rewrite F1. auto.
  - destruct (detect comparisons).
    + eexists. split; [reflexivity|]. cbn. rewrite F1. auto.
    + eexists. split; [reflexivity|]. cbn. rewrite F1, app_nil_r. auto.
Qed.

End IsolatedFacts.

(** ** Facts about the page loops: what stays open *)

Module TeardownFacts.

Import JS Eff.

(** In the runner without a per-page [finally], a page whose navigation or
    wait throws is still open when the error leaves the loop body. *)
Lemma Main_benchmarkPage_throws i pageUrl prResults w msg w' :
  Main.benchmarkPage i pageUrl prResults w = (Throw msg, w') ->
  open_pages w' = pageUrl :: open_pages w /\ browsers w' = browsers w.
Proof.
  unfold Main.benchmarkPage, bind, Main.goto, Main.waitForResult, newPage, close_page, modify.
  destruct (Main.page i pageUrl) as [m|e]; unfold throw, ret.
  - intros [= _ <-]. now cbn.
  - destruct (truthy e); [discriminate|]. intros [= _ <-]. now cbn.
Qed.

(** With the per-page [finally], the page is closed on every exit path:
    the world that comes out of the loop body, with a result or with an
    error, has the pages it had before. *)
Lemma Guarded_benchmarkPage_disposes i pageUrl prResults w :
  open_pages (snd (Guarded.benchmarkPage i pageUrl prResults w)) = open_pages w /\
  browsers (snd (Guarded.benchmarkPage i pageUrl prResults w)) = browsers w.
Proof.
  unfold Guarded.benchmarkPage, bind, try_finally, try_catch, Main.goto, Main.waitForResult,
    newPage, close_page, setFailed, modify.
  destruct (Main.page i pageUrl) as [m|e]; unfold throw, ret; cbn.
  - now rewrite String.eqb_refl.
  - destruct (truthy e); cbn; now rewrite String.eqb_refl.
Qed.

Lemma Guarded_runPages_disposes i pages : forall prResults w,
  open_pages (snd (Guarded.runPages i pages prResults w)) = open_pages w /\
  browsers (snd (Guarded.runPages i pages prResults w)) = browsers w.
Proof.
  induction pages as [|u pages IH]; intros prResults w; cbn [Guarded.runPages]; [now cbn|].
  unfold bind.
  destruct (Guarded_benchmarkPage_disposes i u prResults w) as [O B].
  destruct (Guarded.benchmarkPage i u prResults w) as [[r|msg] w1]; cbn [snd] in *.
  - destruct (IH r w1) as [O' B']. now rewrite O', B'.
  - auto.
Qed.

(** The comparison, the comment and the final signal open and close
    nothing. *)
Lemma compareAndReport_frame i pages prResults w :
  open_pages (snd (Main.compareAndReport i pages prResults w)) = open_pages w /\
  browsers (snd (Main.compareAndReport i pages prResults w)) = browsers w /\
  server (snd (Main.compareAndReport i pages prResults w)) = server w.
Proof.
  unfold Main.compareAndReport, bind, lift.
  destruct (Main.parseBaseline _) as [bl|msg]; [|now cbn].
  destruct (Main.compareAll _ _ _ _) as [rows|msg]; [|now cbn].
  match goal with |- context [postComment ?s ?b w] =>
    pose proof (EffFacts.postComment_frame s b w) as (_ & F2 & F3 & F4 & _);
    destruct (postComment s b w) as [[[]|msg] w1]
  end; cbn [snd] in *; [|auto].
  destruct (Main.detect rows); cbn; auto.
Qed.

(** The guarded runner ends with no page, no browser and no server left,
    whatever the pages and the sink do. *)
Lemma Guarded_run_disposes i cs :
  let w := snd (Guarded.run i (initial cs)) in
  open_pages w = [] /\ browsers w = 0 /\ server w = false.
Proof.
  assert (Inv : forall w1, (browsers w1 <= 1)%nat -> (browsers w1 = 0 -> open_pages w1 = []) ->
                           let w := snd (Guarded.teardown w1) in
                           open_pages w = [] /\ browsers w = 0 /\ server w = false).
  { intros w1 B O. unfold Guarded.teardown, bind, gets, try_catch, close_browser, close_server,
      set_server, modify, bind, gets, ret.
    destruct (browsers w1) as [|[|n]] eqn:E; [ | | lia].
    - destruct (server w1) eqn:S; cbn; rewrite ?E, ?S; auto.
    - destruct (server w1) eqn:S; cbn; rewrite ?E, ?S; auto. }
  assert (Step : forall (r : result unit) (w1 : world Main.body),
             (browsers w1 <= 1)%nat -> (browsers w1 = 0 -> open_pages w1 = []) ->
             let w := snd (match r with Ok a => (Ok a, w1) | Throw msg => setFailed msg w1 end) in
             (browsers w <= 1)%nat /\ (browsers w = 0 -> open_pages w = [])).
  { intros [[]|msg] w1 B O; cbn; auto. }
  unfold Guarded.run, try_finally, try_catch.
  destruct (Guarded.tryBlock i (initial cs)) as [r w1] eqn:M.
  assert (I1 : (browsers w1 <= 1)%nat /\ (browsers w1 = 0 -> open_pages w1 = [])).
  { revert M. unfold Guarded.tryBlock.
    destruct (Main.dist_exists i); cbn [negb];
      [|unfold throw; intros [= _ <-]; cbn; split; [lia | auto]].
    destruct (Main.pixi_exists i); cbn [negb]; [|intros [= _ <-]; cbn; split; [lia | auto]].
    unfold bind at 1. cbn [set_server modify initial].
    unfold bind at 1. unfold lift at 1.
    destruct (Main.benchmark_files i) as [pages|msg];
      [|intros [= _ <-]; cbn; split; [lia | auto]].
    unfold bind at 1. cbn [launch modify].
    unfold bind at 1.
    match goal with |- context [Guarded.runPages i pages [] ?w0] =>
      destruct (Guarded_runPages_disposes i pages [] w0) as [O B];
      destruct (Guarded.runPages i pages [] w0) as [[prs|msg] w2]
    end; cbn [snd open_pages browsers] in O, B.
    - unfold bind at 1. cbn [writeFile modify].
      match goal with |- context [Main.compareAndReport i pages prs ?w0] =>
        destruct (compareAndReport_frame i pages prs w0) as (O' & B' & _);
        destruct (Main.compareAndReport i pages prs w0) as [r' w3]
      end; cbn [snd open_pages browsers] in O', B'.
      intros [= _ <-]. rewrite O', B', O, B. cbn. split; [lia | discriminate].
    - intros [= _ <-]. rewrite O, B. cbn. split; [lia | discriminate]. }
  destruct I1 as [B1 O1].
  destruct (Step r w1 B1 O1) as [B2 O2].
  destruct (match r with Ok a => (Ok a, w1) | Throw msg => setFailed msg w1 end) as [r2 w2].
  cbn [snd] in B2, O2.
  pose proof (Inv w2 B2 O2) as I. cbn zeta in I.
  now destruct (Guarded.teardown w2) as [[[]|msg] w3].
Qed.

End TeardownFacts.

(** ** Facts about the grouping runner *)

Module DevLocalFacts.

Import JS DevLocal.
Local Open Scope float_scope.

(** A group with a side missing gives a row without a difference. *)
Lemma compareGroup_one_sided perfChange name v :
  dev v = None \/ local v = None ->
  compareGroup perfChange (name, v)
  = {| DevLocal.name := name; devFPS := dev v; localFPS := local v; diffPercent := None;
       regression := false; arrow := None |}.
Proof.
  unfold compareGroup. destruct (dev v), (local v); intros [H|H]; try discriminate; reflexivity.
Qed.

Lemma compareGroups_from perfChange grouped : forall tableRows regressionDetected,
  fold_left
    (fun (acc : list row * bool) g =>
       let (tableRows, regressionDetected) := acc in
       let r := compareGroup perfChange g in
       (tableRows ++ [r], if regression r then true else regressionDetected))
    grouped (tableRows, regressionDetected)
  = (tableRows ++ map (compareGroup perfChange) grouped,
     regressionDetected || existsb regression (map (compareGroup perfChange) grouped)).
Proof.
  induction grouped as [|g grouped IH]; intros tableRows regressionDetected;
    cbn [fold_left map existsb].
  - now rewrite app_nil_r, orb_false_r.
  - rewrite IH, <- app_assoc. f_equal.
    destruct (regression (compareGroup perfChange g)), regressionDetected; reflexivity.
Qed.

(** One row per group, in the order of the groups, and a verdict that is
    the disjunction of the rows' flags. *)
Lemma compareGroups_spec perfChange grouped :
  compareGroups perfChange grouped
  = (map (compareGroup perfChange) grouped,
     existsb regression (map (compareGroup perfChange) grouped)).
Proof. unfold compareGroups. now rewrite compareGroups_from. Qed.

Lemma key_eqb_eq a b : key_eqb a b = true <-> a = b.
Proof.
  destruct a as [x|], b as [y|]; cbn; try (split; congruence).
  rewrite String.eqb_eq. split; congruence.
Qed.

Lemma store_other_side k which kk w fps grouped :
  (kk = k -> w = which) ->
  (forall v, In (k, v) grouped -> other_side which v = None) ->
  forall v, In (k, v) (store kk w fps grouped) -> other_side which v = None.
Proof.
  intros W. induction grouped as [|[k0 v0] rest IH]; intros J v; cbn [store].
  - intros [[= <- <-] | []]. rewrite (W eq_refl). now destruct which.
  - destruct (key_eqb k0 kk) eqn:E.
    + apply key_eqb_eq in E. subst k0. intros [[= -> <-] | I].
      * rewrite (W eq_refl). specialize (J v0 (or_introl eq_refl)).
        destruct which; exact J.
      * apply J. now right.
    + intros [[= -> <-] | I].
      * apply J. now left.
      * apply IH; [|assumption]. intros v1 I1. apply J. now right.
Qed.

(** A name that only one variant reports has a group with the other side
    missing. *)
Lemma group_one_sided k which rawResults :
  (forall r, In r rawResults -> raw_name r = k -> raw_variant r = which) ->
  forall v, In (k, v) (group rawResults) -> other_side which v = None.
Proof.
  unfold group. intros H.
  assert (G : forall grouped,
             (forall v, In (k, v) grouped -> other_side which v = None) ->
             forall v,
               In (k, v) (fold_left (fun grouped r =>
                                       store (raw_name r) (raw_variant r)
                                             (Number (raw_fps r)) grouped)
                                    rawResults grouped) ->
               other_side which v = None).
  { induction rawResults as [|r rest IH]; intros grouped J; cbn [fold_left]; [exact J|].
    apply IH.
    - intros r' I. apply H. now right.
    - apply store_other_side; [|exact J]. apply H. now left. }
  apply G. intros v [].
Qed.

End DevLocalFacts.

(** ** Facts about the conversion of the [perf-change] input *)

Module InputFacts.

Import JS Input.
Local Open Scope string_scope.

Lemma not_numeric_nan s : not_numeric s = true -> StringToNumber s = nan.
Proof.
  unfold not_numeric, StringToNumber. cbv zeta.
  destruct (String.eqb (trim s) ""); [discriminate|].
  now destruct (StrNumericLiteral (trim s)).
Qed.

Lemma blank_trim s : blank s = true -> trim s = "".
Proof.
  unfold blank, trim. intros B. apply String.eqb_eq in B. now rewrite B.
Qed.

Lemma blank_zero s : blank s = true -> StringToNumber (trim s) = 0%float.
Proof. intros B. now rewrite (blank_trim s B). Qed.

(** No white space character starts with a visible ASCII character. *)
Lemma skip_printable c r : printable c = true -> skipWhiteSpaceChar (String c r) = None.
Proof.
  intros P. destruct c as [[] [] [] [] [] [] [] []];
    vm_compute in P; try discriminate P; reflexivity.
Qed.

Lemma trimStart_printable c r : printable c = true -> trimStart (String c r) = String c r.
Proof.
  intros P. unfold trimStart. cbn [String.length trimStart_from].
  now rewrite (skip_printable c r P).
Qed.

Lemma trimEnd_printable c r :
  printable c = true -> trimEnd (String c r) = String c (trimEnd r).
Proof.
  intros P. cbn [trimEnd]. unfold blank. now rewrite (trimStart_printable c r P).
Qed.

Lemma trim_printable c r : printable c = true -> trim (String c r) = String c (trimEnd r).
Proof.
  intros P. unfold trim. now rewrite (trimStart_printable c r P), (trimEnd_printable c r P).
Qed.

(** What starts with a character that opens no literal is no literal. *)
Lemma literal_start c r :
  printable c = true -> opens_literal c = false -> StrNumericLiteral (String c r) = None.
Proof.
  intros P O. destruct r as [|a r]; destruct c as [[] [] [] [] [] [] [] []];
    vm_compute in P; try discriminate P; vm_compute in O; try discriminate O; reflexivity.
Qed.

Lemma starts_not_numeric val c r :
  trimStart val = String c r -> printable c = true -> opens_literal c = false ->
  not_numeric (getInput (Some val)) = true.
Proof.
  intros T P O. unfold getInput, trim at 1. rewrite T, (trimEnd_printable c r P).
  unfold not_numeric. cbv zeta. rewrite (trim_printable c _ P), (literal_start c _ P O).
  reflexivity.
Qed.

Local Open Scope Z_scope.

Lemma occurs_app c s t : occurs c (s ++ t) = occurs c s || occurs c t.
Proof.
  induction s as [|a s IH]; [reflexivity|]. cbn [append occurs]. now rewrite IH, orb_assoc.
Qed.

Lemma after_app p : forall s r, after p s = Some r -> s = p ++ r.
Proof.
  induction p as [|a p IH]; intros s r; cbn [after].
  - now intros [= ->].
  - destruct s as [|b s]; [discriminate|].
    destruct (Ascii.eqb a b) eqn:E; [|discriminate].
    apply Ascii.eqb_eq in E. subst b. intros H. cbn [append]. f_equal. now apply IH.
Qed.

(** The white space characters hold no visible ASCII character. *)
Lemma white_space_invisible c ws :
  In ws StrWhiteSpaceChar -> printable c = true -> occurs c ws = false.
Proof.
  intros I P.
  assert (F : forallb (fun ws => negb (occurs c ws)) StrWhiteSpaceChar = true).
  { destruct c as [[] [] [] [] [] [] [] []];
      vm_compute in P; try discriminate P; reflexivity. }
  rewrite forallb_forall in F. specialize (F ws I). now destruct (occurs c ws).
Qed.

Lemma skip_keeps c s r :
  skipWhiteSpaceChar s = Some r -> printable c = true -> occurs c s = occurs c r.
Proof.
  unfold skipWhiteSpaceChar. intros H P.
  assert (G : forall l, (forall ws, In ws l -> In ws StrWhiteSpaceChar) ->
              fold_right (fun ws found =>
                            match after ws s with Some r => Some r | None => found end)
                         None l = Some r ->
              occurs c s = occurs c r).
  { induction l as [|ws l IH]; cbn [fold_right]; [discriminate|]. intros Sub.
    destruct (after ws s) as [r0|] eqn:A.
    - intros [= ->]. rewrite (after_app _ _ _ A), occurs_app.
      now rewrite (white_space_invisible c ws (Sub ws (or_introl eq_refl)) P).
    - apply IH. intros ws' I. apply Sub. now right. }
  exact (G StrWhiteSpaceChar (fun ws I => I) H).
Qed.

(** Trimming takes no visible character away. *)
Lemma trimStart_from_keeps c n : forall s,
  printable c = true -> occurs c (trimStart_from n s) = occurs c s.
Proof.
  induction n as [|n IH]; intros s P; [reflexivity|]. cbn [trimStart_from].
  destruct (skipWhiteSpaceChar s) as [r|] eqn:E; [|reflexivity].
  now rewrite (IH r P), (skip_keeps c s r E P).
Qed.

Lemma trimEnd_keeps c s : printable c = true -> occurs c (trimEnd s) = occurs c s.
Proof.
  intros P. induction s as [|a s IH]; [reflexivity|]. cbn [trimEnd].
  destruct (blank (String a s)) eqn:B.
  - unfold blank in B. apply String.eqb_eq in B.
    pose proof (trimStart_from_keeps c (String.length (String a s)) (String a s) P) as K.
    fold (trimStart (String a s)) in K. now rewrite B in K.
  - cbn [occurs]. now rewrite IH.
Qed.

Lemma trim_keeps c s : printable c = true -> occurs c (trim s) = occurs c s.
Proof.
  intros P. unfold trim. rewrite (trimEnd_keeps c _ P). now apply trimStart_from_keeps.
Qed.

Lemma occurs_literal c : forall s,
  occurs c s = true -> literal_chars s = true -> literal_char c = true.
Proof.
  induction s as [|a s IH]; cbn [occurs literal_chars]; [discriminate|].
  intros O L. apply andb_true_iff in L. destruct L as [La Ls].
  apply orb_true_iff in O. destruct O as [E | O].
  - apply Ascii.eqb_eq in E. now subst a.
  - now apply IH.
Qed.

Lemma digit_literal base c d : base <= 16 -> digit base c = Some d -> literal_char c = true.
Proof.
  intros B H. unfold literal_char.
  assert (G : digit 16 c = Some d); [|now rewrite G].
  revert H. unfold digit. cbv zeta.
  destruct ((48 <=? code c) && (code c <=? 57)) eqn:E1.
  - apply andb_true_iff in E1. destruct E1 as [L1 L2].
    apply Z.leb_le in L1. apply Z.leb_le in L2.
    destruct (code c - 48 <? base) eqn:Lt; [|discriminate]. intros [= <-].
    apply Z.ltb_lt in Lt. now replace (code c - 48 <? 16) with true by (symmetry; apply Z.ltb_lt; lia).
  - destruct ((97 <=? code c) && (code c <=? 102)) eqn:E2.
    + apply andb_true_iff in E2. destruct E2 as [L1 L2].
      apply Z.leb_le in L1. apply Z.leb_le in L2.
      destruct (code c - 87 <? base) eqn:Lt; [|discriminate]. intros [= <-].
      now replace (code c - 87 <? 16) with true by (symmetry; apply Z.ltb_lt; lia).
    + destruct ((65 <=? code c) && (code c <=? 70)) eqn:E3.
      * apply andb_true_iff in E3. destruct E3 as [L1 L2].
        apply Z.leb_le in L1. apply Z.leb_le in L2.
        destruct (code c - 55 <? base) eqn:Lt; [|discriminate]. intros [= <-].
        now replace (code c - 55 <? 16) with true by (symmetry; apply Z.ltb_lt; lia).
      * rewrite Z.ltb_irrefl. discriminate.
Qed.

(** A character that is told by its code, and whose code is that of a
    character of the literals. *)
Lemma code_literal c n :
  code c = n ->
  existsb (Z.eqb n) [43; 45; 46; 120; 88; 111; 79; 73; 69; 101; 48; 98; 66] = true ->
  literal_char c = true.
Proof.
  intros E H. subst n. unfold literal_char, digit. cbn [existsb] in H.
  repeat (apply orb_true_iff in H; destruct H as [H | H];
          [apply Z.eqb_eq in H; rewrite H; reflexivity |]).
  discriminate.
Qed.

Lemma digits_literal base : base <= 16 -> forall s value count value' count' rest,
  digits base s value count = (value', count', rest) ->
  literal_chars s = literal_chars rest.
Proof.
  intros B. induction s as [|c s IH]; intros value count value' count' rest; cbn [digits].
  - now intros [= _ _ <-].
  - destruct (digit base c) as [d|] eqn:D.
    + intros H. cbn [literal_chars]. rewrite (digit_literal base c d B D).
      exact (IH _ _ _ _ _ H).
    + now intros [= _ _ <-].
Qed.

Lemma ExponentPart_literal s e : ExponentPart s = Some e -> literal_chars s = true.
Proof.
  destruct s as [|c r]; [reflexivity|]. cbn [ExponentPart literal_chars].
  destruct ((code c =? 101) || (code c =? 69)) eqn:E; [|discriminate].
  assert (Lc : literal_char c = true).
  { apply orb_true_iff in E. destruct E as [E | E]; apply Z.eqb_eq in E;
      now apply (code_literal c _ E). }
  rewrite Lc. cbn [andb].
  assert (G : forall r', (let (p, rest) := digits 10 r' 0 0 in
                          let (e0, n) := p in
                          match rest with
                          | EmptyString => Some e0
                          | String _ _ => None
                          end) <> None -> literal_chars r' = true).
  { intros r'. destruct (digits 10 r' 0 0) as [[e0 n] rest] eqn:D.
    destruct rest; [|congruence]. intros _.
    now rewrite (digits_literal 10 ltac:(lia) _ _ _ _ _ _ D). }
  destruct r as [|sign r'].
  - cbn. discriminate.
  - destruct (code sign =? 45) eqn:S1; [|destruct (code sign =? 43) eqn:S2].
    + apply Z.eqb_eq in S1. cbn [literal_chars]. rewrite (code_literal sign _ S1 eq_refl).
      cbn [andb]. intros H. apply G.
      destruct (digits 10 r' 0 0) as [[e0 n] rest]. destruct rest; [discriminate | congruence].
    + apply Z.eqb_eq in S2. cbn [literal_chars]. rewrite (code_literal sign _ S2 eq_refl).
      cbn [andb]. intros H. apply G.
      destruct (digits 10 r' 0 0) as [[e0 n] rest]. destruct rest; [discriminate | congruence].
    + intros H. apply G.
      destruct (digits 10 (String sign r') 0 0) as [[e0 n] rest].
      destruct rest; [discriminate | congruence].
Qed.

Lemma StrUnsignedDecimalLiteral_literal negative s n :
  StrUnsignedDecimalLiteral negative s = Some n -> literal_chars s = true.
Proof.
  unfold StrUnsignedDecimalLiteral.
  destruct (String.eqb s "Infinity") eqn:I.
  { apply String.eqb_eq in I. now subst s. }
  destruct (digits 10 s 0 0) as [[whole n1] r1] eqn:D1.
  rewrite (digits_literal 10 ltac:(lia) _ _ _ _ _ _ D1).
  destruct r1 as [|c r].
  - destruct (0 <? n1 + 0); [|discriminate]. reflexivity.
  - destruct (code c =? 46) eqn:P.
    + apply Z.eqb_eq in P. cbn [literal_chars]. rewrite (code_literal c _ P eq_refl).
      cbn [andb]. destruct (digits 10 r whole 0) as [[m n2] r2] eqn:D2.
      rewrite (digits_literal 10 ltac:(lia) _ _ _ _ _ _ D2).
      destruct (0 <? n1 + n2); [|discriminate].
      destruct (ExponentPart r2) as [e|] eqn:E; [|discriminate].
      intros _. exact (ExponentPart_literal _ _ E).
    + destruct (0 <? n1 + 0); [|discriminate].
      destruct (ExponentPart (String c r)) as [e|] eqn:E; [|discriminate].
      intros _. exact (ExponentPart_literal _ _ E).
Qed.

Lemma StrDecimalLiteral_literal s n : StrDecimalLiteral s = Some n -> literal_chars s = true.
Proof.
  destruct s as [|c r]; [discriminate|]. cbn [StrDecimalLiteral].
  destruct (code c =? 45) eqn:S1; [|destruct (code c =? 43) eqn:S2].
  - apply Z.eqb_eq in S1. intros H. cbn [literal_chars].
    now rewrite (code_literal c _ S1 eq_refl), (StrUnsignedDecimalLiteral_literal _ _ _ H).
  - apply Z.eqb_eq in S2. intros H. cbn [literal_chars].
    now rewrite (code_literal c _ S2 eq_refl), (StrUnsignedDecimalLiteral_literal _ _ _ H).
  - apply StrUnsignedDecimalLiteral_literal.
Qed.

Lemma NonDecimalIntegerLiteral_literal s n :
  NonDecimalIntegerLiteral s = Some n -> literal_chars s = true.
Proof.
  destruct s as [|z [|p r]]; try discriminate. cbn [NonDecimalIntegerLiteral].
  destruct (code z =? 48) eqn:Z0; [|discriminate]. apply Z.eqb_eq in Z0.
  cbn [literal_chars]. rewrite (code_literal z _ Z0 eq_refl). cbn [andb].
  assert (G : forall base, base <= 16 ->
              (let (q, rest) := digits base r 0 0 in
               let (m, k) := q in
               match rest with
               | EmptyString => if 0 <? k then Some (rounded false m 0) else None
               | String _ _ => None
               end) = Some n -> literal_chars r = true).
  { intros base B. destruct (digits base r 0 0) as [[m k] rest] eqn:D.
    destruct rest; [|discriminate]. intros _.
    now rewrite (digits_literal base B _ _ _ _ _ _ D). }
  destruct ((code p =? 120) || (code p =? 88)) eqn:X;
    [|destruct ((code p =? 111) || (code p =? 79)) eqn:O;
      [|destruct ((code p =? 98) || (code p =? 66)) eqn:B]]; cbn [Z.eqb].
  - intros H. rewrite (G 16 ltac:(lia) H), andb_true_r.
    apply orb_true_iff in X. destruct X as [E | E]; apply Z.eqb_eq in E;
      now apply (code_literal p _ E).
  - intros H. rewrite (G 8 ltac:(lia) H), andb_true_r.
    apply orb_true_iff in O. destruct O as [E | E]; apply Z.eqb_eq in E;
      now apply (code_literal p _ E).
  - intros H. rewrite (G 2 ltac:(lia) H), andb_true_r.
    apply orb_true_iff in B. destruct B as [E | E]; apply Z.eqb_eq in E;
      now apply (code_literal p _ E).
  - discriminate.
Qed.

Lemma StrNumericLiteral_literal s n : StrNumericLiteral s = Some n -> literal_chars s = true.
Proof.
  unfold StrNumericLiteral.
  destruct (NonDecimalIntegerLiteral s) as [m|] eqn:N.
  - intros _. exact (NonDecimalIntegerLiteral_literal _ _ N).
  - apply StrDecimalLiteral_literal.
Qed.

(** An input that holds a visible character with which no literal is
    written is not numeric. *)
Lemma unexpected_character val c :
  occurs c val = true -> printable c = true -> literal_char c = false ->
  not_numeric (getInput (Some val)) = true.
Proof.
  intros O P L. unfold getInput, not_numeric. cbv zeta.
  assert (T : occurs c (trim (trim val)) = true)
    by now rewrite !(trim_keeps c _ P).
  destruct (String.eqb (trim (trim val)) "") eqn:E.
  - apply String.eqb_eq in E. rewrite E in T. discriminate.
  - destruct (StrNumericLiteral (trim (trim val))) as [n|] eqn:N; [|reflexivity].
    rewrite (occurs_literal c _ T (StrNumericLiteral_literal _ _ N)) in L. discriminate.
Qed.

End InputFacts.

(** ** Facts about a whole averaged-repeats run *)

Module IsolatedRunFacts.

Import JS Eff Isolated.

(** The rows of a run in which every scenario completes. *)
Lemma Isolated_run_completes inp s0 rest cs :
  dist_exists inp = true -> pixi_exists inp = true ->
  index_files inp = Ok (s0 :: rest) ->
  Forall (scenario_completes inp) (s0 :: rest) ->
  exists w,
    run inp (initial cs) = (Ok tt, w) /\
    failures w
    = match sink_error (comment_sink inp) cs with
      | Some msg => [msg]
      | None =>
          if detect (map (fun s => compare (perfChange inp) (scenario_name s)
                                     (aggregate (samples_of inp (devURL s)))
                                     (aggregate (samples_of inp (localURL s))))
                         (s0 :: rest))
          then ["Performance regression slower than dev."%string] else []
      end /\
    server w = false /\ browsers w = 0%nat /\ open_pages w = [].
Proof.
  intros D P F C.
  assert (T : tryBlock inp (initial cs)
              = report inp
                  (map (fun s => compare (perfChange inp) (scenario_name s)
                                   (aggregate (samples_of inp (devURL s)))
                                   (aggregate (samples_of inp (localURL s))))
                       (s0 :: rest))
                  {| server := true; browsers := 0; open_pages := []; failures := [];
                     warnings := []; output := None; comments := cs |}).
  { transitivity
      (bind (runScenarios inp (s0 :: rest) []) (fun comparisons => report inp comparisons)
         {| server := true; browsers := 0; open_pages := []; failures := [];
            warnings := []; output := None; comments := cs |}).
    - unfold tryBlock. rewrite D, P, F. reflexivity.
    - unfold bind.
      now rewrite (IsolatedFacts.runScenarios_completes inp (s0 :: rest) []
                     {| server := true; browsers := 0; open_pages := []; failures := [];
                        warnings := []; output := None; comments := cs |} C eq_refl). }
  destruct (IsolatedFacts.report_caught inp
              (map (fun s => compare (perfChange inp) (scenario_name s)
                               (aggregate (samples_of inp (devURL s)))
                               (aggregate (samples_of inp (localURL s))))
                   (s0 :: rest))
              {| server := true; browsers := 0; open_pages := []; failures := [];
                 warnings := []; output := None; comments := cs |})
    as (w' & E & Fl & Sv & Br & Op).
  cbn [server browsers open_pages failures comments app] in Fl, Sv, Br, Op.
  unfold run, try_finally. rewrite (EffFacts.try_catch_ext _ _ _ _ _ T), E.
  unfold close_server, bind, gets. rewrite Sv. cbn [set_server modify].
  eexists. repeat split; cbn; assumption.
Qed.

End IsolatedRunFacts.

(** ** Properties of the specification, checked against the runners *)

Import JS Eff.
Local Open Scope float_scope.

(** C1. For every index at which the pull request and the baseline both
    have a result, the comparison yields a row whose [diffPercent] is
    [(baseline - candidate) / baseline * 100] and whose [regression] flag is
    [diffPercent > threshold]; against a positive baseline a positive
    [diffPercent] means that the candidate has the smaller frame rate.  The
    averaged-repeats runner applies the same formula to the two means.  A
    baseline of 60 and a candidate of 54 give a difference of 10, which a
    threshold of 5 flags, with the trend pointing down. *)
Theorem C1_diffPercent_sign_convention :
  (forall perfChange pages prResults baseline,
      List.length prResults = List.length pages ->
      Forall (fun e => truthy e = true) prResults ->
      exists rows,
        Main.compareAll perfChange pages prResults baseline = Ok rows /\
        List.length rows = List.length pages /\
        forall i r,
          nth_error rows i = Some r ->
          truthy (at_index baseline i) = true ->
          let b := Number (fps_of (at_index baseline i)) in
          let c := Number (fps_of (at_index prResults i)) in
          Main.diffPercent r = Some ((b - c) / b * 100) /\
          Main.regression r = gt ((b - c) / b * 100) perfChange /\
          ((0 <? b) = true -> gt ((b - c) / b * 100) 0 = true -> lt c b = true)) /\
  (forall perfChange name devResult localResult,
      let row := Isolated.compare perfChange name devResult localResult in
      let b := Isolated.avg devResult in
      let c := Isolated.avg localResult in
      Isolated.diffPercent row = (b - c) / b * 100 /\
      ((0 <? b) = true -> gt (Isolated.diffPercent row) 0 = true -> lt c b = true)) /\
  Main.compareAt 5 [Examples.sprite 54] [Examples.sprite 60] 0
  = Ok {| Main.name := Some "Sprites (50k)"%string; Main.devFPS := Some 60; Main.prFPS := 54;
          Main.diffPercent := Some 10; Main.regression := true;
          Main.arrow := Some Down |}.
Proof.
  split; [|split].
  - intros perfChange pages prResults baseline L T.
    destruct (MainFacts.compareAll_total perfChange pages prResults baseline L T) as [rows R].
    exists rows. split; [assumption|].
    destruct (MainFacts.compareAll_rows _ _ _ _ _ R) as [Lr N]. split; [assumption|].
    intros i r Hi Tb b c.
    assert (Tp : truthy (at_index prResults i) = true).
    { rewrite Forall_forall in T. apply T. apply nth_In.
      rewrite L, <- Lr. apply nth_error_Some. congruence. }
    pose proof (N _ _ Hi) as E. rewrite MainFacts.compareAt_present in E by assumption.
    injection E as <-. cbn [Main.diffPercent Main.regression].
    repeat split. apply NumberFacts.positive_percent_slower.
  - intros perfChange name devResult localResult. cbn. split; [reflexivity|].
    apply NumberFacts.positive_percent_slower.
  - reflexivity.
Qed.

Lemma C1_witness :
  exists rows,
    Main.compareAll 5 [Examples.sprite_url] [Examples.sprite 54] [Examples.sprite 60] = Ok rows /\
    List.length rows = 1%nat.
Proof.
  destruct (proj1 C1_diffPercent_sign_convention 5 [Examples.sprite_url]
              [Examples.sprite 54] [Examples.sprite 60])
    as (rows & R & L & _).
  - reflexivity.
  - repeat constructor.
  - exists rows. split; assumption.
Defined.

(** C2. Under the FPS-scaled policy the scenario loop measures both pages
    of every scenario and pushes one row per scenario, in order: the row's
    two sides are the aggregates of the samples the two pages published,
    its [diffPercent] is the share of the baseline mean lost by the
    candidate mean, and its [regression] is [diffPercent > fixedPercent *
    (60 / max(baseline.mean, 1))].  Every row of a loop that returns is
    such a row over aggregates of [REPEATS] samples, and the comparison
    applies that formula to whatever two results it is given.  For a
    baseline mean of 30 and a fixed percentage of 5 the allowed difference
    is 10: a difference of 8 is not flagged and one of 12 is.  The
    denominator is at least 1 for every baseline that is a number, and for
    every baseline below 1 it is 1 and the allowed difference is
    [fixedPercent * 60]: a baseline of 0 allows 300 where the bare quotient
    would be infinite. *)
Theorem C2_fps_scaled_tolerance :
  (forall inp indexFiles w,
      Forall (Isolated.scenario_completes inp) indexFiles ->
      open_pages w = [] ->
      Isolated.runScenarios inp indexFiles [] w
      = (Ok (map (fun s =>
                    let baseline :=
                      Isolated.aggregate (Isolated.samples_of inp (Isolated.devURL s)) in
                    let candidate :=
                      Isolated.aggregate (Isolated.samples_of inp (Isolated.localURL s)) in
                    let diffPercent :=
                      (Isolated.avg baseline - Isolated.avg candidate)
                      / Isolated.avg baseline * 100 in
                    {| Isolated.name := Isolated.scenario_name s;
                       Isolated.devResult := baseline;
                       Isolated.localResult := candidate;
                       Isolated.diffPercent := diffPercent;
                       Isolated.regression :=
                         gt diffPercent
                            (Isolated.perfChange inp
                             * (60 / Math_max (Isolated.avg baseline) 1));
                       Isolated.arrow := if gt diffPercent 0 then Down else Up |})
                 indexFiles), w)) /\
  (forall inp indexFiles w rows w',
      Isolated.runScenarios inp indexFiles [] w = (Ok rows, w') ->
      List.length rows = List.length indexFiles /\
      Forall (fun c =>
                Spec.scaled_row (Isolated.perfChange inp) c /\
                Isolated.devResult c
                = Isolated.aggregate (Isolated.samples (Isolated.devResult c)) /\
                Isolated.localResult c
                = Isolated.aggregate (Isolated.samples (Isolated.localResult c)) /\
                List.length (Isolated.samples (Isolated.devResult c)) = Isolated.REPEATS /\
                List.length (Isolated.samples (Isolated.localResult c)) = Isolated.REPEATS)
             rows) /\
  (forall perfChange name devResult localResult,
      let c := Isolated.compare perfChange name devResult localResult in
      Isolated.diffPercent c
      = (Isolated.avg devResult - Isolated.avg localResult) / Isolated.avg devResult * 100 /\
      Isolated.regression c
      = gt (Isolated.diffPercent c)
           (perfChange * (60 / Math_max (Isolated.avg devResult) 1)) /\
      Isolated.allowedPercent perfChange (Isolated.avg devResult)
      = perfChange * (60 / Math_max (Isolated.avg devResult) 1)) /\
  (Isolated.allowedPercent 5 30 = 10 /\
   gt 8 (Isolated.allowedPercent 5 30) = false /\
   gt 12 (Isolated.allowedPercent 5 30) = true) /\
  (Isolated.regression
     (Isolated.compare 5 "sprite" (Examples.steady 30) (Examples.steady 27.5)) = false /\
   Isolated.regression
     (Isolated.compare 5 "sprite" (Examples.steady 30) (Examples.steady 26.25)) = true) /\
  (forall devAvg, is_nan devAvg = false -> (1 <=? Isolated.effectiveDevFps devAvg) = true) /\
  (forall perfChange devAvg,
      (devAvg <? 1) = true ->
      Isolated.effectiveDevFps devAvg = 1 /\
      Isolated.allowedPercent perfChange devAvg = perfChange * 60) /\
  (Isolated.allowedPercent 5 0 = 300 /\ 5 * (60 / 0) = infinity).
Proof.
  split; [|split; [|split; [|split; [|split; [|split; [|split]]]]]].
  - intros inp indexFiles w C O.
    now rewrite (IsolatedFacts.runScenarios_completes inp indexFiles [] w C O).
  - intros inp indexFiles w rows w' H.
    destruct (IsolatedFacts.runScenarios_rows _ _ _ _ _ _ H) as (new & -> & L & F).
    cbn [app]. split; [assumption|]. eapply Forall_impl; [|exact F].
    intros c (S & _ & L1 & L2 & A1 & A2). auto.
  - intros perfChange name devResult localResult. repeat split.
  - repeat split.
  - split; reflexivity.
  - apply NumberFacts.Math_max_one_floor.
  - intros perfChange devAvg H. split.
    + now apply NumberFacts.Math_max_below_one.
    + unfold Isolated.allowedPercent, Isolated.effectiveDevFps.
      rewrite (NumberFacts.Math_max_below_one _ H). now rewrite NumberFacts.div_one.
  - split; reflexivity.
Qed.

Lemma C2_witness :
  exists rows,
    Isolated.runScenarios (Examples.isolated_run 5 30 27.5 Examples.no_sink)
      [Examples.sprite_scenario] [] (initial [])
    = (Ok rows, initial []) /\
    map Isolated.regression rows = [false].
Proof.
  eexists. split.
  - apply (proj1 C2_fps_scaled_tolerance
             (Examples.isolated_run 5 30 27.5 Examples.no_sink)
             [Examples.sprite_scenario] (initial [])).
    + constructor; [|constructor]. intros k _. split; reflexivity.
    + reflexivity.
  - reflexivity.
Defined.

(** C3. The aggregation's [avg] is the average of the samples and its
    [stddev] their population standard deviation, the sum of squared
    deviations divided by N; a measurement whose page completes on every
    repeat returns the aggregate of its samples, and a measurement that
    returns has aggregated exactly [REPEATS] samples.  For the samples 58,
    60 and 62 the mean is 60 and the deviation is the square root of 8/3,
    between 1.632 and 1.634.  For a single finite sample the deviation is
    0. *)
Theorem C3_aggregation :
  (forall sampleFPS,
      sampleFPS <> [] ->
      Isolated.avg (Isolated.aggregate sampleFPS) = Spec.average (map Number sampleFPS) /\
      Isolated.stddev (Isolated.aggregate sampleFPS)
      = Spec.population_stddev (map Number sampleFPS)) /\
  (forall inp url w,
      (forall k, (k < Isolated.REPEATS)%nat -> Isolated.completes inp url k = true) ->
      open_pages w = [] ->
      Isolated.runIsolatedBenchmark inp url w
      = (Ok (Isolated.aggregate (Isolated.samples_of inp url)), w)) /\
  (forall inp url w a w',
      Isolated.runIsolatedBenchmark inp url w = (Ok a, w') ->
      List.length (Isolated.samples a) = Isolated.REPEATS /\
      a = Isolated.aggregate (Isolated.samples a)) /\
  (Isolated.aggregate [Num 58; Num 60; Num 62]
   = {| Isolated.avg := 60; Isolated.stddev := sqrt (8 / 3);
        Isolated.samples := [Num 58; Num 60; Num 62] |} /\
   (1632 / 1000 <? sqrt (8 / 3)) = true /\ (sqrt (8 / 3) <? 1634 / 1000) = true) /\
  (forall x, is_finite x = true -> Isolated.stddev (Isolated.aggregate [Num x]) = 0).
Proof.
  repeat split; try reflexivity.
  - now destruct (IsolatedFacts.aggregate_spec sampleFPS) as (-> & _ & _).
  - now destruct (IsolatedFacts.aggregate_spec sampleFPS) as (_ & -> & _).
  - now apply IsolatedFacts.runIsolatedBenchmark_completes.
  - now destruct (IsolatedFacts.runIsolatedBenchmark_returns _ _ _ _ _ H).
  - now destruct (IsolatedFacts.runIsolatedBenchmark_returns _ _ _ _ _ H).
  - intros x F. now destruct (IsolatedFacts.aggregate_single_finite x F).
Qed.

Lemma C3_witness :
  Isolated.avg (Isolated.aggregate [Num 58; Num 60; Num 62])
  = Spec.average [58; 60; 62] /\
  Isolated.stddev (Isolated.aggregate [Num 58; Num 60; Num 62])
  = Spec.population_stddev [58; 60; 62].
Proof.
  apply (proj1 C3_aggregation [Num 58; Num 60; Num 62]). discriminate.
Defined.

(** C4. In the runner without a per-page [finally], a page whose result
    never appears is still open, and so is the browser, when the timeout has
    propagated and the run has ended: only the server is closed. *)
Theorem C4_page_left_open_after_timeout :
  exists w,
    Main.run Examples.stuck_run (initial []) = (Ok tt, w) /\
    failures w = ["page.waitForFunction: Timeout 30000ms exceeded."%string] /\
    open_pages w = [Examples.sprite_url] /\
    browsers w = 1%nat /\
    server w = false.
Proof. eexists. repeat split; reflexivity. Qed.

(** C5, counterexample.  The comparator finds no regression, the listing of
    the comments is rejected, and the invocation is reported as failed. *)
Lemma C5_counterexample :
  exists rows w,
    Main.compareAll 5 [Examples.sprite_url] [Examples.sprite 60] [Examples.sprite 60] = Ok rows /\
    Main.detect rows = false /\
    Main.run (Examples.sprite_run 5 (Examples.sprite 60) (Parsed [Examples.sprite 60])
                                  Examples.broken_sink) (initial [])
    = (Ok tt, w) /\
    failed w = true.
Proof. do 2 eexists. repeat split; reflexivity. Qed.

(** C5, as amended.  In a run whose pages complete and whose baseline parses,
    a rejection by the comment sink is caught by the top-level handler and
    reported as the invocation's failure, with the sink's message; when the
    sink is skipped or accepts, the invocation fails exactly when the
    comparator has flagged a row.  The averaged-repeats runner ends the
    same way. *)
Theorem C5_sink_rejection_fails_the_run :
  (forall i pages baseline cs,
      Main.dist_exists i = true -> Main.pixi_exists i = true ->
      Main.benchmark_files i = Ok pages ->
      Forall (fun u => Main.completes i u = true) pages ->
      Main.parseBaseline (Main.baseline_file i) = Ok baseline ->
      exists rows w,
        Main.compareAll (Main.perfChange i) pages (map (Main.published i) pages) baseline
        = Ok rows /\
        Main.run i (initial cs) = (Ok tt, w) /\
        match sink_error (Main.comment_sink i) cs with
        | Some msg => failures w = [msg] /\ failed w = true
        | None => failed w = Main.detect rows
        end) /\
  (forall inp comparisons w,
      failures w = [] ->
      exists w',
        try_catch (Isolated.report inp comparisons) (fun msg => setFailed msg) w = (Ok tt, w') /\
        match sink_error (Isolated.comment_sink inp) (comments w) with
        | Some msg => failures w' = [msg] /\ failed w' = true
        | None => failed w' = Isolated.detect comparisons
        end).
Proof.
  split.
  - intros i pages baseline cs D P F C B.
    destruct (MainFacts.run_completes i pages baseline cs D P F C B)
      as (rows & w & R & E & Fl & _).
    exists rows, w. repeat split; try assumption.
    unfold failed. rewrite Fl.
    destruct (sink_error (Main.comment_sink i) cs); [now split|].
    now destruct (Main.detect rows).
  - intros inp comparisons w Fw.
    destruct (IsolatedFacts.report_caught inp comparisons w) as (w' & E & Fl & _).
    exists w'. split; [assumption|]. unfold failed. rewrite Fl, Fw. cbn [app].
    destruct (sink_error (Isolated.comment_sink inp) (comments w)); [now split|].
    now destruct (Isolated.detect comparisons).
Qed.

Lemma C5_witness :
  exists rows w,
    Main.compareAll 5 [Examples.sprite_url] [Examples.sprite 60] [Examples.sprite 60] = Ok rows /\
    Main.run (Examples.sprite_run 5 (Examples.sprite 60) (Parsed [Examples.sprite 60])
                                  Examples.broken_sink) (initial [])
    = (Ok tt, w) /\
    failures w = ["HttpError: Resource not accessible by integration"%string] /\
    failed w = true.
Proof.
  destruct (proj1 C5_sink_rejection_fails_the_run
              (Examples.sprite_run 5 (Examples.sprite 60) (Parsed [Examples.sprite 60])
                                   Examples.broken_sink)
              [Examples.sprite_url] [Examples.sprite 60] [])
    as (rows & w & R & E & Fl & Fd); try reflexivity.
  - repeat constructor.
  - exists rows, w. repeat split; assumption.
Defined.

(** C6, counterexample.  A candidate as fast as its baseline has a
    difference of exactly zero, and its row carries the upward arrow where
    the specification asks for none. *)
Lemma C6_counterexample :
  exists r,
    Main.compareAt 5 [Examples.sprite 60] [Examples.sprite 60] 0 = Ok r /\
    Main.diffPercent r = Some 0 /\
    Main.arrow r = Some Up /\
    Spec.trend_of (Main.diffPercent r) = None.
Proof. eexists. repeat split; reflexivity. Qed.

(** C6, as amended.  Every comparison row has the downward arrow when its
    difference is greater than zero and the upward arrow when its
    difference is present and not greater than zero, which covers a negative
    difference and a difference of exactly zero; it has no arrow when the
    difference is absent.  The grouping runner and the averaged-repeats
    runner choose the arrow in the same way. *)
Theorem C6_trend_arrow :
  (forall perfChange prResults baseline i,
      truthy (at_index prResults i) = true ->
      exists r,
        Main.compareAt perfChange prResults baseline i = Ok r /\
        Main.arrow r
        = match Main.diffPercent r with
          | Some d => Some (if gt d 0 then Down else Up)
          | None => None
          end /\
        (forall d, Main.diffPercent r = Some d ->
                   (gt d 0 = true -> Main.arrow r = Some Down) /\
                   (lt d 0 = true -> Main.arrow r = Some Up) /\
                   ((d =? 0) = true -> Main.arrow r = Some Up)) /\
        (Main.diffPercent r = None -> Main.arrow r = None)) /\
  (forall perfChange g,
      let r := DevLocal.compareGroup perfChange g in
      DevLocal.arrow r
      = match DevLocal.diffPercent r with
        | Some d => Some (if gt d 0 then Down else Up)
        | None => None
        end) /\
  (forall perfChange name devResult localResult,
      let r := Isolated.compare perfChange name devResult localResult in
      Isolated.arrow r = if gt (Isolated.diffPercent r) 0 then Down else Up).
Proof.
  split; [|split].
  - intros perfChange prResults baseline i Tp.
    assert (A : forall d (a : trend), a = (if gt d 0 then Down else Up) ->
                (gt d 0 = true -> Some a = Some Down) /\
                (lt d 0 = true -> Some a = Some Up) /\
                ((d =? 0) = true -> Some a = Some Up)).
    { intros d a ->. repeat split.
      - now intros ->.
      - unfold lt, gt. intros L. now rewrite (NumberFacts.ltb_asym _ _ L).
      - intros Z. now rewrite (NumberFacts.eqb_not_gt _ _ Z). }
    destruct (truthy (at_index baseline i)) eqn:Tb.
    + rewrite MainFacts.compareAt_present by assumption. cbn zeta.
      eexists. split; [reflexivity|]. cbn [Main.arrow Main.diffPercent].
      split; [reflexivity|]. split; [|discriminate].
      intros d [= <-]. now apply A.
    + rewrite MainFacts.compareAt_absent by assumption.
      eexists. split; [reflexivity|]. cbn [Main.arrow Main.diffPercent].
      split; [reflexivity|]. split; [discriminate | reflexivity].
  - intros perfChange [name v]. unfold DevLocal.compareGroup.
    now destruct (DevLocal.dev v), (DevLocal.local v).
  - reflexivity.
Qed.

Lemma C6_witness :
  exists r,
    Main.compareAt 5 [Examples.sprite 54] [Examples.sprite 60] 0 = Ok r /\
    Main.arrow r = Some Down.
Proof.
  destruct (proj1 C6_trend_arrow 5 [Examples.sprite 54] [Examples.sprite 60] 0%nat eq_refl)
    as (r & E & A & S & _).
  exists r. split; [exact E|].
  injection E as <-. reflexivity.
Defined.

(** C7, counterexample.  The runner with the baseline file pairs the two
    result sets by index and never by name.  A scenario that only the
    pull request has, measured where the baseline holds a scenario that
    only the baseline has, gets a row with both sides, a difference of 50
    percent and [regression = true], and the run is failed on it.  A
    scenario that only the baseline has, beyond the last page, gets no row
    at all. *)
Lemma C7_counterexample :
  Main.compareAll 5 [Examples.sprite_url]
    [Obj (Some "added"%string) (Num 30)] [Obj (Some "removed"%string) (Num 60)]
  = Ok [{| Main.name := Some "added"%string; Main.devFPS := Some 60; Main.prFPS := 30;
           Main.diffPercent := Some 50; Main.regression := true;
           Main.arrow := Some Down |}] /\
  failed (snd (Main.run (Examples.sprite_run 5 (Obj (Some "added"%string) (Num 30))
                           (Parsed [Obj (Some "removed"%string) (Num 60)])
                           Examples.no_sink) (initial []))) = true /\
  Main.compareAll 5 [Examples.sprite_url]
    [Examples.sprite 60] [Examples.sprite 60; Obj (Some "removed"%string) (Num 60)]
  = Ok [{| Main.name := Some "Sprites (50k)"%string; Main.devFPS := Some 60;
           Main.prFPS := 60; Main.diffPercent := Some 0; Main.regression := false;
           Main.arrow := Some Up |}].
Proof. repeat split. Qed.

(** C7. In the runner with the baseline file a row stands for a page
    index: there is one row per page, and none for a baseline entry beyond
    the pages.  The row of a pull-request result whose index holds no
    baseline entry is without baseline, without difference, without arrow
    and with [regression = false]; where the index holds a baseline entry
    the two are compared, under the name the pull request gives, whatever
    name the baseline entry carries.  In the grouping runner a name that
    only one variant reports gives a row whose other side and difference
    are absent and whose flag is false.  In both, taking an unflagged row
    out of the table leaves the verdict as it is. *)
Theorem C7_rows_without_a_counterpart :
  (forall perfChange prResults baseline i,
      truthy (at_index prResults i) = true ->
      truthy (at_index baseline i) = false ->
      exists r,
        Main.compareAt perfChange prResults baseline i = Ok r /\
        Main.name r = name_of (at_index prResults i) /\
        Main.devFPS r = None /\
        Main.prFPS r = Number (fps_of (at_index prResults i)) /\
        Main.diffPercent r = None /\
        Main.regression r = false /\
        Main.arrow r = None) /\
  (forall perfChange prResults baseline i,
      truthy (at_index prResults i) = true ->
      truthy (at_index baseline i) = true ->
      exists r,
        Main.compareAt perfChange prResults baseline i = Ok r /\
        Main.name r = name_of (at_index prResults i) /\
        Main.devFPS r = Some (Number (fps_of (at_index baseline i))) /\
        Main.prFPS r = Number (fps_of (at_index prResults i)) /\
        Main.diffPercent r
        = Some ((Number (fps_of (at_index baseline i))
                 - Number (fps_of (at_index prResults i)))
                / Number (fps_of (at_index baseline i)) * 100) /\
        Main.regression r
        = gt ((Number (fps_of (at_index baseline i))
               - Number (fps_of (at_index prResults i)))
              / Number (fps_of (at_index baseline i)) * 100) perfChange) /\
  (forall perfChange pages prResults baseline rows,
      Main.compareAll perfChange pages prResults baseline = Ok rows ->
      List.length rows = List.length pages /\
      forall i r, nth_error rows i = Some r ->
                  Main.compareAt perfChange prResults baseline i = Ok r) /\
  (forall before r after,
      Main.regression r = false ->
      Main.detect (before ++ r :: after) = Main.detect (before ++ after)) /\
  (forall perfChange k which rawResults v,
      (forall r, In r rawResults -> DevLocal.raw_name r = k -> DevLocal.raw_variant r = which) ->
      In (k, v) (DevLocal.group rawResults) ->
      let r := DevLocal.compareGroup perfChange (k, v) in
      DevLocal.other_side which v = None /\
      DevLocal.devFPS r = DevLocal.dev v /\ DevLocal.localFPS r = DevLocal.local v /\
      DevLocal.diffPercent r = None /\
      DevLocal.regression r = false /\
      DevLocal.arrow r = None) /\
  (forall perfChange before g after,
      DevLocal.regression (DevLocal.compareGroup perfChange g) = false ->
      snd (DevLocal.compareGroups perfChange (before ++ g :: after))
      = snd (DevLocal.compareGroups perfChange (before ++ after))).
Proof.
  split; [|split; [|split; [|split; [|split]]]].
  - intros perfChange prResults baseline i Tp Tb.
    rewrite MainFacts.compareAt_absent by assumption.
    eexists. repeat split; reflexivity.
  - intros perfChange prResults baseline i Tp Tb.
    rewrite MainFacts.compareAt_present by assumption.
    eexists. repeat split; reflexivity.
  - intros perfChange pages prResults baseline rows H.
    exact (MainFacts.compareAll_rows _ _ _ _ _ H).
  - exact MainFacts.detect_drop.
  - intros perfChange k which rawResults v H I r.
    pose proof (DevLocalFacts.group_one_sided k which rawResults H v I) as O.
    split; [assumption|]. subst r.
    rewrite DevLocalFacts.compareGroup_one_sided; [repeat split|].
    destruct which; cbn [DevLocal.other_side] in O; auto.
  - intros perfChange before g after H.
    rewrite !DevLocalFacts.compareGroups_spec. cbn [snd].
    rewrite !map_app, !existsb_app. cbn [map existsb]. now rewrite H.
Qed.

Lemma C7_witness :
  exists r,
    Main.compareAt 5 [Examples.sprite 60] [] 0 = Ok r /\
    Main.name r = Some "Sprites (50k)"%string /\
    Main.devFPS r = None /\
    Main.prFPS r = 60 /\
    Main.diffPercent r = None /\
    Main.regression r = false /\
    Main.arrow r = None.
Proof.
  apply (proj1 C7_rows_without_a_counterpart 5 [Examples.sprite 60] [] 0%nat); reflexivity.
Defined.




(** C9, counterexample.  A result set whose frame rate is 0, compared with
    itself, has a difference that is NaN and not zero; and against a
    threshold of -1 a result set compared with itself is flagged. *)
Lemma C9_counterexample :
  (exists r d,
      Main.compareAt 5 [Examples.sprite 0] [Examples.sprite 0] 0 = Ok r /\
      Main.diffPercent r = Some d /\
      (d =? 0) = false) /\
  (exists rows,
      Main.compareAll (-1) [Examples.sprite_url] [Examples.sprite 60] [Examples.sprite 60]
      = Ok rows /\
      Main.detect rows = true).
Proof. split; [do 2 eexists | eexists]; repeat split; reflexivity. Qed.

(** C9, as amended.  Comparing a result set with itself gives, at every index
    whose frame rate is a finite number other than zero, a difference that
    is zero; with a threshold that is not negative no row is flagged, the
    verdict is false, and a run whose baseline file holds the very results
    its pages publish does not fail when the comment sink does not
    reject. *)
Theorem C9_self_comparison :
  (forall perfChange pages results,
      gt 0 perfChange = false ->
      List.length results = List.length pages ->
      Forall (fun e => truthy e = true) results ->
      exists rows,
        Main.compareAll perfChange pages results results = Ok rows /\
        Main.detect rows = false /\
        forall i r,
          nth_error rows i = Some r ->
          let x := Number (fps_of (at_index results i)) in
          is_finite x = true -> is_zero x = false ->
          exists d, Main.diffPercent r = Some d /\ (d =? 0) = true) /\
  (forall i pages cs,
      gt 0 (Main.perfChange i) = false ->
      Main.dist_exists i = true -> Main.pixi_exists i = true ->
      Main.benchmark_files i = Ok pages ->
      Forall (fun u => Main.completes i u = true) pages ->
      Main.baseline_file i = Parsed (map (Main.published i) pages) ->
      sink_error (Main.comment_sink i) cs = None ->
      exists w, Main.run i (initial cs) = (Ok tt, w) /\ failed w = false).
Proof.
  assert (Key : forall perfChange pages results,
             gt 0 perfChange = false ->
             List.length results = List.length pages ->
             Forall (fun e => truthy e = true) results ->
             exists rows,
               Main.compareAll perfChange pages results results = Ok rows /\
               Main.detect rows = false /\
               forall i r,
                 nth_error rows i = Some r ->
                 let x := Number (fps_of (at_index results i)) in
                 Main.diffPercent r = Some ((x - x) / x * 100)).
  { intros perfChange pages results G L T.
    destruct (MainFacts.compareAll_total perfChange pages results results L T) as [rows R].
    exists rows. split; [assumption|].
    destruct (MainFacts.compareAll_rows _ _ _ _ _ R) as [Lr N].
    assert (Row : forall i r, nth_error rows i = Some r ->
                    let x := Number (fps_of (at_index results i)) in
                    r = {| Main.name := name_of (at_index results i);
                           Main.devFPS := Some x; Main.prFPS := x;
                           Main.diffPercent := Some ((x - x) / x * 100);
                           Main.regression := gt ((x - x) / x * 100) perfChange;
                           Main.arrow := Some (if gt ((x - x) / x * 100) 0 then Down else Up) |}).
    { intros i r Hi x.
      assert (Tp : truthy (at_index results i) = true).
      { rewrite Forall_forall in T. apply T. apply nth_In.
        rewrite L, <- Lr. apply nth_error_Some. congruence. }
      pose proof (N _ _ Hi) as E. rewrite MainFacts.compareAt_present in E by assumption.
      now injection E as <-. }
    split.
    - apply MainFacts.detect_false. intros r I.
      destruct (In_nth_error _ _ I) as [i Hi]. rewrite (Row i r Hi). cbn [Main.regression].
      destruct (NumberFacts.percent_self_cases (Number (fps_of (at_index results i))))
        as [Z | ->].
      + now rewrite (NumberFacts.zero_gt _ _ Z).
      + apply NumberFacts.gt_nan_l.
    - intros i r Hi x. now rewrite (Row i r Hi). }
  split.
  - intros perfChange pages results G L T.
    destruct (Key perfChange pages results G L T) as (rows & R & D & Rows).
    exists rows. repeat split; try assumption.
    intros i r Hi x F Z. eexists. split; [apply (Rows i r Hi)|].
    apply (NumberFacts.percent_self x F Z).
  - intros i pages cs G D P F C B S.
    assert (Bp : Main.parseBaseline (Main.baseline_file i) = Ok (map (Main.published i) pages))
      by now rewrite B.
    destruct (MainFacts.run_completes i pages _ cs D P F C Bp) as (rows & w & R & E & Fl & _).
    exists w. split; [assumption|].
    destruct (Key (Main.perfChange i) pages (map (Main.published i) pages) G)
      as (rows' & R' & D' & _).
    + now rewrite length_map.
    + rewrite Forall_map. eapply Forall_impl; [|exact C].
      intros u Hu. now destruct (MainFacts.completes_publishes _ _ Hu).
    + rewrite R in R'. injection R' as <-.
      unfold failed. now rewrite Fl, S, D'.
Qed.

Lemma C9_witness :
  (exists rows,
      Main.compareAll 5 [Examples.sprite_url] [Examples.sprite 60] [Examples.sprite 60]
      = Ok rows /\
      Main.detect rows = false) /\
  (exists w,
      Main.run (Examples.sprite_run 5 (Examples.sprite 60) (Parsed [Examples.sprite 60])
                                    Examples.no_sink) (initial [])
      = (Ok tt, w) /\
      failed w = false).
Proof.
  split.
  - destruct (proj1 C9_self_comparison 5 [Examples.sprite_url] [Examples.sprite 60])
      as (rows & R & D & _).
    + reflexivity.
    + reflexivity.
    + repeat constructor.
    + exists rows. split; assumption.
  - apply (proj2 C9_self_comparison
             (Examples.sprite_run 5 (Examples.sprite 60) (Parsed [Examples.sprite 60])
                                  Examples.no_sink)
             [Examples.sprite_url] []); try reflexivity.
    repeat constructor.
Defined.

(** C10, counterexample.  An input that is not set, is empty or holds
    nothing but white space is not a number either, and [Number] makes 0
    of it, not NaN.  With that threshold every loss is a regression: a
    baseline of 60 and a candidate of 59 are flagged and the run is
    failed. *)
Lemma C10_counterexample :
  Input.perfChange None = 0 /\
  Input.perfChange (Some ""%string) = 0 /\
  Input.perfChange (Some "  "%string) = 0 /\
  (let i := Main.reading (Some ""%string)
              (Examples.sprite_run 5 (Examples.sprite 59) (Parsed [Examples.sprite 60])
                 Examples.no_sink) in
   (exists d,
      Main.compareAll (Main.perfChange i) [Examples.sprite_url]
        [Examples.sprite 59] [Examples.sprite 60]
      = Ok [{| Main.name := Some "Sprites (50k)"%string; Main.devFPS := Some 60;
               Main.prFPS := 59; Main.diffPercent := Some d; Main.regression := true;
               Main.arrow := Some Down |}]) /\
   failures (snd (Main.run i (initial [])))
   = ["Performance regression detected!"%string] /\
   failed (snd (Main.run i (initial []))) = true).
Proof.
  repeat split. eexists. reflexivity.
Qed.

(** C10. The [perf-change] input is converted with [Number] and used
    unchecked.  When it holds something that is not a numeric literal of
    the language, the threshold is NaN: so it is for every input whose
    first visible character is none of a digit, a sign, a point or the [I]
    of [Infinity], for every input that holds a visible character with
    which no literal is written, and for [abc], [5%], [1,5] and [5 fps].
    Every row then has [regression = false] whatever the frame rates, and
    a run whose pages complete, whose baseline parses and whose comment
    sink does not reject ends without a failure, in the runner with the
    baseline file and in the averaged-repeats runner alike.  An input that
    is not set or is blank converts to 0, and a numeric literal to its
    value. *)
Theorem C10_non_numeric_threshold_flags_nothing :
  (forall env,
      Input.not_numeric (Input.getInput env) = true -> Input.perfChange env = nan) /\
  (forall val c r,
      Input.trimStart val = String c r ->
      Input.printable c = true -> Input.opens_literal c = false ->
      Input.not_numeric (Input.getInput (Some val)) = true) /\
  (forall val c,
      Input.occurs c val = true ->
      Input.printable c = true -> Input.literal_char c = false ->
      Input.not_numeric (Input.getInput (Some val)) = true) /\
  (Input.perfChange (Some "abc"%string) = nan /\
   Input.perfChange (Some "5%"%string) = nan /\
   Input.perfChange (Some "1,5"%string) = nan /\
   Input.perfChange (Some "5 fps"%string) = nan /\
   Input.perfChange (Some " 7.5 "%string) = 7.5 /\
   Input.perfChange (Some "5"%string) = 5) /\
  (Input.perfChange None = 0 /\
   forall val, Input.blank val = true -> Input.perfChange (Some val) = 0) /\
  (forall env i pages baseline cs,
      Input.not_numeric (Input.getInput env) = true ->
      Main.dist_exists i = true -> Main.pixi_exists i = true ->
      Main.benchmark_files i = Ok pages ->
      Forall (fun u => Main.completes i u = true) pages ->
      Main.parseBaseline (Main.baseline_file i) = Ok baseline ->
      sink_error (Main.comment_sink i) cs = None ->
      exists rows w,
        Main.compareAll (Input.perfChange env) pages (map (Main.published i) pages) baseline
        = Ok rows /\
        (forall r, In r rows -> Main.regression r = false) /\
        Main.run (Main.reading env i) (initial cs) = (Ok tt, w) /\
        failures w = [] /\ failed w = false) /\
  (forall env inp s0 rest cs,
      Input.not_numeric (Input.getInput env) = true ->
      Isolated.dist_exists inp = true -> Isolated.pixi_exists inp = true ->
      Isolated.index_files inp = Ok (s0 :: rest) ->
      Forall (Isolated.scenario_completes inp) (s0 :: rest) ->
      sink_error (Isolated.comment_sink inp) cs = None ->
      exists w,
        Isolated.run (Isolated.reading env inp) (initial cs) = (Ok tt, w) /\
        failures w = [] /\ failed w = false) /\
  (forall perfChange name devResult localResult,
      is_nan perfChange = true ->
      Isolated.regression (Isolated.compare perfChange name devResult localResult) = false).
Proof.
  assert (Scaled : forall perfChange name devResult localResult,
             is_nan perfChange = true ->
             Isolated.regression (Isolated.compare perfChange name devResult localResult)
             = false).
  { intros perfChange name devResult localResult Nn.
    apply NumberFacts.is_nan_eq in Nn. subst perfChange.
    unfold Isolated.compare, Isolated.allowedPercent. cbn [Isolated.regression].
    rewrite NumberFacts.mul_nan_l. apply NumberFacts.gt_nan_r. }
  split; [|split; [|split; [|split; [|split; [|split; [|split]]]]]].
  - intros env H. unfold Input.perfChange. now apply InputFacts.not_numeric_nan.
  - exact InputFacts.starts_not_numeric.
  - exact InputFacts.unexpected_character.
  - repeat split.
  - split; [reflexivity|]. intros val B. unfold Input.perfChange, Input.getInput.
    now rewrite (InputFacts.blank_trim val B).
  - intros env i pages baseline cs H D P F C B S.
    pose proof (InputFacts.not_numeric_nan _ H) as Nn. fold (Input.perfChange env) in Nn.
    destruct (MainFacts.run_completes (Main.reading env i) pages baseline cs D P F C B)
      as (rows & w & R & E & Fl & _).
    cbn [Main.reading Main.perfChange Main.comment_sink] in R, Fl.
    change (map (Main.published (Main.reading env i)) pages)
      with (map (Main.published i) pages) in R.
    exists rows, w. split; [assumption|].
    destruct (MainFacts.compareAll_rows _ _ _ _ _ R) as [Lr N].
    assert (Rg : forall r, In r rows -> Main.regression r = false).
    { intros r I. destruct (In_nth_error _ _ I) as [k Hk].
      pose proof (N _ _ Hk) as Ek.
      assert (Tp : truthy (at_index (map (Main.published i) pages) k) = true).
      { assert (T : Forall (fun e => truthy e = true) (map (Main.published i) pages)).
        { rewrite Forall_map. eapply Forall_impl; [|exact C].
          intros u Hu. now destruct (MainFacts.completes_publishes _ _ Hu). }
        rewrite Forall_forall in T. apply T. apply nth_In.
        rewrite length_map, <- Lr. apply nth_error_Some. congruence. }
      destruct (truthy (at_index baseline k)) eqn:Tb.
      - rewrite MainFacts.compareAt_present in Ek by assumption. injection Ek as <-.
        cbn [Main.regression]. rewrite Nn. apply NumberFacts.gt_nan_r.
      - rewrite MainFacts.compareAt_absent in Ek by assumption. now injection Ek as <-. }
    split; [assumption|]. split; [assumption|].
    rewrite S, (MainFacts.detect_false rows Rg) in Fl.
    split; [assumption|]. unfold failed. now rewrite Fl.
  - intros env inp s0 rest cs H D P F C S.
    pose proof (InputFacts.not_numeric_nan _ H) as Nn. fold (Input.perfChange env) in Nn.
    destruct (IsolatedRunFacts.Isolated_run_completes (Isolated.reading env inp) s0 rest cs
                D P F C) as (w & E & Fl & _).
    cbn [Isolated.reading Isolated.perfChange Isolated.comment_sink] in Fl.
    exists w. split; [assumption|].
    rewrite S, IsolatedFacts.flagged_false in Fl.
    + split; [assumption|]. unfold failed. now rewrite Fl.
    + intros r I. apply in_map_iff in I. destruct I as (s & <- & _).
      apply Scaled. now rewrite Nn.
  - exact Scaled.
Qed.

Lemma C10_witness :
  exists rows w,
    Main.compareAll (Input.perfChange (Some "abc"%string)) [Examples.sprite_url]
      [Examples.sprite 30] [Examples.sprite 60] = Ok rows /\
    (forall r, In r rows -> Main.regression r = false) /\
    Main.run (Main.reading (Some "abc"%string)
                (Examples.sprite_run 5 (Examples.sprite 30) (Parsed [Examples.sprite 60])
                   Examples.no_sink)) (initial [])
    = (Ok tt, w) /\
    failures w = [] /\ failed w = false.
Proof.
  apply (proj1 (proj2 (proj2 (proj2 (proj2 (proj2 C10_non_numeric_threshold_flags_nothing)))))
           (Some "abc"%string)
           (Examples.sprite_run 5 (Examples.sprite 30) (Parsed [Examples.sprite 60])
                                Examples.no_sink)
           [Examples.sprite_url] [Examples.sprite 60] []); try reflexivity.
  repeat constructor.
Defined.

(** ** Facts about the discovery of benchmark pages and entry points *)

Module FsFacts.

Import JS Fs.
Local Open Scope list_scope.

Lemma walk_dir keep dir entries found :
  walk keep dir (Dir entries) found = fold_left (visit keep dir) entries found.
Proof.
  cbn [walk]. revert found.
  induction entries as [|[entry child] rest IH]; intros found; [reflexivity|].
  cbn [fold_left]. rewrite <- IH. reflexivity.
Qed.

Lemma findRecursive_in_walk : forall n dir fileList,
  findRecursive_in dir n fileList = walk html_page dir n fileList.
Proof.
  induction n as [content | entries IH] using node_induction; intros dir fileList;
    [reflexivity|].
  cbn [findRecursive_in walk]. revert fileList.
  induction IH as [|[file child] rest Hc _ IHrest]; intros fileList; [reflexivity|].
  rewrite <- IHrest. f_equal. cbn [snd] in Hc.
  destruct child; [reflexivity | apply Hc].
Qed.

Lemma findIndexModules_in_walk : forall n dir found,
  findIndexModules_in dir n found = walk index_module dir n found.
Proof.
  induction n as [content | entries IH] using node_induction; intros dir found;
    [reflexivity|].
  cbn [findIndexModules_in walk]. revert found.
  induction IH as [|[entry child] rest Hc _ IHrest]; intros found; [reflexivity|].
  rewrite <- IHrest. f_equal. cbn [snd] in Hc.
  destruct child; [reflexivity | apply Hc].
Qed.

(** The list handed in comes back as the front of the result. *)
Lemma walk_found keep : forall n dir found,
  walk keep dir n found = found ++ walk keep dir n [].
Proof.
  induction n as [content | entries IH] using node_induction; intros dir found.
  - cbn. now rewrite app_nil_r.
  - rewrite !walk_dir.
    assert (G : forall found acc,
               fold_left (visit keep dir) entries (found ++ acc)
               = found ++ fold_left (visit keep dir) entries acc).
    { clear found. induction IH as [|[entry child] rest Hc _ IHrest]; intros found acc;
        [reflexivity|].
      cbn [fold_left]. cbn [snd] in Hc.
      assert (V : visit keep dir (found ++ acc) (entry, child)
                  = found ++ visit keep dir acc (entry, child)).
      { unfold visit. cbn [fst snd]. destruct child as [c|es].
        - destruct (keep entry (dir ++ [entry])); [now rewrite app_assoc | reflexivity].
        - rewrite (Hc (dir ++ [entry]) (found ++ acc)), (Hc (dir ++ [entry]) acc).
          now rewrite app_assoc. }
      rewrite V. apply IHrest. }
    specialize (G found []). now rewrite app_nil_r in G.
Qed.

Lemma fold_visit keep dir entries : forall found,
  fold_left (visit keep dir) entries found
  = found ++ flat_map (visit keep dir []) entries.
Proof.
  induction entries as [|e rest IH]; intros found; cbn [fold_left flat_map].
  - now rewrite app_nil_r.
  - rewrite IH, app_assoc. f_equal.
    destruct e as [entry child]. unfold visit. cbn [fst snd].
    destruct child as [c|es].
    + destruct (keep entry (dir ++ [entry])); cbn [app]; [reflexivity | now rewrite app_nil_r].
    + apply walk_found.
Qed.

Lemma entry_named_In name entries child :
  entry_named name entries = Some child -> In (name, child) entries.
Proof.
  induction entries as [|[name' c] rest IH]; cbn; [discriminate|].
  destruct (String.eqb_spec name' name) as [->|N].
  - intros [= ->]. now left.
  - intros H. right. now apply IH.
Qed.

Lemma In_entry_named name entries child :
  NoDup (map fst entries) -> In (name, child) entries ->
  entry_named name entries = Some child.
Proof.
  induction entries as [|[name' c] rest IH]; cbn; [easy|].
  intros D [[= -> ->] | I].
  - now rewrite String.eqb_refl.
  - inversion D as [|? ? N D']; subst.
    destruct (String.eqb_spec name' name) as [->|_].
    + exfalso. apply N. change name with (fst (name, child)). now apply in_map.
    + now apply IH.
Qed.

Lemma distinct_names_dir entries :
  distinct_names (Dir entries) <->
  NoDup (map fst entries) /\ Forall (fun e => distinct_names (snd e)) entries.
Proof.
  cbn [distinct_names].
  assert (A : forall es : list (string * node),
             (fix all (entries : list (string * node)) : Prop :=
                match entries with
                | [] => True
                | (_, child) :: rest => distinct_names child /\ all rest
                end) es <-> Forall (fun e => distinct_names (snd e)) es).
  { induction es as [|[name child] rest IH].
    - split; [constructor | easy].
    - rewrite IH. split.
      + intros [H1 H2]. now constructor.
      + intros H. inversion H; subst. now split. }
  now rewrite A.
Qed.

(** The walk lists exactly the entries below [dir] that are not
    directories and that [keep] accepts. *)
Lemma walk_In keep : forall n dir p,
  distinct_names n ->
  (In p (walk keep dir n []) <->
   exists q name content,
     p = dir ++ q ++ [name] /\
     lookup (q ++ [name]) n = Some (File content) /\
     keep name p = true).
Proof.
  induction n as [content | entries IH] using node_induction; intros dir p W.
  - cbn [walk In]. split; [easy|]. intros (q & name & c & _ & L & _).
    destruct q; discriminate.
  - apply distinct_names_dir in W. destruct W as [D Wc].
    rewrite walk_dir, fold_visit. cbn [app]. rewrite in_flat_map. split.
    + intros ([entry child] & I & V). unfold visit in V. cbn [fst snd] in V.
      pose proof (In_entry_named _ _ _ D I) as E.
      destruct child as [c|es].
      * destruct (keep entry (dir ++ [entry])) eqn:K; [|easy].
        destruct V as [<- | []]. exists [], entry, c. cbn [app lookup].
        rewrite E. auto.
      * rewrite Forall_forall in IH, Wc.
        apply (IH _ I (dir ++ [entry]) p (Wc _ I)) in V.
        destruct V as (q & name & c & -> & L & K).
        exists (entry :: q), name, c. rewrite <- !app_assoc. cbn [app lookup].
        rewrite E. rewrite <- !app_assoc in K. auto.
    + intros (q & name & c & -> & L & K). destruct q as [|entry q]; cbn [app lookup] in L.
      * destruct (entry_named name entries) as [child|] eqn:E; [|discriminate].
        injection L as ->. exists (name, File c). split; [now apply entry_named_In|].
        unfold visit. cbn [fst snd app] in *. rewrite K. now left.
      * destruct (entry_named entry entries) as [child|] eqn:E; [|discriminate].
        pose proof (entry_named_In _ _ _ E) as I.
        exists (entry, child). split; [assumption|].
        unfold visit. cbn [fst snd].
        destruct child as [c'|es]; [destruct q; discriminate|].
        rewrite Forall_forall in IH, Wc.
        apply (IH _ I (dir ++ [entry]) _ (Wc _ I)).
        exists q, name, c. rewrite <- !app_assoc. cbn [app] in *. auto.
Qed.

(** Every path listed lies below [dir], and none is listed twice. *)
Lemma walk_below keep : forall n dir p,
  In p (walk keep dir n []) -> exists q, p = dir ++ q.
Proof.
  induction n as [content | entries IH] using node_induction; intros dir p I; [destruct I|].
  rewrite walk_dir, fold_visit in I. cbn [app] in I.
  apply in_flat_map in I. destruct I as ([entry child] & I & V).
  unfold visit in V. cbn [fst snd] in V. destruct child as [c | es].
  - destruct (keep entry (dir ++ [entry])); [|destruct V].
    destruct V as [<- | []]. eauto.
  - rewrite Forall_forall in IH. destruct (IH _ I _ _ V) as [q ->].
    exists ([entry] ++ q). now rewrite app_assoc.
Qed.

Lemma visit_below keep dir entry child p :
  In p (visit keep dir [] (entry, child)) -> exists q, p = dir ++ entry :: q.
Proof.
  unfold visit. cbn [fst snd]. destruct child as [c | es].
  - destruct (keep entry (dir ++ [entry])); [|intros []].
    intros [<- | []]. now exists [].
  - intros V. destruct (walk_below _ _ _ _ V) as [q ->].
    exists q. now rewrite <- app_assoc.
Qed.

Lemma walk_NoDup keep : forall n dir, distinct_names n -> NoDup (walk keep dir n []).
Proof.
  induction n as [content | entries IH] using node_induction; intros dir D; [constructor|].
  rewrite walk_dir, fold_visit. cbn [app].
  apply distinct_names_dir in D. destruct D as [N A]. revert N A.
  induction IH as [|[entry child] rest Hc _ IHrest]; intros N A; cbn [flat_map];
    [constructor|].
  cbn [map fst] in N. inversion N as [|? ? Fresh N']; subst.
  inversion A as [|? ? Dc A']; subst. cbn [snd] in Hc, Dc.
  apply NoDup_app.
  - unfold visit. cbn [fst snd]. destruct child as [c | es].
    + destruct (keep entry (dir ++ [entry])); repeat constructor. intros [].
    + now apply Hc.
  - now apply IHrest.
  - intros p I1 I2. apply visit_below in I1. destruct I1 as [q ->].
    apply in_flat_map in I2. destruct I2 as ([entry' child'] & I' & I2).
    apply visit_below in I2. destruct I2 as [q' E].
    apply app_inv_head in E. injection E as -> _.
    apply Fresh. change entry' with (fst (entry', child')). now apply in_map.
Qed.

(** *** Writing a file *)

Lemma entry_named_app name front back :
  entry_named name (front ++ back)
  = match entry_named name front with
    | Some child => Some child
    | None => entry_named name back
    end.
Proof.
  induction front as [|[name' c] front IH]; cbn; [reflexivity|].
  now destruct (String.eqb name' name).
Qed.

Lemma entry_named_split name entries child :
  entry_named name entries = Some child ->
  exists front back,
    entries = front ++ (name, child) :: back /\ entry_named name front = None.
Proof.
  induction entries as [|[name' c] rest IH]; cbn; [discriminate|].
  destruct (String.eqb_spec name' name) as [->|N].
  - intros [= ->]. now exists [], rest.
  - intros H. destruct (IH H) as (front & back & -> & F).
    exists ((name', c) :: front), back. cbn.
    destruct (String.eqb_spec name' name); [contradiction | auto].
Qed.

Lemma entry_named_None name entries :
  entry_named name entries = None <-> ~ In name (map fst entries).
Proof.
  induction entries as [|[name' c] rest IH]; cbn; [tauto|].
  destruct (String.eqb_spec name' name) as [->|N].
  - split; [discriminate | intros H; exfalso; auto].
  - rewrite IH. tauto.
Qed.

Lemma entry_named_at name front child back :
  entry_named name front = None ->
  entry_named name (front ++ (name, child) :: back) = Some child.
Proof.
  intros F. rewrite entry_named_app, F. cbn. now rewrite String.eqb_refl.
Qed.

Lemma entry_named_off name other front child back :
  other <> name ->
  entry_named other (front ++ (name, child) :: back) = entry_named other (front ++ back).
Proof.
  intros N. rewrite !entry_named_app. cbn.
  destruct (String.eqb_spec name other); [congruence | reflexivity].
Qed.

Lemma place_found name write absent front child back :
  entry_named name front = None ->
  place name write absent (front ++ (name, child) :: back)
  = rbind (write child) (fun child' => Ok (front ++ (name, child') :: back)).
Proof.
  induction front as [|[name' c] front IH]; cbn; intros F.
  - now rewrite String.eqb_refl.
  - destruct (String.eqb name' name); [discriminate|].
    rewrite (IH F). now destruct (write child).
Qed.

Lemma place_absent name write absent entries :
  entry_named name entries = None ->
  place name write absent entries = rbind absent (fun added => Ok (entries ++ added)).
Proof.
  induction entries as [|[name' c] rest IH]; cbn; intros F.
  - now destruct absent.
  - destruct (String.eqb name' name); [discriminate|].
    rewrite (IH F). now destruct absent.
Qed.

Lemma write_found name rest content front child back :
  entry_named name front = None ->
  writeFileSync (name :: rest) content (Dir (front ++ (name, child) :: back))
  = rbind (writeFileSync rest content child)
          (fun child' => Ok (Dir (front ++ (name, child') :: back))).
Proof.
  intros F. cbn [writeFileSync]. rewrite (place_found _ _ _ _ _ _ F).
  now destruct (writeFileSync rest content child).
Qed.

Lemma write_absent name rest content entries :
  entry_named name entries = None ->
  writeFileSync (name :: rest) content (Dir entries)
  = match rest with
    | [] => Ok (Dir (entries ++ [(name, File content)]))
    | _ :: _ => Throw "ENOENT: no such file or directory, open"%string
    end.
Proof.
  intros F. cbn [writeFileSync]. rewrite (place_absent _ _ _ _ F).
  now destruct rest.
Qed.

(** The ways a write to a path that leads nowhere can go. *)
Lemma write_cases name rest content entries n' :
  lookup (name :: rest) (Dir entries) = None ->
  writeFileSync (name :: rest) content (Dir entries) = Ok n' ->
  (exists front child back child',
     entries = front ++ (name, child) :: back /\ entry_named name front = None /\
     lookup rest child = None /\ writeFileSync rest content child = Ok child' /\
     n' = Dir (front ++ (name, child') :: back)) \/
  (entry_named name entries = None /\ rest = [] /\
   n' = Dir (entries ++ [(name, File content)])).
Proof.
  cbn [lookup]. destruct (entry_named name entries) as [child|] eqn:E; intros L W.
  - left. destruct (entry_named_split _ _ _ E) as (front & back & -> & F).
    rewrite (write_found _ _ _ _ _ _ F) in W.
    destruct (writeFileSync rest content child) as [child'|] eqn:Wc; [|discriminate].
    injection W as <-. now exists front, child, back, child'.
  - right. rewrite (write_absent _ _ _ _ E) in W.
    destruct rest; [|discriminate]. injection W as <-. auto.
Qed.

Lemma write_new_is_below content : forall p n n',
  lookup p n = None -> writeFileSync p content n = Ok n' ->
  exists entries entries', n = Dir entries /\ n' = Dir entries'.
Proof.
  intros [|name rest] n n' L W; [discriminate|].
  destruct n as [c|entries]; [discriminate|].
  destruct (write_cases _ _ _ _ _ L W) as
    [(front & child & back & child' & -> & _ & _ & _ & ->) | (_ & _ & ->)]; eauto.
Qed.

(** What was there before a write to a new path is there after it. *)
Lemma write_lookup_forward content : forall p n n' root m,
  lookup p n = None -> writeFileSync p content n = Ok n' -> lookup root n = Some m ->
  lookup root n' = Some m \/
  exists r m', p = root ++ r /\ lookup r m = None /\
               writeFileSync r content m = Ok m' /\ lookup root n' = Some m'.
Proof.
  induction p as [|name rest IH]; intros n n' root m L W R; [discriminate|].
  destruct n as [c|entries]; [discriminate|].
  destruct root as [|rn rr].
  { injection R as <-. right. now exists (name :: rest), n'. }
  destruct (write_cases _ _ _ _ _ L W) as
    [(front & child & back & child' & -> & F & Lc & Wc & ->) | (E & -> & ->)].
  - destruct (String.eqb_spec rn name) as [->|N].
    + cbn [lookup] in R |- *. rewrite (entry_named_at _ _ _ _ F) in R.
      destruct (IH _ _ _ _ Lc Wc R) as [K | (r & m' & -> & Lr & Wr & K)].
      * left. now rewrite (entry_named_at _ _ _ _ F).
      * right. exists r, m'. now rewrite (entry_named_at _ _ _ _ F).
    + left. cbn [lookup] in R |- *.
      rewrite (entry_named_off _ _ _ child _ N) in R.
      rewrite (entry_named_off _ _ _ child' _ N). assumption.
  - left. cbn [lookup] in R |- *. rewrite entry_named_app.
    destruct (entry_named rn entries); [assumption | discriminate].
Qed.

(** What is there after a write to a new path is the new file or was
    there before. *)
Lemma write_lookup_backward content : forall p n n' q m',
  lookup p n = None -> writeFileSync p content n = Ok n' -> lookup q n' = Some m' ->
  (q = p /\ m' = File content) \/ exists m, lookup q n = Some m.
Proof.
  induction p as [|name rest IH]; intros n n' q m' L W Q; [discriminate|].
  destruct n as [c|entries]; [discriminate|].
  destruct q as [|qn qr]; [right; now exists (Dir entries)|].
  destruct (write_cases _ _ _ _ _ L W) as
    [(front & child & back & child' & -> & F & Lc & Wc & ->) | (E & -> & ->)].
  - destruct (String.eqb_spec qn name) as [->|N].
    + cbn [lookup] in Q |- *. rewrite (entry_named_at _ _ child' _ F) in Q.
      rewrite (entry_named_at _ _ child _ F).
      destruct (IH _ _ _ _ Lc Wc Q) as [[-> ->] | K]; auto.
    + right. cbn [lookup] in Q |- *.
      rewrite (entry_named_off _ _ _ child' _ N) in Q.
      rewrite (entry_named_off _ _ _ child _ N).
      destruct (entry_named qn (front ++ back)); [eauto | discriminate].
  - cbn [lookup] in Q |- *. rewrite entry_named_app in Q.
    destruct (entry_named qn entries) as [child|] eqn:Eq; [right; eauto|].
    cbn in Q. destruct (String.eqb_spec name qn) as [->|N]; [|discriminate].
    destruct qr; [|discriminate]. injection Q as <-. now left.
Qed.

(** The path written leads to the file. *)
Lemma write_lookup_new content : forall p n n',
  lookup p n = None -> writeFileSync p content n = Ok n' ->
  lookup p n' = Some (File content).
Proof.
  induction p as [|name rest IH]; intros n n' L W; [discriminate|].
  destruct n as [c|entries]; [discriminate|].
  destruct (write_cases _ _ _ _ _ L W) as
    [(front & child & back & child' & -> & F & Lc & Wc & ->) | (E & -> & ->)].
  - cbn [lookup]. rewrite (entry_named_at _ _ _ _ F). now apply IH with child.
  - cbn [lookup]. rewrite entry_named_app, E. cbn. now rewrite String.eqb_refl.
Qed.

(** A new file in a directory that is there can be written. *)
Lemma write_succeeds content : forall p n entries,
  p <> [] -> lookup p n = None -> lookup (removelast p) n = Some (Dir entries) ->
  exists n', writeFileSync p content n = Ok n'.
Proof.
  induction p as [|name rest IH]; intros n entries N L P; [contradiction|].
  destruct rest as [|name2 rest].
  - cbn in P. injection P as ->.
    cbn [lookup] in L. destruct (entry_named name entries) as [child|] eqn:E;
      [discriminate|].
    rewrite (write_absent _ _ _ _ E). eauto.
  - change (removelast (name :: name2 :: rest))
      with (name :: removelast (name2 :: rest)) in P.
    destruct n as [c|es]; [discriminate|].
    cbn [lookup] in L, P.
    destruct (entry_named name es) as [child|] eqn:E; [|discriminate].
    destruct (entry_named_split _ _ _ E) as (front & back & -> & F).
    rewrite (write_found _ _ _ _ _ _ F).
    destruct (IH child entries ltac:(discriminate) L P) as [child' ->].
    cbn. eauto.
Qed.

Lemma visit_flat keep dir entries found :
  walk keep dir (Dir entries) found = found ++ flat_map (visit keep dir []) entries.
Proof. now rewrite walk_dir, fold_visit. Qed.

(** A new file that the walk does not keep leaves the walk as it was. *)
Lemma write_walk keep content : forall p n n',
  (forall fp, keep (last p ""%string) fp = false) ->
  lookup p n = None -> writeFileSync p content n = Ok n' ->
  forall dir found, walk keep dir n' found = walk keep dir n found.
Proof.
  induction p as [|name rest IH]; intros n n' K L W dir found; [discriminate|].
  destruct n as [c|entries]; [discriminate|].
  destruct (write_cases _ _ _ _ _ L W) as
    [(front & child & back & child' & -> & F & Lc & Wc & ->) | (E & -> & ->)].
  - rewrite !visit_flat, !flat_map_app. cbn [flat_map]. do 3 f_equal.
    destruct (write_new_is_below _ _ _ _ Lc Wc) as (es & es' & -> & ->).
    unfold visit. cbn [fst snd].
    apply IH; try assumption.
    destruct rest; [discriminate | exact K].
  - rewrite !visit_flat, flat_map_app. cbn [flat_map]. unfold visit at 2. cbn [fst snd].
    cbn in K. rewrite K. now rewrite !app_nil_r.
Qed.

Lemma Forall_middle {A} (P : A -> Prop) front x back :
  Forall P (front ++ x :: back) <-> P x /\ Forall P (front ++ back).
Proof.
  rewrite !Forall_app, Forall_cons_iff. tauto.
Qed.

(** Distinct names stay distinct. *)
Lemma write_distinct content : forall p n n',
  distinct_names n -> lookup p n = None -> writeFileSync p content n = Ok n' ->
  distinct_names n'.
Proof.
  induction p as [|name rest IH]; intros n n' D L W; [discriminate|].
  destruct n as [c|entries]; [discriminate|].
  destruct (write_cases _ _ _ _ _ L W) as
    [(front & child & back & child' & -> & F & Lc & Wc & ->) | (E & -> & ->)];
    apply distinct_names_dir in D; apply distinct_names_dir; destruct D as [N A].
  - split.
    + rewrite map_app in N |- *. exact N.
    + apply Forall_middle in A. apply Forall_middle. cbn [snd] in *.
      split; [|tauto]. apply (IH child); tauto.
  - split.
    + rewrite map_app. cbn. apply NoDup_app; [assumption | repeat constructor; easy |].
      intros a I [<- | []]. now apply entry_named_None in E.
    + apply Forall_app. split; [assumption|]. repeat constructor.
Qed.

Lemma lookup_app : forall p q n,
  lookup (p ++ q) n = match lookup p n with
                      | Some m => lookup q m
                      | None => None
                      end.
Proof.
  induction p as [|name rest IH]; intros q n; [reflexivity|].
  cbn [app lookup]. destruct n as [c|entries]; [reflexivity|].
  destruct (entry_named name entries); [apply IH | reflexivity].
Qed.

Lemma lookup_distinct : forall p n m,
  distinct_names n -> lookup p n = Some m -> distinct_names m.
Proof.
  induction p as [|name rest IH]; intros n m D L.
  - now injection L as <-.
  - destruct n as [c|entries]; [discriminate|]. cbn [lookup] in L.
    destruct (entry_named name entries) as [child|] eqn:E; [|discriminate].
    apply (IH child); [|assumption].
    apply distinct_names_dir in D. destruct D as [_ A].
    rewrite Forall_forall in A. apply (A (name, child)). now apply entry_named_In.
Qed.

(** Distinct names in a tree that is written out. *)
Ltac names_distinct :=
  cbn; repeat match goal with
              | |- _ /\ _ => split
              | |- NoDup _ => constructor
              | |- ~ _ => cbn; intuition discriminate
              | |- True => exact I
              end.

End FsFacts.

(** ** Facts about the generation of the benchmark pages *)

Module TemplateFacts.

Import JS Fs FsFacts.
Local Open Scope string_scope.
Local Open Scope list_scope.

Lemma same_listing_refl m : same_listing m m.
Proof. split; [destruct m; eauto | reflexivity]. Qed.

Lemma same_listing_trans a b c :
  same_listing a b -> same_listing b c -> same_listing a c.
Proof.
  intros [K1 W1] [K2 W2]. split.
  - destruct a as [content | entries].
    + subst b. exact K2.
    + destruct K1 as [entries' ->]. exact K2.
  - intros dir found. now rewrite W2, W1.
Qed.

Lemma keeps_refl fs : keeps fs fs.
Proof. intros q m L. exists m. split; [assumption | apply same_listing_refl]. Qed.

Lemma keeps_trans a b c : keeps a b -> keeps b c -> keeps a c.
Proof.
  intros K1 K2 q m L. destruct (K1 _ _ L) as (m1 & L1 & S1).
  destruct (K2 _ _ L1) as (m2 & L2 & S2). exists m2. split; [assumption|].
  now apply same_listing_trans with m1.
Qed.

Lemma keeps_file fs fs' q content :
  keeps fs fs' -> lookup q fs = Some (File content) -> lookup q fs' = Some (File content).
Proof. intros K L. destruct (K _ _ L) as (m' & L' & [-> _]). exact L'. Qed.

Lemma keeps_dir fs fs' q entries :
  keeps fs fs' -> lookup q fs = Some (Dir entries) ->
  exists entries', lookup q fs' = Some (Dir entries').
Proof. intros K L. destruct (K _ _ L) as (m' & L' & [[entries' ->] _]). eauto. Qed.

Lemma keeps_exists fs fs' q :
  keeps fs fs' -> existsSync q fs = true -> existsSync q fs' = true.
Proof.
  unfold existsSync. intros K. destruct (lookup q fs) as [m|] eqn:L; [|discriminate].
  destruct (K _ _ L) as (m' & -> & _). reflexivity.
Qed.

Lemma keeps_index fs fs' root found indexFiles :
  keeps fs fs' -> findIndexModules fs root found = Ok indexFiles ->
  findIndexModules fs' root found = Ok indexFiles.
Proof.
  unfold findIndexModules, readable. intros K.
  destruct (lookup root fs) as [[content | entries]|] eqn:L; try discriminate.
  destruct (K _ _ L) as (m' & -> & [[entries' ->] W]). cbn [rbind]. now rewrite W.
Qed.

Lemma last_below {A} (q r : list A) d : r <> [] -> last (q ++ r) d = last r d.
Proof.
  intros N. induction q as [|a q IH]; [reflexivity|].
  cbn [app]. destruct (q ++ r) eqn:E; [|exact IH].
  destruct q; [cbn in E; congruence | discriminate].
Qed.

Lemma write_keeps page template fs fs' :
  String.eqb (last page "") "index.mjs" = false ->
  lookup page fs = None -> writeFileSync page template fs = Ok fs' -> keeps fs fs'.
Proof.
  intros N L W q m Lq.
  destruct (write_lookup_forward _ _ _ _ _ _ L W Lq) as [K | (r & m' & -> & Lr & Wr & K)].
  - exists m. split; [assumption | apply same_listing_refl].
  - exists m'. split; [assumption|]. split.
    + destruct (write_new_is_below _ _ _ _ Lr Wr) as (es & es' & -> & ->). eauto.
    + intros dir found. rewrite !findIndexModules_in_walk.
      apply (write_walk index_module template r); try assumption.
      intros fp. unfold index_module.
      rewrite last_below in N; [exact N | intros ->; discriminate].
Qed.

(** One page: it is left alone when it is there and written when not. *)
Lemma ensurePage_cases page template fs fs' :
  ensurePage page template fs = Ok fs' ->
  (fs' = fs /\ exists m, lookup page fs = Some m) \/
  (lookup page fs = None /\ writeFileSync page template fs = Ok fs').
Proof.
  unfold ensurePage, existsSync. destruct (lookup page fs) as [m|].
  - intros [= <-]. left. eauto.
  - intros W. now right.
Qed.

Lemma ensurePage_keeps page template fs fs' :
  String.eqb (last page "") "index.mjs" = false ->
  ensurePage page template fs = Ok fs' -> keeps fs fs'.
Proof.
  intros N E. destruct (ensurePage_cases _ _ _ _ E) as [[-> _] | [L W]].
  - apply keeps_refl.
  - now apply write_keeps with page template.
Qed.

Lemma ensurePage_exists page template fs fs' :
  ensurePage page template fs = Ok fs' -> existsSync page fs' = true.
Proof.
  intros E. unfold existsSync.
  destruct (ensurePage_cases _ _ _ _ E) as [[-> [m ->]] | [L W]]; [reflexivity|].
  now rewrite (write_lookup_new _ _ _ _ L W).
Qed.

Lemma ensurePage_new page template fs fs' :
  ensurePage page template fs = Ok fs' -> lookup page fs = None ->
  lookup page fs' = Some (File template).
Proof.
  intros E L. destruct (ensurePage_cases _ _ _ _ E) as [[-> [m L']] | [_ W]].
  - congruence.
  - now apply write_lookup_new with fs.
Qed.

Lemma ensurePage_backward page template fs fs' q m' :
  ensurePage page template fs = Ok fs' -> lookup q fs' = Some m' ->
  (q = page /\ m' = File template /\ lookup page fs = None) \/
  exists m, lookup q fs = Some m.
Proof.
  intros E Q. destruct (ensurePage_cases _ _ _ _ E) as [[-> _] | [L W]]; [eauto|].
  destruct (write_lookup_backward _ _ _ _ _ _ L W Q) as [[-> ->] | K]; auto.
Qed.

Lemma ensurePage_succeeds page template fs entries :
  page <> [] -> lookup (dirname page) fs = Some (Dir entries) ->
  exists fs', ensurePage page template fs = Ok fs'.
Proof.
  intros N D. unfold ensurePage, existsSync.
  destruct (lookup page fs) as [m|] eqn:L; [eauto|].
  now apply write_succeeds with entries.
Qed.

Lemma ensurePage_distinct page template fs fs' :
  distinct_names fs -> ensurePage page template fs = Ok fs' -> distinct_names fs'.
Proof.
  intros D E. destruct (ensurePage_cases _ _ _ _ E) as [[-> _] | [L W]]; [assumption|].
  now apply write_distinct with template page fs.
Qed.

Lemma local_not_index (dir : path) :
  String.eqb (last (dir ++ ["local.html"]) "") "index.mjs" = false.
Proof. now rewrite last_last. Qed.

Lemma dev_not_index (dir : path) :
  String.eqb (last (dir ++ ["dev.html"]) "") "index.mjs" = false.
Proof. now rewrite last_last. Qed.

(** The two steps of one turn of the loop. *)
Lemma ensureEach_cons indexPath rest localHTML devHTML fs fs' :
  ensureEach (indexPath :: rest) localHTML devHTML fs = Ok fs' ->
  exists fs1 fs2,
    ensurePage (dirname indexPath ++ ["local.html"]) localHTML fs = Ok fs1 /\
    ensurePage (dirname indexPath ++ ["dev.html"]) devHTML fs1 = Ok fs2 /\
    ensureEach rest localHTML devHTML fs2 = Ok fs'.
Proof.
  cbn [ensureEach].
  destruct (ensurePage (dirname indexPath ++ ["local.html"]) localHTML fs) as [fs1|]
    eqn:E1; [|discriminate]. cbn [rbind].
  destruct (ensurePage (dirname indexPath ++ ["dev.html"]) devHTML fs1) as [fs2|]
    eqn:E2; [|discriminate]. cbn [rbind]. intros E3. now exists fs1, fs2.
Qed.

Lemma ensureEach_keeps localHTML devHTML : forall indexFiles fs fs',
  ensureEach indexFiles localHTML devHTML fs = Ok fs' -> keeps fs fs'.
Proof.
  induction indexFiles as [|indexPath rest IH]; intros fs fs' E.
  - injection E as <-. apply keeps_refl.
  - destruct (ensureEach_cons _ _ _ _ _ _ E) as (fs1 & fs2 & E1 & E2 & E3).
    apply keeps_trans with fs1; [|apply keeps_trans with fs2].
    + apply (ensurePage_keeps _ _ _ _ (local_not_index _) E1).
    + apply (ensurePage_keeps _ _ _ _ (dev_not_index _) E2).
    + now apply IH.
Qed.

Lemma ensureEach_pages localHTML devHTML : forall indexFiles fs fs',
  ensureEach indexFiles localHTML devHTML fs = Ok fs' ->
  forall indexPath, In indexPath indexFiles ->
  existsSync (dirname indexPath ++ ["local.html"]) fs' = true /\
  existsSync (dirname indexPath ++ ["dev.html"]) fs' = true.
Proof.
  induction indexFiles as [|first rest IH]; intros fs fs' E indexPath I; [destruct I|].
  destruct (ensureEach_cons _ _ _ _ _ _ E) as (fs1 & fs2 & E1 & E2 & E3).
  destruct I as [<- | I]; [|now apply (IH fs2)].
  pose proof (ensureEach_keeps _ _ _ _ _ E3) as K3.
  pose proof (ensurePage_keeps _ _ _ _ (dev_not_index _) E2) as K2.
  split.
  - apply (keeps_exists _ _ _ K3), (keeps_exists _ _ _ K2).
    now apply ensurePage_exists with localHTML fs.
  - apply (keeps_exists _ _ _ K3). now apply ensurePage_exists with devHTML fs1.
Qed.

(** A path that is missing or holds [template], and that only [template]
    is written to, is missing or holds [template] after the step. *)
Lemma ensurePage_holds page written fs fs' target template :
  (page = target -> written = template) ->
  ensurePage page written fs = Ok fs' ->
  lookup target fs = None \/ lookup target fs = Some (File template) ->
  lookup target fs' = None \/ lookup target fs' = Some (File template).
Proof.
  intros T E [L | L].
  - destruct (lookup target fs') as [m'|] eqn:L'; [|now left].
    destruct (ensurePage_backward _ _ _ _ _ _ E L') as [(-> & -> & _) | [m K]];
      [|congruence].
    right. now rewrite T.
  - right. destruct (ensurePage_cases _ _ _ _ E) as [[-> _] | [L0 W]]; [assumption|].
    destruct (write_lookup_forward _ _ _ _ _ _ L0 W L)
      as [K | (r & m' & _ & Lr & Wr & _)]; [assumption|].
    destruct r; discriminate.
Qed.

Lemma pages_differ (dir dir' : path) : dir ++ ["local.html"] <> dir' ++ ["dev.html"].
Proof. intros E. apply app_inj_tail in E. destruct E as [_ E]. discriminate. Qed.

Lemma ensureEach_holds localHTML devHTML target template :
  (forall dir, dir ++ ["local.html"] = target -> localHTML = template) ->
  (forall dir, dir ++ ["dev.html"] = target -> devHTML = template) ->
  forall indexFiles fs fs',
  ensureEach indexFiles localHTML devHTML fs = Ok fs' ->
  lookup target fs = None \/ lookup target fs = Some (File template) ->
  lookup target fs' = None \/ lookup target fs' = Some (File template).
Proof.
  intros TL TD. induction indexFiles as [|first rest IH]; intros fs fs' E H.
  - now injection E as <-.
  - destruct (ensureEach_cons _ _ _ _ _ _ E) as (fs1 & fs2 & E1 & E2 & E3).
    apply (IH fs2); [assumption|].
    apply (ensurePage_holds _ _ _ _ _ _ (TD _) E2).
    apply (ensurePage_holds _ _ _ _ _ _ (TL _) E1). exact H.
Qed.

Lemma ensureEach_templates localHTML devHTML indexFiles fs fs' indexPath :
  ensureEach indexFiles localHTML devHTML fs = Ok fs' ->
  In indexPath indexFiles ->
  (lookup (dirname indexPath ++ ["local.html"]) fs = None ->
   lookup (dirname indexPath ++ ["local.html"]) fs' = Some (File localHTML)) /\
  (lookup (dirname indexPath ++ ["dev.html"]) fs = None ->
   lookup (dirname indexPath ++ ["dev.html"]) fs' = Some (File devHTML)).
Proof.
  intros E I. destruct (ensureEach_pages _ _ _ _ _ E _ I) as [XL XD].
  unfold existsSync in XL, XD. split; intros L.
  - destruct (ensureEach_holds localHTML devHTML
                (dirname indexPath ++ ["local.html"]) localHTML) with (3 := E)
      as [K | K]; auto.
    + intros dir D. exfalso. symmetry in D. revert D. apply pages_differ.
    + now rewrite K in XL.
  - destruct (ensureEach_holds localHTML devHTML
                (dirname indexPath ++ ["dev.html"]) devHTML) with (3 := E)
      as [K | K]; auto.
    + intros dir D. exfalso. revert D. apply pages_differ.
    + now rewrite K in XD.
Qed.

(** Whatever is there after the loop was there before it or is one of the
    pages, with its template. *)
Lemma ensureEach_only localHTML devHTML : forall indexFiles fs fs' q m',
  ensureEach indexFiles localHTML devHTML fs = Ok fs' ->
  lookup q fs' = Some m' ->
  (exists m, lookup q fs = Some m) \/
  exists indexPath, In indexPath indexFiles /\
    ((q = dirname indexPath ++ ["local.html"] /\ m' = File localHTML) \/
     (q = dirname indexPath ++ ["dev.html"] /\ m' = File devHTML)).
Proof.
  induction indexFiles as [|first rest IH]; intros fs fs' q m' E Q.
  - injection E as <-. eauto.
  - destruct (ensureEach_cons _ _ _ _ _ _ E) as (fs1 & fs2 & E1 & E2 & E3).
    pose proof (ensureEach_keeps _ _ _ _ _ E3) as K3.
    pose proof (ensurePage_keeps _ _ _ _ (dev_not_index _) E2) as K2.
    destruct (IH _ _ _ _ E3 Q) as [[m2 Q2] | (indexPath & I & H)].
    2:{ right. exists indexPath. split; [now right | assumption]. }
    destruct (ensurePage_backward _ _ _ _ _ _ E2 Q2) as [(-> & -> & _) | [m1 Q1]].
    { right. exists first. split; [now left|]. right. split; [reflexivity|].
      apply (keeps_file _ _ _ _ K3) in Q2. congruence. }
    destruct (ensurePage_backward _ _ _ _ _ _ E1 Q1) as [(-> & -> & _) | [m0 Q0]].
    { right. exists first. split; [now left|]. left. split; [reflexivity|].
      apply (keeps_file _ _ _ _ K2), (keeps_file _ _ _ _ K3) in Q1. congruence. }
    left. eauto.
Qed.

Lemma ensureEach_succeeds localHTML devHTML : forall indexFiles fs,
  (forall indexPath, In indexPath indexFiles ->
   exists entries, lookup (dirname indexPath) fs = Some (Dir entries)) ->
  exists fs', ensureEach indexFiles localHTML devHTML fs = Ok fs'.
Proof.
  induction indexFiles as [|first rest IH]; intros fs D; [cbn; eauto|].
  destruct (D first (or_introl eq_refl)) as [entries L].
  assert (P : forall name, removelast (dirname first ++ [name]) = dirname first)
    by (intros name; apply removelast_last).
  destruct (ensurePage_succeeds (dirname first ++ ["local.html"]) localHTML fs entries)
    as [fs1 E1]; [now destruct (dirname first) | unfold dirname at 1; now rewrite P |].
  pose proof (ensurePage_keeps _ _ _ _ (local_not_index _) E1) as K1.
  destruct (keeps_dir _ _ _ _ K1 L) as [entries1 L1].
  destruct (ensurePage_succeeds (dirname first ++ ["dev.html"]) devHTML fs1 entries1)
    as [fs2 E2]; [now destruct (dirname first) | unfold dirname at 1; now rewrite P |].
  pose proof (ensurePage_keeps _ _ _ _ (dev_not_index _) E2) as K2.
  destruct (IH fs2) as [fs' E3].
  { intros indexPath I. destruct (D indexPath (or_intror I)) as [es Li].
    destruct (keeps_dir _ _ _ _ K1 Li) as [es1 Li1].
    apply (keeps_dir _ _ _ _ K2 Li1). }
  exists fs'. cbn [ensureEach]. rewrite E1. cbn [rbind]. rewrite E2. exact E3.
Qed.

(** With every page there the loop writes nothing. *)
Lemma ensureEach_fixed localHTML devHTML : forall indexFiles fs,
  (forall indexPath, In indexPath indexFiles ->
   existsSync (dirname indexPath ++ ["local.html"]) fs = true /\
   existsSync (dirname indexPath ++ ["dev.html"]) fs = true) ->
  ensureEach indexFiles localHTML devHTML fs = Ok fs.
Proof.
  induction indexFiles as [|first rest IH]; intros fs X; [reflexivity|].
  destruct (X first (or_introl eq_refl)) as [XL XD].
  cbn [ensureEach]. unfold ensurePage. rewrite XL. cbn [rbind]. rewrite XD. cbn [rbind].
  apply IH. intros indexPath I. apply X. now right.
Qed.

Lemma ensureEach_distinct localHTML devHTML : forall indexFiles fs fs',
  distinct_names fs -> ensureEach indexFiles localHTML devHTML fs = Ok fs' ->
  distinct_names fs'.
Proof.
  induction indexFiles as [|first rest IH]; intros fs fs' D E.
  - now injection E as <-.
  - destruct (ensureEach_cons _ _ _ _ _ _ E) as (fs1 & fs2 & E1 & E2 & E3).
    apply (IH fs2); [|assumption].
    apply (ensurePage_distinct _ _ _ _ (ensurePage_distinct _ _ _ _ D E1) E2).
Qed.

(** The whole step: the index files are listed, and the loop runs over
    them. *)
Lemma ensure_cases benchmarkRoot localHTML devHTML fs fs' :
  ensureBenchmarkHtmlTemplates benchmarkRoot localHTML devHTML fs = Ok fs' ->
  exists indexFiles,
    findIndexModules fs benchmarkRoot [] = Ok indexFiles /\
    ensureEach indexFiles localHTML devHTML fs = Ok fs'.
Proof.
  unfold ensureBenchmarkHtmlTemplates.
  destruct (findIndexModules fs benchmarkRoot []) as [indexFiles|]; [|discriminate].
  cbn [rbind]. exists indexFiles. split; [reflexivity|]. now destruct indexFiles.
Qed.

Lemma ensure_loop benchmarkRoot localHTML devHTML fs indexFiles :
  findIndexModules fs benchmarkRoot [] = Ok indexFiles ->
  ensureBenchmarkHtmlTemplates benchmarkRoot localHTML devHTML fs
  = ensureEach indexFiles localHTML devHTML fs.
Proof.
  unfold ensureBenchmarkHtmlTemplates. intros ->. now destruct indexFiles.
Qed.

(** An index file lies in a directory. *)
Lemma index_in_directory fs benchmarkRoot indexFiles indexPath :
  distinct_names fs ->
  findIndexModules fs benchmarkRoot [] = Ok indexFiles -> In indexPath indexFiles ->
  exists entries, lookup (dirname indexPath) fs = Some (Dir entries).
Proof.
  unfold findIndexModules, readable. intros D.
  destruct (lookup benchmarkRoot fs) as [[c | entries]|] eqn:L; try discriminate.
  cbn [rbind]. intros [= <-] I.
  change (In indexPath (findIndexModules_in benchmarkRoot (Dir entries) [])) in I.
  rewrite findIndexModules_in_walk in I.
  apply walk_In in I; [|now apply lookup_distinct with benchmarkRoot fs].
  destruct I as (q & name & content & -> & F & _).
  unfold dirname. rewrite app_assoc, removelast_last.
  rewrite lookup_app, L. rewrite lookup_app in F.
  destruct (lookup q (Dir entries)) as [[c | es]|]; try discriminate. eauto.
Qed.

End TemplateFacts.

(** ** Properties of the discovery and the generation of the benchmark pages *)

Section Discovery.

Import JS Fs FsFacts TemplateFacts.
Local Open Scope string_scope.
Local Open Scope list_scope.

Lemma listing keep fs dir found entries :
  distinct_names fs -> lookup dir fs = Some (Dir entries) ->
  exists listed,
    walk keep dir (Dir entries) found = found ++ listed /\
    NoDup listed /\
    forall p, In p listed <->
      exists q name content,
        p = dir ++ q ++ [name] /\ lookup p fs = Some (File content) /\
        keep name p = true.
Proof.
  intros D L. pose proof (lookup_distinct _ _ _ D L) as De.
  exists (walk keep dir (Dir entries) []). split; [apply walk_found|].
  split; [now apply walk_NoDup|].
  intros p. rewrite (walk_In keep _ dir p De). split.
  - intros (q & name & c & -> & F & K). exists q, name, c.
    rewrite lookup_app, L. auto.
  - intros (q & name & c & -> & F & K). exists q, name, c.
    rewrite lookup_app, L in F. auto.
Qed.

Lemma pages_after benchmarkRoot localHTML devHTML fs fs' :
  ensureBenchmarkHtmlTemplates benchmarkRoot localHTML devHTML fs = Ok fs' ->
  exists indexFiles,
    findIndexModules fs benchmarkRoot [] = Ok indexFiles /\
    findIndexModules fs' benchmarkRoot [] = Ok indexFiles /\
    forall indexPath, In indexPath indexFiles ->
      existsSync (dirname indexPath ++ ["local.html"]) fs' = true /\
      existsSync (dirname indexPath ++ ["dev.html"]) fs' = true.
Proof.
  intros E. destruct (ensure_cases _ _ _ _ _ E) as (indexFiles & F & Each).
  exists indexFiles. split; [assumption|]. split.
  - exact (keeps_index fs fs' _ _ _ (ensureEach_keeps _ _ _ _ _ Each) F).
  - exact (ensureEach_pages _ _ _ _ _ Each).
Qed.

(** X1. [findRecursive(dir, fileList)] on a directory returns [fileList]
    followed by the paths of the files below [dir], at any depth, whose
    path ends in [.html]: each of them once, nothing else, and never a
    directory, whatever its name. *)
Theorem X1_findRecursive_lists_the_html_files fs dir fileList entries :
  distinct_names fs -> lookup dir fs = Some (Dir entries) ->
  exists pages,
    findRecursive fs dir fileList = Ok (fileList ++ pages) /\
    NoDup pages /\
    forall p, In p pages <->
      exists below name content,
        p = dir ++ below ++ [name] /\ lookup p fs = Some (File content) /\
        endsWith (render p) ".html" = true.
Proof.
  intros D L. destruct (listing html_page fs dir fileList entries D L) as (pages & W & N & I).
  exists pages. split; [|split; assumption].
  unfold findRecursive, readable. rewrite L. cbn [rbind].
  now rewrite findRecursive_in_walk, W.
Qed.

Lemma X1_witness :
  distinct_names FsExamples.checkout /\
  exists pages,
    findRecursive FsExamples.checkout FsExamples.benchmarks [] = Ok ([] ++ pages) /\
    NoDup pages.
Proof.
  assert (D : distinct_names FsExamples.checkout) by names_distinct.
  split; [exact D|].
  destruct (X1_findRecursive_lists_the_html_files FsExamples.checkout
              FsExamples.benchmarks [] _ D eq_refl) as (pages & R & N & _).
  exists pages. split; assumption.
Defined.

(** X2. [findIndexModules(dir, list)] on a directory returns [list]
    followed by the paths of the files named [index.mjs] below [dir], at
    any depth: each of them once and nothing else. *)
Theorem X2_findIndexModules_lists_the_entry_points fs dir found entries :
  distinct_names fs -> lookup dir fs = Some (Dir entries) ->
  exists indexFiles,
    findIndexModules fs dir found = Ok (found ++ indexFiles) /\
    NoDup indexFiles /\
    forall p, In p indexFiles <->
      exists below content,
        p = dir ++ below ++ ["index.mjs"] /\ lookup p fs = Some (File content).
Proof.
  intros D L.
  destruct (listing index_module fs dir found entries D L) as (indexFiles & W & N & I).
  exists indexFiles. split; [|split; [assumption|]].
  - unfold findIndexModules, readable. rewrite L. cbn [rbind].
    now rewrite findIndexModules_in_walk, W.
  - intros p. rewrite I. unfold index_module. split.
    + intros (q & name & c & -> & F & K). apply String.eqb_eq in K. subst name. eauto.
    + intros (q & c & -> & F). exists q, "index.mjs", c. auto.
Qed.

Lemma X2_witness :
  distinct_names FsExamples.checkout /\
  exists indexFiles,
    findIndexModules FsExamples.checkout FsExamples.benchmarks [] = Ok ([] ++ indexFiles) /\
    NoDup indexFiles.
Proof.
  assert (D : distinct_names FsExamples.checkout) by names_distinct.
  split; [exact D|].
  destruct (X2_findIndexModules_lists_the_entry_points FsExamples.checkout
              FsExamples.benchmarks [] _ D eq_refl) as (indexFiles & R & N & _).
  exists indexFiles. split; assumption.
Defined.

(** X3. [ensureBenchmarkHtmlTemplates] never overwrites: a file that is
    there before the step has the same content after it, and a path that
    exists before it exists after it. *)
Theorem X3_templates_overwrite_nothing benchmarkRoot localHTML devHTML fs fs' :
  ensureBenchmarkHtmlTemplates benchmarkRoot localHTML devHTML fs = Ok fs' ->
  forall q,
    (forall content, lookup q fs = Some (File content) ->
                     lookup q fs' = Some (File content)) /\
    (existsSync q fs = true -> existsSync q fs' = true).
Proof.
  intros E q. destruct (ensure_cases _ _ _ _ _ E) as (indexFiles & _ & Each).
  pose proof (ensureEach_keeps _ _ _ _ _ Each) as K. split.
  - intros content. now apply keeps_file.
  - now apply keeps_exists.
Qed.

Lemma X3_witness :
  exists fs',
    ensureBenchmarkHtmlTemplates FsExamples.benchmarks "local" "dev" FsExamples.checkout
    = Ok fs' /\
    lookup ["benchmarks"; "sprite"; "index.html"] fs' = Some (File "<html></html>").
Proof.
  eexists. split; [reflexivity|].
  exact (proj1 (X3_templates_overwrite_nothing FsExamples.benchmarks "local" "dev"
                  FsExamples.checkout _ eq_refl ["benchmarks"; "sprite"; "index.html"])
               _ eq_refl).
Defined.

(** X4. After [ensureBenchmarkHtmlTemplates] the second listing of the
    index files, from which the run builds its page list, is the list the
    step worked on, and beside every index file both [local.html] and
    [dev.html] exist. *)
Theorem X4_every_page_of_the_run_exists benchmarkRoot localHTML devHTML fs fs' :
  ensureBenchmarkHtmlTemplates benchmarkRoot localHTML devHTML fs = Ok fs' ->
  exists indexFiles,
    findIndexModules fs benchmarkRoot [] = Ok indexFiles /\
    findIndexModules fs' benchmarkRoot [] = Ok indexFiles /\
    forall indexPath, In indexPath indexFiles ->
      existsSync (dirname indexPath ++ ["local.html"]) fs' = true /\
      existsSync (dirname indexPath ++ ["dev.html"]) fs' = true.
Proof.
  apply pages_after.
Qed.

Lemma X4_witness :
  exists fs' indexFiles,
    ensureBenchmarkHtmlTemplates FsExamples.benchmarks "local" "dev" FsExamples.checkout
    = Ok fs' /\
    findIndexModules fs' FsExamples.benchmarks [] = Ok indexFiles.
Proof.
  eexists.
  destruct (X4_every_page_of_the_run_exists FsExamples.benchmarks "local" "dev"
              FsExamples.checkout _ eq_refl) as (indexFiles & _ & F & _).
  exists indexFiles. split; [reflexivity | exact F].
Defined.

(** X5. A page that is missing beside an index file is created with its
    own template: [local.html] with the local one, [dev.html] with the
    development one. *)
Theorem X5_missing_pages_get_their_template
  benchmarkRoot localHTML devHTML fs fs' indexFiles indexPath :
  ensureBenchmarkHtmlTemplates benchmarkRoot localHTML devHTML fs = Ok fs' ->
  findIndexModules fs benchmarkRoot [] = Ok indexFiles ->
  In indexPath indexFiles ->
  (lookup (dirname indexPath ++ ["local.html"]) fs = None ->
   lookup (dirname indexPath ++ ["local.html"]) fs' = Some (File localHTML)) /\
  (lookup (dirname indexPath ++ ["dev.html"]) fs = None ->
   lookup (dirname indexPath ++ ["dev.html"]) fs' = Some (File devHTML)).
Proof.
  intros E F I. rewrite (ensure_loop _ _ _ _ _ F) in E.
  exact (ensureEach_templates _ _ _ _ _ _ E I).
Qed.

Lemma X5_witness :
  exists fs',
    ensureBenchmarkHtmlTemplates FsExamples.benchmarks "local" "dev" FsExamples.checkout
    = Ok fs' /\
    lookup ["benchmarks"; "sprite"; "local.html"] fs' = Some (File "local") /\
    lookup ["benchmarks"; "sprite"; "dev.html"] fs' = Some (File "dev").
Proof.
  eexists. split; [reflexivity|].
  destruct (X5_missing_pages_get_their_template FsExamples.benchmarks "local" "dev"
              FsExamples.checkout _ _ ["benchmarks"; "sprite"; "index.mjs"]
              eq_refl eq_refl (or_introl eq_refl)) as [L D].
  split; [exact (L eq_refl) | exact (D eq_refl)].
Defined.

(** X6. [ensureBenchmarkHtmlTemplates] is idempotent: run on its own
    result it succeeds and changes nothing. *)
Theorem X6_templates_idempotent benchmarkRoot localHTML devHTML fs fs' :
  ensureBenchmarkHtmlTemplates benchmarkRoot localHTML devHTML fs = Ok fs' ->
  forall localHTML' devHTML',
    ensureBenchmarkHtmlTemplates benchmarkRoot localHTML' devHTML' fs' = Ok fs'.
Proof.
  intros E localHTML' devHTML'.
  destruct (pages_after benchmarkRoot localHTML devHTML fs fs' E)
    as (indexFiles & _ & F' & P).
  rewrite (ensure_loop _ _ _ _ _ F'). now apply ensureEach_fixed.
Qed.

Lemma X6_witness :
  exists fs',
    ensureBenchmarkHtmlTemplates FsExamples.benchmarks "local" "dev" FsExamples.checkout
    = Ok fs' /\
    ensureBenchmarkHtmlTemplates FsExamples.benchmarks "other" "other" fs' = Ok fs'.
Proof.
  eexists. split; [reflexivity|].
  exact (X6_templates_idempotent FsExamples.benchmarks "local" "dev"
           FsExamples.checkout _ eq_refl "other" "other").
Defined.

(** X7. [ensureBenchmarkHtmlTemplates] returns exactly when the benchmark
    root is a directory: it never fails on a page it has to write, and it
    throws what [readdirSync] throws when the root is missing or a
    file. *)
Theorem X7_templates_succeed_on_a_directory benchmarkRoot localHTML devHTML fs :
  distinct_names fs ->
  ((exists fs', ensureBenchmarkHtmlTemplates benchmarkRoot localHTML devHTML fs = Ok fs')
   <-> exists entries, lookup benchmarkRoot fs = Some (Dir entries)).
Proof.
  intros D. split.
  - intros [fs' E]. destruct (ensure_cases _ _ _ _ _ E) as (indexFiles & F & _).
    unfold findIndexModules, readable in F.
    destruct (lookup benchmarkRoot fs) as [[c | entries]|]; try discriminate. eauto.
  - intros [entries L].
    destruct (listing index_module fs benchmarkRoot [] entries D L) as (indexFiles & W & _).
    assert (F : findIndexModules fs benchmarkRoot [] = Ok indexFiles).
    { unfold findIndexModules, readable. rewrite L. cbn [rbind].
      now rewrite findIndexModules_in_walk, W. } rewrite (ensure_loop _ _ _ _ _ F).
    apply ensureEach_succeeds. intros indexPath I.
    exact (index_in_directory _ _ _ _ D F I).
Qed.

Lemma X7_witness :
  distinct_names FsExamples.checkout /\
  exists fs',
    ensureBenchmarkHtmlTemplates FsExamples.benchmarks "local" "dev" FsExamples.checkout
    = Ok fs'.
Proof.
  assert (D : distinct_names FsExamples.checkout) by names_distinct.
  split; [exact D|].
  apply (proj2 (X7_templates_succeed_on_a_directory FsExamples.benchmarks "local" "dev"
                  FsExamples.checkout D)).
  eexists. reflexivity.
Defined.

(** X8. [ensureBenchmarkHtmlTemplates] adds nothing but the pages: a path
    that exists after the step and did not before is [local.html] or
    [dev.html] beside one of the index files, and holds its template. *)
Theorem X8_templates_add_only_the_pages
  benchmarkRoot localHTML devHTML fs fs' q m' :
  ensureBenchmarkHtmlTemplates benchmarkRoot localHTML devHTML fs = Ok fs' ->
  lookup q fs' = Some m' -> lookup q fs = None ->
  exists indexFiles indexPath,
    findIndexModules fs benchmarkRoot [] = Ok indexFiles /\ In indexPath indexFiles /\
    ((q = dirname indexPath ++ ["local.html"] /\ m' = File localHTML) \/
     (q = dirname indexPath ++ ["dev.html"] /\ m' = File devHTML)).
Proof.
  intros E Q L. destruct (ensure_cases _ _ _ _ _ E) as (indexFiles & F & Each).
  destruct (ensureEach_only _ _ _ _ _ _ _ Each Q) as [[m K] | (indexPath & I & H)];
    [congruence|].
  now exists indexFiles, indexPath.
Qed.

Lemma X8_witness :
  exists fs' indexPath,
    ensureBenchmarkHtmlTemplates FsExamples.benchmarks "local" "dev" FsExamples.checkout
    = Ok fs' /\
    In indexPath [["benchmarks"; "sprite"; "index.mjs"]].
Proof.
  eexists.
  destruct (X8_templates_add_only_the_pages FsExamples.benchmarks "local" "dev"
              FsExamples.checkout _ ["benchmarks"; "sprite"; "dev.html"] (File "dev")
              eq_refl eq_refl eq_refl) as (indexFiles & indexPath & F & I & _).
  injection F as <-. exists indexPath. split; [reflexivity | exact I].
Defined.

End Discovery.

(** ** Facts about [try], [catch] and [finally] around a run *)

Module RunFacts.

Import JS Eff.

Section Generic.
Context {R : Type}.
Implicit Types (s : sink) (b : R) (w : world R).

Lemma close_server_closes w :
  close_server w
  = (Ok tt, {| server := false; browsers := browsers w; open_pages := open_pages w;
               failures := failures w; warnings := warnings w; output := output w;
               comments := comments w |}).
Proof. destruct w as [[|] ? ? ? ? ? ?]; reflexivity. Qed.

(** The thread after the comment step depends on the thread alone. *)
Lemma postComment_thread s b w w0 :
  comments w = comments w0 ->
  comments (snd (postComment s b w)) = comments (snd (postComment s b w0)).
Proof.
  unfold postComment, upsertComment, bind, may_fail, gets, throw, ret. intros E.
  destruct (token s && _); [|exact E].
  destruct (listComments_fails s); [exact E|]. cbn [fst snd]. rewrite E.
  destruct (find _ (listComments (comments w0))).
  - destruct (updateComment_fails s); [exact E | reflexivity].
  - destruct (createComment_fails s); [exact E | reflexivity].
Qed.

(** The comment step and the final signal, inside the outer [try]. *)
Lemma signal_caught s b (flag : bool) msg w :
  exists w',
    try_catch (bind (postComment s b) (fun _ => if flag then setFailed msg else ret tt))
              (fun msg => setFailed msg) w = (Ok tt, w') /\
    failures w'
    = failures w ++
      match sink_error s (comments w) with
      | Some m => [m]
      | None => if flag then [msg] else []
      end /\
    comments w' = comments (snd (postComment s b w)) /\
    server w' = server w /\ browsers w' = browsers w /\ open_pages w' = open_pages w /\
    output w' = output w.
Proof.
  pose proof (EffFacts.postComment_outcome s b w) as O.
  pose proof (EffFacts.postComment_frame s b w) as F. cbv zeta in F.
  unfold try_catch, bind. destruct (postComment s b w) as [r w1]. cbn [fst snd] in O, F |- *.
  destruct F as (F1 & F2 & F3 & F4 & F5 & F6).
  destruct (sink_error s (comments w)) as [m|]; subst r.
  - eexists. split; [reflexivity|]. cbn. rewrite F1. auto 10.
  - destruct flag.
    + eexists. split; [reflexivity|]. cbn. rewrite F1. auto 10.
    + eexists. split; [reflexivity|]. cbn. rewrite F1, app_nil_r. auto 10.
Qed.

(** A run whose [catch] reports and whose [finally] closes the server:
    it returns, the server is closed, and what was thrown is the last
    failure reported. *)
Lemma run_returns (body : M R unit) w :
  exists w',
    try_finally (try_catch body (fun msg => setFailed msg)) close_server w = (Ok tt, w') /\
    server w' = false /\
    failures w'
    = failures (snd (body w)) ++
      match fst (body w) with
      | Ok _ => []
      | Throw msg => [msg]
      end /\
    browsers w' = browsers (snd (body w)) /\ open_pages w' = open_pages (snd (body w)) /\
    output w' = output (snd (body w)) /\ comments w' = comments (snd (body w)).
Proof.
  unfold try_finally, try_catch. destruct (body w) as [[[]|msg] w1]; cbn [fst snd].
  - rewrite close_server_closes. eexists. split; [reflexivity|]. cbn.
    rewrite app_nil_r. auto 10.
  - unfold setFailed, modify. rewrite close_server_closes. eexists.
    split; [reflexivity|]. cbn. auto 10.
Qed.

End Generic.

End RunFacts.

(** ** Facts about the wait for the spawned server and the runner around it *)

Module SpawnedFacts.

Import JS Eff Spawned.
Local Open Scope nat_scope.

Lemma waitFrom_ready fetch delay : forall k count i t,
  k < count -> fetch (i + k) = Status true ->
  (forall j, j < k -> fetch (i + j) <> Status true) ->
  waitFrom fetch delay i count t
  = (Ok true, {| fetches := fetches t + k + 1; slept := slept t + k * delay |}).
Proof.
  induction k as [|k IH]; intros count i t Lt Hk Before;
    (destruct count as [|count]; [lia|]); cbn [waitFrom].
  - rewrite Nat.add_0_r in Hk. rewrite Hk. do 2 f_equal; lia.
  - assert (H0 : fetch i <> Status true)
      by (rewrite <- (Nat.add_0_r i); apply Before; lia).
    rewrite (IH count (S i)).
    + destruct (fetch i) as [|[|]]; try contradiction; cbn; do 2 f_equal; lia.
    + lia.
    + now rewrite Nat.add_succ_comm.
    + intros j Lj. rewrite Nat.add_succ_comm. apply Before. lia.
Qed.

Lemma waitFrom_never fetch delay : forall count i t,
  (forall j, j < count -> fetch (i + j) <> Status true) ->
  waitFrom fetch delay i count t
  = (Throw "Server did not respond",
     {| fetches := fetches t + count; slept := slept t + count * delay |}).
Proof.
  induction count as [|count IH]; intros i t Never; cbn [waitFrom].
  - destruct t. cbn. do 2 f_equal; lia.
  - assert (H0 : fetch i <> Status true)
      by (rewrite <- (Nat.add_0_r i); apply Never; lia).
    rewrite IH.
    + destruct (fetch i) as [|[|]]; try contradiction; cbn; do 2 f_equal; lia.
    + intros j Lj. rewrite Nat.add_succ_comm. apply Never. lia.
Qed.

(** Among the first [n] attempts there is a first that is answered with an
    ok response, or there is none. *)
Lemma first_ready (fetch : nat -> response) : forall n,
  (exists k, k < n /\ fetch k = Status true /\
             forall j, j < k -> fetch j <> Status true) \/
  (forall j, j < n -> fetch j <> Status true).
Proof.
  induction n as [|n [IH | IH]].
  - right. intros j Lj. lia.
  - left. destruct IH as (k & Lk & Hk & Before). exists k. split; [lia | auto].
  - destruct (fetch n) as [|[|]] eqn:E.
    + right. intros j Lj. destruct (Nat.eq_dec j n) as [->|]; [congruence | apply IH; lia].
    + left. exists n. auto.
    + right. intros j Lj. destruct (Nat.eq_dec j n) as [->|]; [congruence | apply IH; lia].
Qed.

Lemma Spawned_completes_page i pageUrl prResults e (w : world body) :
  page i pageUrl = Publishes e -> truthy e = true ->
  benchmarkPage i pageUrl prResults w = (Ok (prResults ++ [e]), w).
Proof.
  intros P T.
  unfold benchmarkPage, goto, waitForResult, bind, newPage, close_page, modify, ret.
  rewrite P, T. destruct w. cbn. now rewrite String.eqb_refl.
Qed.

(** The run up to the results file, when the server answers and the page
    publishes. *)
Lemma Spawned_tryBlock_measures i e cs :
  dist_exists i = true -> copy_dist i = None ->
  fst (waitForServer (fetch i) 20 300) = Ok true ->
  page i "http://localhost:8080/dist/benchmark/sprite/index.html" = Publishes e ->
  truthy e = true ->
  tryBlock i (initial cs)
  = compareAndReport i [e]
      {| server := true; browsers := 0; open_pages := []; failures := [];
         warnings := []; output := Some [e]; comments := cs |}.
Proof.
  intros D C W P T. unfold tryBlock. rewrite D, C, W. cbn [negb may_fail].
  unfold bind at 1. cbn [ret]. unfold bind at 1. cbn [set_server modify initial].
  unfold bind at 1. cbn [lift]. unfold bind at 1. cbn [launch modify].
  unfold bind at 1. unfold pages. cbn [runPages]. unfold bind at 1.
  rewrite (Spawned_completes_page i _ [] e _ P T). cbn [app ret].
  reflexivity.
Qed.

Lemma waitForServer_answers fetch delay retries k :
  k < retries -> fetch k = Status true ->
  fst (waitForServer fetch retries delay) = Ok true.
Proof.
  intros Lk Hk. unfold waitForServer.
  destruct (first_ready fetch retries) as [(k0 & L0 & H0 & B0) | Never].
  - now rewrite (waitFrom_ready fetch delay k0 retries 0 _ L0 H0 B0).
  - now destruct (Never k Lk).
Qed.

Lemma waitForServer_never fetch retries delay :
  (forall j, j < retries -> fetch j <> Status true) ->
  waitForServer fetch retries delay
  = (Throw "Server did not respond", {| fetches := retries; slept := retries * delay |}).
Proof.
  intros Never. unfold waitForServer. now rewrite (waitFrom_never fetch delay retries 0 _ Never).
Qed.

(** A baseline without a result at the page's index gives no row. *)
Lemma compareFrom_skips prResults baseline :
  truthy (at_index baseline 0) = false ->
  compareFrom prResults baseline 0 (List.length pages) [] = Ok [].
Proof. intros F. cbn. unfold compareAt. now rewrite F. Qed.

(** [finally]: nothing to signal, a signal that is delivered, or one that
    throws. *)
Lemma killServer_spec i (w : world body) :
  killServer i w
  = if server w then
      match kill_fails i with
      | Some msg => (Throw msg, w)
      | None => (Ok tt, {| server := false; browsers := browsers w;
                           open_pages := open_pages w; failures := failures w;
                           warnings := warnings w; output := output w;
                           comments := comments w |})
      end
    else (Ok tt, w).
Proof.
  unfold killServer, bind, gets. destruct w as [[|] ? ? ? ? ? ?]; cbn [server]; [|reflexivity].
  now destruct (kill_fails i).
Qed.

(** Once the server is spawned nothing inside [try] stops it. *)
Lemma bind_keeps_server {A B} (m : M body A) (k : A -> M body B) :
  (forall w, server (snd (m w)) = server w) ->
  (forall a w, server (snd (k a w)) = server w) ->
  forall w, server (snd (bind m k w)) = server w.
Proof.
  intros Hm Hk w. unfold bind. specialize (Hm w).
  destruct (m w) as [[a|msg] w1]; cbn [snd] in *; [|assumption].
  now rewrite Hk.
Qed.

Lemma benchmarkPage_keeps_server i pageUrl prResults (w : world body) :
  server (snd (benchmarkPage i pageUrl prResults w)) = server w.
Proof.
  unfold benchmarkPage, goto, waitForResult, bind, newPage, close_page, modify, throw, ret.
  destruct (page i pageUrl) as [msg|e]; [reflexivity|]. cbn.
  now destruct (truthy e).
Qed.

Lemma runPages_keeps_server i pages : forall prResults (w : world body),
  server (snd (runPages i pages prResults w)) = server w.
Proof.
  induction pages as [|u rest IH]; intros prResults w; [reflexivity|].
  cbn [runPages]. apply bind_keeps_server; [apply benchmarkPage_keeps_server | apply IH].
Qed.

Lemma compareAndReport_keeps_server i prResults (w : world body) :
  server (snd (compareAndReport i prResults w)) = server w.
Proof.
  unfold compareAndReport. destruct (baseline_file i) as [|msg|baseline]; [reflexivity..|].
  apply bind_keeps_server; [intros w0; reflexivity|]. intros tableRows w0.
  apply bind_keeps_server.
  - intros w1. now destruct (EffFacts.postComment_frame (comment_sink i)
                               {| table := tableRows; regressionLine := detect tableRows |} w1)
      as (_ & S & _).
  - intros _ w1. now destruct (detect tableRows).
Qed.

(** When [try] is left the server is running exactly if it was spawned. *)
Lemma tryBlock_server i cs : server (snd (tryBlock i (initial cs))) = spawned i.
Proof.
  unfold tryBlock, spawned. destruct (dist_exists i); [|reflexivity]. cbn [negb andb].
  destruct (copy_dist i) as [msg|]; [reflexivity|]. cbn [may_fail].
  unfold bind at 1. cbn [ret]. unfold bind at 1. cbn [set_server modify initial].
  match goal with |- server (snd (?m ?w0)) = true =>
    transitivity (server w0); [generalize w0 | reflexivity] end.
  apply bind_keeps_server; [intros w0; reflexivity|]. intros _.
  apply bind_keeps_server; [intros w0; reflexivity|]. intros _.
  apply bind_keeps_server; [apply runPages_keeps_server|]. intros prResults.
  apply bind_keeps_server; [intros w0; reflexivity|]. intros _.
  apply bind_keeps_server; [intros w0; reflexivity|]. intros _.
  apply compareAndReport_keeps_server.
Qed.

End SpawnedFacts.

(** ** Properties of the wait for the server and of the runner around it *)

Section SpawnedRunner.

Import JS Eff Spawned SpawnedFacts.
Local Open Scope nat_scope.

(** X9. [waitForServer] returns [true] at the first attempt that is
    answered with an ok response: a rejected [fetch] and a response that is
    not ok both count as not ready, each is followed by one sleep of
    [delay], and no attempt is made after the ok one. *)
Theorem X9_waitForServer_returns_at_the_first_ok fetch retries delay k :
  k < retries -> fetch k = Status true ->
  (forall j, j < k -> fetch j <> Status true) ->
  waitForServer fetch retries delay
  = (Ok true, {| fetches := S k; slept := k * delay |}).
Proof.
  intros Lk Hk Before. unfold waitForServer.
  rewrite (waitFrom_ready fetch delay k retries 0 _ Lk Hk Before).
  cbn. do 2 f_equal. lia.
Qed.

Lemma X9_witness :
  waitForServer (fun k => if k <? 2 then Refused else Status true) 20 300
  = (Ok true, {| fetches := 3; slept := 600 |}).
Proof.
  apply (X9_waitForServer_returns_at_the_first_ok
           (fun k => if k <? 2 then Refused else Status true) 20 300 2).
  - lia.
  - reflexivity.
  - intros j Lj. destruct j as [|[|j]]; [discriminate | discriminate | lia].
Defined.

(** X10. When none of the [retries] attempts is answered with an ok
    response, [waitForServer] throws after exactly [retries] calls of
    [fetch] and [retries * delay] milliseconds of sleep; with no retries
    it throws at once. *)
Theorem X10_waitForServer_gives_up fetch retries delay :
  (forall j, j < retries -> fetch j <> Status true) ->
  waitForServer fetch retries delay
  = (Throw "Server did not respond", {| fetches := retries; slept := retries * delay |}).
Proof.
  apply waitForServer_never.
Qed.

Lemma X10_witness :
  waitForServer (fun _ => Status false) 3 300
  = (Throw "Server did not respond", {| fetches := 3; slept := 900 |}).
Proof.
  apply (X10_waitForServer_gives_up (fun _ => Status false) 3 300).
  intros j _. discriminate.
Defined.

(** X11. When the spawned server never answers, the run is failed with the
    message of [waitForServer]; no browser is launched, no results file is
    written, the thread is left alone, and the server process is killed:
    [run] returns when the signal is delivered, and rejects with what
    [process.kill] throws when it is not. *)
Theorem X11_unanswered_server_fails_the_run i cs :
  dist_exists i = true -> copy_dist i = None ->
  (forall j, j < 20 -> fetch i j <> Status true) ->
  run i (initial cs)
  = (match kill_fails i with None => Ok tt | Some msg => Throw msg end,
     {| server := match kill_fails i with None => false | Some _ => true end;
        browsers := 0; open_pages := [];
        failures := ["Server did not respond"%string]; warnings := [];
        output := None; comments := cs |}).
Proof.
  intros D C Never. unfold run, try_finally, try_catch, tryBlock, killServer.
  rewrite D, C, (waitForServer_never (fetch i) 20 300 Never). cbn.
  now destruct (kill_fails i).
Qed.

Lemma X11_witness :
  run OlderExamples.unanswered_run (initial OlderExamples.thread)
  = (Ok tt, {| server := false; browsers := 0; open_pages := [];
               failures := ["Server did not respond"%string]; warnings := [];
               output := None; comments := OlderExamples.thread |}).
Proof.
  apply (X11_unanswered_server_fails_the_run OlderExamples.unanswered_run
           OlderExamples.thread eq_refl eq_refl).
  intros j _. discriminate.
Defined.

(** X12. Without a baseline file this runner stops after the results file:
    nothing is compared, no comment is posted even where one could be, and
    the run is not failed.  [run] returns when the server process is
    killed, and rejects with what [process.kill] throws when it is not. *)
Theorem X12_no_baseline_no_comparison i e cs k :
  dist_exists i = true -> copy_dist i = None ->
  k < 20 -> fetch i k = Status true ->
  page i "http://localhost:8080/dist/benchmark/sprite/index.html" = Publishes e ->
  truthy e = true ->
  baseline_file i = NoBaseline ->
  run i (initial cs)
  = (match kill_fails i with None => Ok tt | Some msg => Throw msg end,
     {| server := match kill_fails i with None => false | Some _ => true end;
        browsers := 0; open_pages := []; failures := [];
        warnings := []; output := Some [e]; comments := cs |}).
Proof.
  intros D C Lk Hk P T B. unfold run, try_finally, try_catch.
  rewrite (Spawned_tryBlock_measures i e cs D C (waitForServer_answers _ _ _ _ Lk Hk) P T).
  unfold compareAndReport. rewrite B. cbn [ret]. rewrite killServer_spec. cbn [server].
  now destruct (kill_fails i).
Qed.

Lemma X12_witness :
  run (OlderExamples.spawned_run (Examples.sprite 54%float) NoBaseline OlderExamples.working_sink)
      (initial OlderExamples.thread)
  = (Ok tt, {| server := false; browsers := 0; open_pages := []; failures := [];
               warnings := []; output := Some [Examples.sprite 54%float];
               comments := OlderExamples.thread |}).
Proof.
  apply (X12_no_baseline_no_comparison
           (OlderExamples.spawned_run (Examples.sprite 54%float) NoBaseline
              OlderExamples.working_sink)
           (Examples.sprite 54%float) OlderExamples.thread 2); try reflexivity.
  lia.
Defined.

(** X13. A baseline that has no result at the page's index gives no row
    at all: the comment is posted with an empty table, and the run fails
    only if the comment sink rejects.  [run] returns when the server
    process is killed, and rejects with what [process.kill] throws when it
    is not. *)
Theorem X13_missing_baseline_result_is_passed_over i e baseline cs k :
  dist_exists i = true -> copy_dist i = None ->
  k < 20 -> fetch i k = Status true ->
  page i "http://localhost:8080/dist/benchmark/sprite/index.html" = Publishes e ->
  truthy e = true ->
  baseline_file i = Parsed baseline -> truthy (at_index baseline 0) = false ->
  exists w,
    run i (initial cs)
    = (match kill_fails i with None => Ok tt | Some msg => Throw msg end, w) /\
    comments w
    = comments (snd (postComment (comment_sink i)
                       {| table := []; regressionLine := false |} (initial cs))) /\
    failures w = match sink_error (comment_sink i) cs with
                 | Some msg => [msg]
                 | None => []
                 end /\
    output w = Some [e] /\
    server w = match kill_fails i with None => false | Some _ => true end.
Proof.
  intros D C Lk Hk P T B F. unfold run, try_finally.
  rewrite (EffFacts.try_catch_ext _ _ _ _ _
             (Spawned_tryBlock_measures i e cs D C (waitForServer_answers _ _ _ _ Lk Hk) P T)).
  unfold compareAndReport. rewrite B, (compareFrom_skips [e] baseline F).
  unfold bind at 1. cbn [lift detect fold_left].
  destruct (RunFacts.signal_caught (comment_sink i) {| table := []; regressionLine := false |}
              false "" {| server := true; browsers := 0; open_pages := []; failures := [];
                          warnings := []; output := Some [e]; comments := cs |})
    as (w' & R & Fl & Cm & Sv & Br & Op & Out).
  cbn [failures comments app output] in Fl, Cm, Out.
  change (fun w0 : world body =>
            bind (postComment (comment_sink i) {| table := []; regressionLine := false |})
                 (fun _ => ret tt) w0)
    with (bind (postComment (comment_sink i) {| table := []; regressionLine := false |})
               (fun _ => ret tt)).
  rewrite R, killServer_spec, Sv. cbn [server] in Sv.
  assert (Th : comments w'
               = comments (snd (postComment (comment_sink i)
                                  {| table := []; regressionLine := false |} (initial cs)))).
  { rewrite Cm. now apply RunFacts.postComment_thread. }
  destruct (kill_fails i) as [msg|]; eexists; (split; [reflexivity|]); cbn;
    rewrite ?Fl, ?Out; auto.
Qed.

Lemma X13_witness :
  exists w,
    run (OlderExamples.spawned_run (Examples.sprite 54%float) (Parsed [])
           OlderExamples.working_sink) (initial OlderExamples.thread) = (Ok tt, w) /\
    failures w = [] /\ List.length (comments w) = 2.
Proof.
  destruct (X13_missing_baseline_result_is_passed_over
              (OlderExamples.spawned_run (Examples.sprite 54%float) (Parsed [])
                 OlderExamples.working_sink)
              (Examples.sprite 54%float) [] OlderExamples.thread 2
              eq_refl eq_refl ltac:(lia) eq_refl eq_refl eq_refl eq_refl eq_refl)
    as (w & R & Cm & Fl & _).
  exists w. split; [exact R|]. split; [exact Fl|]. now rewrite Cm.
Defined.

End SpawnedRunner.



(** ** Facts about the runner that copies the build beside itself *)

Module CopiedFacts.

Import JS Eff Copied.

Lemma Copied_completes_page i pageUrl prResults e (w : world body) :
  page i pageUrl = Publishes e -> truthy e = true ->
  benchmarkPage i pageUrl prResults w = (Ok (prResults ++ [e]), w).
Proof.
  intros P T.
  unfold benchmarkPage, goto, waitForResult, bind, newPage, close_page, modify, ret.
  rewrite P, T. destruct w. cbn. now rewrite String.eqb_refl.
Qed.

Lemma Copied_tryBlock_measures i e cs :
  dist_exists i = true -> pixi_exists i = true -> copy_dist i = None ->
  page i "http://localhost:8080/benchmarks/sprite/" = Publishes e ->
  truthy e = true ->
  tryBlock i (initial cs)
  = compareAndReport i [e]
      {| server := true; browsers := 0; open_pages := []; failures := [];
         warnings := []; output := Some [e]; comments := cs |}.
Proof.
  intros D X C P T. unfold tryBlock. rewrite D, X, C. cbn [negb may_fail].
  unfold bind at 1. cbn [ret]. unfold bind at 1. cbn [set_server modify initial].
  unfold bind at 1. cbn [launch modify].
  unfold bind at 1. unfold pages. cbn [runPages]. unfold bind at 1.
  rewrite (Copied_completes_page i _ [] e _ P T). cbn [app ret].
  reflexivity.
Qed.

(** The one row of a page that has no baseline result. *)
Lemma compareFrom_one_sided perfChange e baseline :
  truthy e = true -> truthy (at_index baseline 0) = false ->
  compareFrom perfChange [e] baseline 0 (List.length pages) []
  = Ok [{| name := name_of e; devFPS := None; prFPS := Number (fps_of e);
           diffPercent := NotAvailable; regression := false; arrow := None |}].
Proof.
  intros T F. destruct (MainFacts.truthy_reads e T) as [Hf Hn].
  cbn. unfold compareAt. rewrite F. cbn [negb at_index nth].
  now rewrite Hn, Hf.
Qed.

(** Formatting stops at the first row whose change is not a number. *)
Lemma renderRows_throws : forall before r after flag,
  Forall (fun r => diffPercent r <> NotAvailable) before ->
  diffPercent r = NotAvailable ->
  renderRows (before ++ r :: after) flag = Throw "diffPercent.toFixed is not a function".
Proof.
  induction before as [|r0 before IH]; intros r after flag A N; cbn [app renderRows].
  - now rewrite N.
  - inversion A as [|? ? N0 A']; subst.
    destruct (diffPercent r0) as [d|]; [|contradiction]. cbn [formatChange rbind].
    now apply IH.
Qed.

End CopiedFacts.

(** ** Properties of the runner that copies the build beside itself *)

Section CopiedRunner.

Import JS Eff Copied CopiedFacts.

(** X14. In the runner whose one-sided rows carry the string [N/A], a page
    without a baseline result fails the run: formatting the row throws,
    the message reaches [core.setFailed], and no comment is posted.  The
    results file is written before that, and the server is closed. *)
Theorem X14_missing_baseline_result_fails_the_older_run i e baseline cs :
  dist_exists i = true -> pixi_exists i = true -> copy_dist i = None ->
  page i "http://localhost:8080/benchmarks/sprite/" = Publishes e ->
  truthy e = true ->
  parseBaseline (baseline_file i) = Ok baseline ->
  truthy (at_index baseline 0) = false ->
  run i (initial cs)
  = (Ok tt, {| server := false; browsers := 0; open_pages := [];
               failures := ["diffPercent.toFixed is not a function"%string];
               warnings := []; output := Some [e]; comments := cs |}).
Proof.
  intros D X C P T B F. unfold run, try_finally, try_catch.
  rewrite (Copied_tryBlock_measures i e cs D X C P T).
  unfold compareAndReport. rewrite B.
  unfold bind at 1. cbn [lift]. rewrite (compareFrom_one_sided _ e baseline T F).
  reflexivity.
Qed.

Lemma X14_witness :
  run (OlderExamples.copied_run 5%float (Examples.sprite 54%float) NoBaseline
         OlderExamples.working_sink) (initial OlderExamples.thread)
  = (Ok tt, {| server := false; browsers := 0; open_pages := [];
               failures := ["diffPercent.toFixed is not a function"%string];
               warnings := []; output := Some [Examples.sprite 54%float];
               comments := OlderExamples.thread |}).
Proof.
  apply (X14_missing_baseline_result_fails_the_older_run
           (OlderExamples.copied_run 5%float (Examples.sprite 54%float) NoBaseline
              OlderExamples.working_sink)
           (Examples.sprite 54%float) [] OlderExamples.thread); reflexivity.
Defined.

End CopiedRunner.

(** ** Facts about the comment step *)

Module ThreadFacts.

Import JS Eff Thread.
Local Open Scope nat_scope.

Section Upsert.
Context {R : Type}.
Implicit Types (s : sink) (b : R) (w : world R) (cs : list (comment R)) (c : comment R).

(** The step on a sink that accepts. *)
Lemma postComment_accepting s b w :
  accepting s ->
  postComment s b w
  = (Ok tt, if posts s then with_comments w (upserted b (comments w)) else w).
Proof.
  intros (L & U & C). unfold postComment, posts, upsertComment, upserted.
  destruct (token s && _); [|reflexivity].
  unfold bind, may_fail, gets, ret, set_comments, modify, with_comments, report.
  rewrite L. cbn -[listComments]. destruct (find _ (listComments (comments w))).
  - now rewrite U.
  - now rewrite C.
Qed.

Lemma ids_below cs c :
  In c cs -> comment_id c <= fold_right Nat.max 0 (map (@comment_id R) cs).
Proof.
  induction cs as [|c0 cs IH]; [intros []|].
  cbn. intros [<- | I]; [lia | specialize (IH I); lia].
Qed.

Lemma find_none_unmarked cs :
  find (@has_marker R) cs = None -> forall c, In c cs -> has_marker c = false.
Proof. intros F c I. exact (find_none _ _ F c I). Qed.

Lemma listComments_map (f : comment R -> comment R) cs :
  listComments (map f cs) = map f (listComments cs).
Proof. unfold listComments. apply firstn_map. Qed.

Lemma listComments_short cs : List.length cs <= per_page -> listComments cs = cs.
Proof. intros L. unfold listComments. now apply firstn_all2. Qed.

(** A comment created on a thread that fills the first page is not
    listed. *)
Lemma listComments_full cs c : per_page <= List.length cs -> listComments (cs ++ [c]) = listComments cs.
Proof.
  intros L. unfold listComments. rewrite firstn_app.
  replace (per_page - List.length cs) with 0 by lia. cbn [firstn]. apply app_nil_r.
Qed.

Lemma listed_in cs c : In c (listComments cs) -> In c cs.
Proof. unfold listComments. intros I. rewrite <- (firstn_skipn per_page cs). apply in_or_app. now left. Qed.

(** After an update the first listed comment with the marker is the
    report. *)
Lemma find_updated b cs existing :
  find (@has_marker R) cs = Some existing ->
  find (@has_marker R)
       (map (fun c => if Nat.eqb (comment_id c) (comment_id existing)
                      then report (comment_id c) b else c) cs)
  = Some (report (comment_id existing) b).
Proof.
  induction cs as [|c cs IH]; [discriminate|]. cbn [find map].
  destruct (has_marker c) eqn:M.
  - intros [= ->]. now rewrite Nat.eqb_refl.
  - intros F. destruct (Nat.eqb_spec (comment_id c) (comment_id existing)) as [E|N].
    + cbn. now rewrite E.
    + rewrite M. now apply IH.
Qed.

Lemma find_created cs c :
  find (@has_marker R) cs = None -> has_marker c = true ->
  find (@has_marker R) (cs ++ [c]) = Some c.
Proof.
  induction cs as [|c0 cs IH]; cbn [find app]; intros F M.
  - now rewrite M.
  - destruct (has_marker c0); [discriminate | now apply IH].
Qed.

Lemma find_existsb cs :
  existsb (@has_marker R) cs
  = match find (@has_marker R) cs with Some _ => true | None => false end.
Proof.
  induction cs as [|c cs IH]; [reflexivity|]. cbn. now destruct (has_marker c).
Qed.

(** A later report takes the place of an earlier one when the earlier one
    is listed: when the first page already held a comment with the marker,
    or had room for the one that was created. *)
Lemma upserted_replaces b1 b2 cs :
  existsb (@has_marker R) (listComments cs) = true \/ List.length cs < per_page ->
  upserted b2 (upserted b1 cs) = upserted b2 cs.
Proof.
  rewrite find_existsb. intros H.
  unfold upserted at 2 3. destruct (find (@has_marker R) (listComments cs)) as [existing|] eqn:F.
  - unfold upserted. rewrite listComments_map, (find_updated b1 _ existing F).
    cbn [comment_id report].
    rewrite map_map. apply map_ext. intros c.
    destruct (Nat.eqb_spec (comment_id c) (comment_id existing)) as [E|N].
    + cbn [comment_id report]. now rewrite E, Nat.eqb_refl.
    + now destruct (Nat.eqb_spec (comment_id c) (comment_id existing)).
  - destruct H as [H | L]; [discriminate|].
    rewrite (listComments_short cs) in F by lia.
    unfold upserted. rewrite listComments_short by (rewrite length_app; cbn; lia).
    rewrite (find_created cs (report _ b1) F eq_refl).
    cbn [comment_id report].
    rewrite map_app. cbn [map comment_id report]. rewrite Nat.eqb_refl. f_equal.
    rewrite <- (map_id cs) at 2. apply map_ext_in. intros c I.
    pose proof (ids_below cs c I) as Le.
    destruct (Nat.eqb_spec (comment_id c)
                (S (fold_right Nat.max 0 (map (@comment_id R) cs)))); [lia | reflexivity].
Qed.

Lemma max_id_app cs c :
  fold_right Nat.max 0 (map (@comment_id R) (cs ++ [c]))
  = Nat.max (fold_right Nat.max 0 (map (@comment_id R) cs)) (comment_id c).
Proof.
  induction cs as [|c0 cs IH]; cbn [app map fold_right]; [lia|]. rewrite IH. lia.
Qed.

(** On a thread that fills the first page without a comment that carries
    the marker, the report that is created is never listed: every later
    report is created as well. *)
Lemma upserted_appends b1 b2 cs :
  existsb (@has_marker R) (listComments cs) = false -> per_page <= List.length cs ->
  upserted b2 (upserted b1 cs)
  = cs ++ [report (S (fold_right Nat.max 0 (map (@comment_id R) cs))) b1;
           report (S (S (fold_right Nat.max 0 (map (@comment_id R) cs)))) b2].
Proof.
  rewrite find_existsb. intros H L.
  destruct (find (@has_marker R) (listComments cs)) as [existing|] eqn:F; [discriminate|].
  unfold upserted. rewrite F, (listComments_full cs _ L), F, max_id_app.
  cbn [comment_id report]. rewrite <- app_assoc. cbn [app]. do 4 f_equal. lia.
Qed.

Lemma upserted_length b cs :
  List.length (upserted b cs)
  = List.length cs + (if existsb (@has_marker R) (listComments cs) then 0 else 1).
Proof.
  rewrite find_existsb. unfold upserted. destruct (find _ (listComments cs)).
  - rewrite length_map. lia.
  - rewrite length_app. reflexivity.
Qed.

Lemma same_id_same_comment cs : NoDup (map (@comment_id R) cs) ->
  forall c c', In c cs -> In c' cs -> comment_id c = comment_id c' -> c = c'.
Proof.
  induction cs as [|c0 cs IH]; [intros _ c c' []|].
  cbn [map]. intros D c c' I I' E. inversion D as [|? ? Fresh D']; subst.
  destruct I as [<- | I], I' as [<- | I']; try reflexivity.
  - exfalso. apply Fresh. rewrite E. now apply in_map.
  - exfalso. apply Fresh. rewrite <- E. now apply in_map.
  - now apply IH.
Qed.

(** Every comment but the listed one with the marker stays where it is,
    as it is. *)
Lemma upserted_others b cs k c :
  NoDup (map (@comment_id R) cs) ->
  nth_error cs k = Some c -> find (@has_marker R) (listComments cs) <> Some c ->
  nth_error (upserted b cs) k = Some c.
Proof.
  intros D N M. unfold upserted.
  destruct (find (@has_marker R) (listComments cs)) as [existing|] eqn:F.
  - rewrite nth_error_map, N. cbn [option_map]. f_equal.
    destruct (Nat.eqb_spec (comment_id c) (comment_id existing)) as [E|_]; [|reflexivity].
    apply find_some in F. destruct F as [I Me].
    rewrite (same_id_same_comment cs D c existing (nth_error_In _ _ N) (listed_in _ _ I) E) in M.
    congruence.
  - rewrite nth_error_app1; [assumption|]. apply nth_error_Some. congruence.
Qed.

(** The listed comment with the marker becomes the report. *)
Lemma upserted_existing b cs k existing :
  find (@has_marker R) (listComments cs) = Some existing ->
  nth_error cs k = Some existing ->
  nth_error (upserted b cs) k = Some (report (comment_id existing) b).
Proof.
  intros F N. unfold upserted. rewrite F, nth_error_map, N. cbn [option_map].
  now rewrite Nat.eqb_refl.
Qed.

End Upsert.

End ThreadFacts.

(** ** Properties of the comment step *)

Section CommentStep.

Import JS Eff Thread ThreadFacts.
Local Open Scope nat_scope.

(** X15. [listComments] is asked for one page only, so the marker is
    looked for among the first 30 comments of the thread.  On a sink that
    accepts every call, a report posted after another takes its place when
    the first page held a comment with the marker or had room left for the
    one that was created: the thread is the one the second report alone
    would have left.  On a thread whose first page is full and holds no
    such comment, the report that is created lies beyond the page and is
    never found again: a second report is appended after the first. *)
Theorem X15_a_later_report_replaces_a_listed_one {R} (s : sink) (b1 b2 : R) (w : world R) :
  accepting s ->
  (existsb (@has_marker R) (listComments (comments w)) = true \/
   List.length (comments w) < per_page ->
   snd (postComment s b2 (snd (postComment s b1 w))) = snd (postComment s b2 w)) /\
  (posts s = true ->
   existsb (@has_marker R) (listComments (comments w)) = false ->
   per_page <= List.length (comments w) ->
   comments (snd (postComment s b2 (snd (postComment s b1 w))))
   = comments w ++
     [report (S (fold_right Nat.max 0 (map (@comment_id R) (comments w)))) b1;
      report (S (S (fold_right Nat.max 0 (map (@comment_id R) (comments w))))) b2]).
Proof.
  intros A. rewrite (postComment_accepting s b1 w A). cbn [snd].
  rewrite !(postComment_accepting s b2 _ A). cbn [snd]. split.
  - intros H. destruct (posts s); [|reflexivity].
    unfold with_comments. cbn. now rewrite upserted_replaces.
  - intros -> N L. cbn [with_comments comments]. now apply upserted_appends.
Qed.

Lemma X15_witness :
  snd (postComment OlderExamples.working_sink 2
         (snd (postComment OlderExamples.working_sink 1 (initial OlderExamples.thread))))
  = snd (postComment OlderExamples.working_sink 2 (initial OlderExamples.thread)) /\
  List.length
    (comments (snd (postComment OlderExamples.working_sink 2
                      (snd (postComment OlderExamples.working_sink 1
                              (initial OlderExamples.full_page))))))
  = 32.
Proof.
  split.
  - apply (proj1 (X15_a_later_report_replaces_a_listed_one OlderExamples.working_sink 1 2
                    (initial OlderExamples.thread) (conj eq_refl (conj eq_refl eq_refl)))).
    right. cbn. unfold per_page. lia.
  - rewrite (proj2 (X15_a_later_report_replaces_a_listed_one OlderExamples.working_sink 1 2
                      (initial OlderExamples.full_page) (conj eq_refl (conj eq_refl eq_refl)))
               eq_refl eq_refl (Nat.le_refl _)).
    reflexivity.
Defined.

(** X16. A report that is posted updates the first comment of the first
    page that carries the marker, or is appended when that page holds
    none, whatever lies beyond it: the thread grows by one comment exactly
    when none of its first 30 comments carries the marker; the comment
    that was found holds the report afterwards, under its identifier, and
    a report that is created comes last; and, the identifiers being
    distinct, every other comment is where it was, unchanged. *)
Theorem X16_update_or_create {R} (s : sink) (b : R) (w : world R) :
  accepting s -> posts s = true ->
  let cs := comments w in
  let cs' := comments (snd (postComment s b w)) in
  List.length cs'
  = List.length cs + (if existsb (@has_marker R) (listComments cs) then 0 else 1) /\
  (forall k existing,
      find (@has_marker R) (listComments cs) = Some existing ->
      nth_error cs k = Some existing ->
      nth_error cs' k = Some (report (comment_id existing) b)) /\
  (find (@has_marker R) (listComments cs) = None ->
   cs' = cs ++ [report (S (fold_right Nat.max 0 (map (@comment_id R) cs))) b]) /\
  (NoDup (map (@comment_id R) cs) ->
   forall k c, nth_error cs k = Some c ->
               find (@has_marker R) (listComments cs) <> Some c ->
               nth_error cs' k = Some c).
Proof.
  intros A P. rewrite (postComment_accepting s b w A), P. cbn [snd with_comments comments].
  split; [apply upserted_length|]. split; [|split].
  - intros k existing F N. now apply upserted_existing.
  - intros F. unfold upserted. now rewrite F.
  - intros D k c N M. now apply upserted_others.
Qed.

Lemma X16_witness :
  List.length (comments (snd (postComment OlderExamples.working_sink 1
                                (initial OlderExamples.thread)))) = 2.
Proof.
  exact (proj1 (X16_update_or_create OlderExamples.working_sink 1
                  (initial OlderExamples.thread)
                  (conj eq_refl (conj eq_refl eq_refl)) eq_refl)).
Defined.

End CommentStep.

(** ** Facts about whole runs of the single-baseline-file runner *)

Module MainRunFacts.

Import JS Eff Main.
Local Open Scope nat_scope.

(** A page that does not complete throws out of the loop body, with the
    page left open. *)
Lemma benchmarkPage_fails i pageUrl prResults (w : world body) :
  completes i pageUrl = false ->
  exists msg,
    benchmarkPage i pageUrl prResults w
    = (Throw msg, {| server := server w; browsers := browsers w;
                     open_pages := pageUrl :: open_pages w; failures := failures w;
                     warnings := warnings w; output := output w;
                     comments := comments w |}) /\
    (page i pageUrl = NavigationFails msg \/
     msg = "page.waitForFunction: Timeout 30000ms exceeded."%string).
Proof.
  unfold completes, benchmarkPage, goto, waitForResult, bind, newPage, modify, throw, ret.
  destruct (page i pageUrl) as [msg | e]; intros C.
  - exists msg. split; [reflexivity | now left].
  - rewrite C. eexists. split; [reflexivity | now right].
Qed.

Lemma runPages_app i before rest :
  Forall (fun u => completes i u = true) before ->
  forall prResults (w : world body),
    runPages i (before ++ rest) prResults w
    = runPages i rest (prResults ++ map (published i) before) w.
Proof.
  induction 1 as [|u before Cu _ IH]; intros prResults w; cbn [app map runPages].
  - now rewrite app_nil_r.
  - unfold bind at 1. rewrite (MainFacts.benchmarkPage_completes i u prResults w Cu).
    rewrite IH. now rewrite <- app_assoc.
Qed.

(** The loop stops at the first page that does not complete. *)
Lemma runPages_stops i before u after prResults (w : world body) :
  Forall (fun v => completes i v = true) before ->
  completes i u = false ->
  exists msg,
    runPages i (before ++ u :: after) prResults w
    = (Throw msg, {| server := server w; browsers := browsers w;
                     open_pages := u :: open_pages w; failures := failures w;
                     warnings := warnings w; output := output w;
                     comments := comments w |}) /\
    (page i u = NavigationFails msg \/
     msg = "page.waitForFunction: Timeout 30000ms exceeded."%string).
Proof.
  intros Cb Cu. rewrite (runPages_app i before (u :: after) Cb).
  destruct (benchmarkPage_fails i u (prResults ++ map (published i) before) w Cu)
    as (msg & E & H).
  exists msg. split; [|exact H]. cbn [runPages]. unfold bind. now rewrite E.
Qed.

(** The try block up to the page loop. *)
Lemma tryBlock_loop i pages cs :
  dist_exists i = true -> pixi_exists i = true -> benchmark_files i = Ok pages ->
  tryBlock i (initial cs)
  = bind (runPages i pages [])
         (fun prResults =>
            bind close_browser (fun _ =>
            bind (writeFile prResults) (fun _ => compareAndReport i pages prResults)))
      {| server := true; browsers := 1; open_pages := []; failures := [];
         warnings := []; output := None; comments := cs |}.
Proof.
  intros D P F. unfold tryBlock. rewrite D, P, F. reflexivity.
Qed.

(** Without a baseline every row is one-sided. *)
Lemma compareFrom_no_baseline perfChange prResults : forall count i tableRows,
  i + count <= List.length prResults ->
  Forall (fun e => truthy e = true) prResults ->
  compareFrom perfChange prResults [] i count tableRows
  = Ok (tableRows ++
        map (fun e => {| name := name_of e; devFPS := None; prFPS := Number (fps_of e);
                         diffPercent := None; regression := false; arrow := None |})
            (firstn count (skipn i prResults))).
Proof.
  induction count as [|count IH]; intros i tableRows Le T; cbn [compareFrom].
  - now rewrite app_nil_r.
  - assert (Li : i < List.length prResults) by lia.
    destruct (nth_error prResults i) as [e|] eqn:N;
      [|apply nth_error_None in N; lia].
    assert (A : at_index prResults i = e)
      by (unfold at_index; now apply nth_error_nth).
    assert (Te : truthy (at_index prResults i) = true).
    { rewrite A. rewrite Forall_forall in T. apply T. now apply nth_error_In with i. }
    rewrite (MainFacts.compareAt_absent perfChange prResults [] i Te)
      by (unfold at_index; now destruct i).
    cbn [rbind]. rewrite IH by (assumption || lia).
    rewrite <- app_assoc. do 2 f_equal. cbn [app].
    assert (S : skipn i prResults = e :: skipn (S i) prResults).
    { clear - N. revert i N. induction prResults as [|x l IHl]; intros [|i] N;
        try discriminate.
      - now injection N as ->.
      - cbn [skipn]. rewrite (IHl i N). reflexivity. }
    rewrite S, A. reflexivity.
Qed.

Lemma compareAll_no_baseline perfChange pages prResults :
  List.length prResults = List.length pages ->
  Forall (fun e => truthy e = true) prResults ->
  compareAll perfChange pages prResults []
  = Ok (map (fun e => {| name := name_of e; devFPS := None; prFPS := Number (fps_of e);
                         diffPercent := None; regression := false; arrow := None |})
            prResults).
Proof.
  intros L T. unfold compareAll. rewrite compareFrom_no_baseline by (assumption || lia).
  cbn [app skipn]. now rewrite <- L, firstn_all.
Qed.

(** The comparison reads the baseline by position, and of each of its
    entries only whether it is truthy and what its [fps] is. *)
Lemma at_index_related (P : entry -> entry -> Prop) baseline baseline' :
  P (Prim Undefined) (Prim Undefined) ->
  Forall2 P baseline baseline' ->
  forall i, P (at_index baseline i) (at_index baseline' i).
Proof.
  intros U F. induction F as [|e e' l l' Pe _ IH]; intros [|i]; cbn; auto.
  apply IH.
Qed.

Lemma compareAt_reads perfChange prResults baseline baseline' i :
  truthy (at_index baseline i) = truthy (at_index baseline' i) ->
  get_fps (at_index baseline i) = get_fps (at_index baseline' i) ->
  compareAt perfChange prResults baseline i = compareAt perfChange prResults baseline' i.
Proof. unfold compareAt. now intros -> ->. Qed.

Lemma compareFrom_reads perfChange prResults baseline baseline' : forall count i tableRows,
  (forall k, k < count ->
             truthy (at_index baseline (i + k)) = truthy (at_index baseline' (i + k)) /\
             get_fps (at_index baseline (i + k)) = get_fps (at_index baseline' (i + k))) ->
  compareFrom perfChange prResults baseline i count tableRows
  = compareFrom perfChange prResults baseline' i count tableRows.
Proof.
  induction count as [|count IH]; intros i tableRows H; cbn [compareFrom]; [reflexivity|].
  destruct (H 0 ltac:(lia)) as [T G]. rewrite Nat.add_0_r in T, G.
  rewrite (compareAt_reads perfChange prResults baseline baseline' i T G).
  destruct (compareAt perfChange prResults baseline' i) as [r|msg]; [|reflexivity].
  cbn [rbind]. apply IH. intros k Lk. rewrite Nat.add_succ_comm. apply H. lia.
Qed.

End MainRunFacts.

(** ** Properties of whole runs of the single-baseline-file runner *)

Section MainRunner.

Import JS Eff Main MainRunFacts.
Local Open Scope nat_scope.

(** X17. The run stops at the first page that does not publish a result:
    its error is the one failure reported, the later pages are never
    opened, no results file is written and no comment is posted.  The
    server is closed; the page that failed stays open. *)
Theorem X17_first_failing_page_stops_the_run i before u after cs :
  dist_exists i = true -> pixi_exists i = true ->
  benchmark_files i = Ok (before ++ u :: after) ->
  Forall (fun v => completes i v = true) before ->
  completes i u = false ->
  exists msg,
    run i (initial cs)
    = (Ok tt, {| server := false; browsers := 1; open_pages := [u]; failures := [msg];
                 warnings := []; output := None; comments := cs |}) /\
    (page i u = NavigationFails msg \/
     msg = "page.waitForFunction: Timeout 30000ms exceeded."%string).
Proof.
  intros D P F Cb Cu.
  destruct (runPages_stops i before u after []
              {| server := true; browsers := 1; open_pages := []; failures := [];
                 warnings := []; output := None; comments := cs |} Cb Cu)
    as (msg & E & H).
  exists msg. split; [|exact H].
  unfold run, try_finally, try_catch.
  rewrite (tryBlock_loop i _ cs D P F). unfold bind at 1. rewrite E. reflexivity.
Qed.

Lemma X17_witness :
  exists msg,
    run Examples.stuck_run (initial [])
    = (Ok tt, {| server := false; browsers := 1; open_pages := [Examples.sprite_url];
                 failures := [msg]; warnings := []; output := None; comments := [] |}).
Proof.
  destruct (X17_first_failing_page_stops_the_run Examples.stuck_run [] Examples.sprite_url
              [] [] eq_refl eq_refl eq_refl (Forall_nil _) eq_refl) as (msg & R & _).
  exists msg. exact R.
Defined.

(** X18. A baseline file that does not parse fails the run with the
    parser's message, after the pages have run and the results file has
    been written; no comment is posted. *)
Theorem X18_malformed_baseline_fails_after_the_results i pages msg cs :
  dist_exists i = true -> pixi_exists i = true ->
  benchmark_files i = Ok pages ->
  Forall (fun u => completes i u = true) pages ->
  baseline_file i = Malformed msg ->
  run i (initial cs)
  = (Ok tt, {| server := false; browsers := 0; open_pages := []; failures := [msg];
               warnings := []; output := Some (map (published i) pages);
               comments := cs |}).
Proof.
  intros D P F C B. unfold run, try_finally, try_catch.
  rewrite (MainFacts.tryBlock_completes i pages cs D P F C).
  unfold compareAndReport. rewrite B. reflexivity.
Qed.

Lemma X18_witness :
  run (Examples.sprite_run 5%float (Examples.sprite 54%float)
         (Malformed "SyntaxError: Unexpected end of JSON input") Examples.no_sink)
      (initial [])
  = (Ok tt, {| server := false; browsers := 0; open_pages := [];
               failures := ["SyntaxError: Unexpected end of JSON input"%string];
               warnings := []; output := Some [Examples.sprite 54%float];
               comments := [] |}).
Proof.
  apply (X18_malformed_baseline_fails_after_the_results
           (Examples.sprite_run 5%float (Examples.sprite 54%float)
              (Malformed "SyntaxError: Unexpected end of JSON input") Examples.no_sink)
           [Examples.sprite_url]); try reflexivity.
  repeat constructor.
Defined.

(** X19. Without a baseline, and with one that is empty, the run compares
    nothing and does not fail on that account: every page gets a row
    without baseline, difference or arrow, the comment is posted with
    these rows, and the only failure possible is a rejection by the
    comment sink. *)
Theorem X19_first_run_without_baseline i pages cs :
  dist_exists i = true -> pixi_exists i = true ->
  benchmark_files i = Ok pages ->
  Forall (fun u => completes i u = true) pages ->
  parseBaseline (baseline_file i) = Ok [] ->
  exists w,
    run i (initial cs) = (Ok tt, w) /\
    failures w = match sink_error (comment_sink i) cs with
                 | Some msg => [msg]
                 | None => []
                 end /\
    comments w
    = comments
        (snd (postComment (comment_sink i)
                {| table :=
                     map (fun u =>
                            {| name := name_of (published i u); devFPS := None;
                               prFPS := Number (fps_of (published i u));
                               diffPercent := None; regression := false;
                               arrow := None |}) pages;
                   regressionLine := false; threshold := perfChange i |}
                (initial cs))) /\
    output w = Some (map (published i) pages) /\
    server w = false /\ browsers w = 0 /\ open_pages w = [].
Proof.
  intros D P F C B.
  assert (R : compareAll (perfChange i) pages (map (published i) pages) []
              = Ok (map (fun u =>
                           {| name := name_of (published i u); devFPS := None;
                              prFPS := Number (fps_of (published i u));
                              diffPercent := None; regression := false;
                              arrow := None |}) pages)).
  { rewrite compareAll_no_baseline.
    - now rewrite map_map.
    - now rewrite length_map.
    - rewrite Forall_map. eapply Forall_impl; [|exact C].
      intros u Hu. now destruct (MainFacts.completes_publishes _ _ Hu). }
  unfold run, try_finally.
  rewrite (EffFacts.try_catch_ext _ _ _ _ _ (MainFacts.tryBlock_completes i pages cs D P F C)).
  unfold compareAndReport. rewrite B. unfold bind at 1. cbn [lift].
  unfold bind at 1. cbn [lift]. rewrite R.
  set (rows := map _ pages).
  assert (Dt : detect rows = false).
  { apply MainFacts.detect_false. intros r I. apply in_map_iff in I.
    destruct I as (u & <- & _). reflexivity. }
  rewrite Dt.
  destruct (RunFacts.signal_caught (comment_sink i)
              {| table := rows; regressionLine := false; threshold := perfChange i |}
              false ""
              {| server := true; browsers := 0; open_pages := []; failures := [];
                 warnings := []; output := Some (map (published i) pages);
                 comments := cs |})
    as (w' & E & Fl & Cm & Sv & Br & Op & Out).
  cbn [failures comments app output server browsers open_pages] in Fl, Cm, Out, Sv, Br, Op.
  change (fun w0 : world body =>
            bind (postComment (comment_sink i)
                    {| table := rows; regressionLine := false; threshold := perfChange i |})
                 (fun _ => ret tt) w0)
    with (bind (postComment (comment_sink i)
                  {| table := rows; regressionLine := false; threshold := perfChange i |})
               (fun _ => ret tt)).
  rewrite E, RunFacts.close_server_closes. eexists. split; [reflexivity|]. cbn.
  rewrite Fl, Out, Cm, Br, Op. repeat split; try reflexivity.
  now apply RunFacts.postComment_thread.
Qed.

Lemma X19_witness :
  exists w,
    run (Examples.sprite_run 5%float (Examples.sprite 54%float) NoBaseline
           OlderExamples.working_sink) (initial OlderExamples.thread) = (Ok tt, w) /\
    failures w = [] /\ List.length (comments w) = 2.
Proof.
  destruct (X19_first_run_without_baseline
              (Examples.sprite_run 5%float (Examples.sprite 54%float) NoBaseline
                 OlderExamples.working_sink)
              [Examples.sprite_url] OlderExamples.thread
              eq_refl eq_refl eq_refl (Forall_cons _ eq_refl (Forall_nil _)) eq_refl)
    as (w & R & Fl & Cm & _).
  exists w. split; [exact R|]. split; [exact Fl|]. now rewrite Cm.
Defined.

(** X20. The baseline is matched by position only: of its entry at a
    page's index the comparison reads whether it is truthy and its [fps],
    never its name, and entries past the last page are never read. *)
Theorem X20_baseline_is_matched_by_position perfChange pages prResults baseline :
  (forall baseline',
     Forall2 (fun e e' => truthy e = truthy e' /\ get_fps e = get_fps e')
             baseline baseline' ->
     compareAll perfChange pages prResults baseline'
     = compareAll perfChange pages prResults baseline) /\
  (forall surplus,
     List.length pages <= List.length baseline ->
     compareAll perfChange pages prResults (baseline ++ surplus)
     = compareAll perfChange pages prResults baseline).
Proof.
  split.
  - intros baseline' F. unfold compareAll. symmetry. apply compareFrom_reads.
    intros k _. cbn [Nat.add].
    apply (at_index_related
             (fun e e' => truthy e = truthy e' /\ get_fps e = get_fps e')
             baseline baseline'); [now split | assumption].
  - intros surplus L. unfold compareAll. apply compareFrom_reads.
    intros k Lk. cbn [Nat.add]. unfold at_index.
    rewrite app_nth1 by lia. now split.
Qed.

End MainRunner.

(** ** Facts about what the runners leave behind *)

Module DisposalFacts.

Import JS Eff.
Local Open Scope nat_scope.

(** The guarded loop body on a page that completes, and on one that does
    not: the failure is reported by the inner [catch] and thrown on. *)
Lemma Guarded_benchmarkPage_completes i pageUrl prResults (w : world Main.body) :
  Main.completes i pageUrl = true ->
  Guarded.benchmarkPage i pageUrl prResults w
  = (Ok (prResults ++ [Main.published i pageUrl]), w).
Proof.
  intros C. destruct (MainFacts.completes_publishes i pageUrl C) as [P T].
  unfold Guarded.benchmarkPage, bind, try_finally, try_catch, Main.goto, Main.waitForResult,
    newPage, close_page, modify, ret.
  rewrite P, T. destruct w. cbn. now rewrite String.eqb_refl.
Qed.

Lemma Guarded_benchmarkPage_fails i pageUrl prResults (w : world Main.body) :
  Main.completes i pageUrl = false ->
  exists msg,
    Guarded.benchmarkPage i pageUrl prResults w
    = (Throw msg,
       {| server := server w; browsers := browsers w; open_pages := open_pages w;
          failures := failures w ++ [("Benchmark failed for " ++ pageUrl ++ ": " ++ msg)%string];
          warnings := warnings w; output := output w; comments := comments w |}) /\
    (Main.page i pageUrl = NavigationFails msg \/
     msg = "page.waitForFunction: Timeout 30000ms exceeded."%string).
Proof.
  unfold Main.completes, Guarded.benchmarkPage, bind, try_finally, try_catch, Main.goto,
    Main.waitForResult, newPage, close_page, setFailed, modify, throw, ret.
  destruct (Main.page i pageUrl) as [msg | e]; intros C.
  - exists msg. split; [|now left]. cbn. now rewrite String.eqb_refl.
  - rewrite C. eexists. split; [|now right]. cbn. now rewrite String.eqb_refl.
Qed.

Lemma Guarded_runPages_stops i before u after :
  Forall (fun v => Main.completes i v = true) before ->
  Main.completes i u = false ->
  forall prResults (w : world Main.body),
  exists msg,
    Guarded.runPages i (before ++ u :: after) prResults w
    = (Throw msg,
       {| server := server w; browsers := browsers w; open_pages := open_pages w;
          failures := failures w ++ [("Benchmark failed for " ++ u ++ ": " ++ msg)%string];
          warnings := warnings w; output := output w; comments := comments w |}) /\
    (Main.page i u = NavigationFails msg \/
     msg = "page.waitForFunction: Timeout 30000ms exceeded."%string).
Proof.
  intros Cb Cu. induction Cb as [|v before Cv _ IH]; intros prResults w; cbn [app].
  - destruct (Guarded_benchmarkPage_fails i u prResults w Cu) as (msg & E & H).
    exists msg. split; [|exact H]. cbn [Guarded.runPages]. unfold bind. now rewrite E.
  - cbn [Guarded.runPages]. unfold bind at 1.
    rewrite (Guarded_benchmarkPage_completes i v prResults w Cv). apply IH.
Qed.

Lemma Guarded_tryBlock_loop i pages cs :
  Main.dist_exists i = true -> Main.pixi_exists i = true ->
  Main.benchmark_files i = Ok pages ->
  Guarded.tryBlock i (initial cs)
  = bind (Guarded.runPages i pages [])
         (fun prResults =>
            bind (writeFile prResults)
                 (fun _ => Main.compareAndReport i pages prResults))
      {| server := true; browsers := 1; open_pages := []; failures := [];
         warnings := []; output := None; comments := cs |}.
Proof.
  intros D P F. unfold Guarded.tryBlock. rewrite D, P, F. reflexivity.
Qed.

(** The teardown of the guarded runner never throws. *)
Lemma Guarded_teardown_returns (w : world Main.body) :
  exists w', Guarded.teardown w = (Ok tt, w') /\ server w' = false.
Proof.
  unfold Guarded.teardown, bind, gets, try_catch, close_browser, modify, ret.
  destruct (browsers w); rewrite RunFacts.close_server_closes; eauto.
Qed.

(** One measurement leaves no browser and no page behind. *)
Lemma runIsolatedBenchmark_disposes inp url (w : world Isolated.body) :
  open_pages w = [] ->
  open_pages (snd (Isolated.runIsolatedBenchmark inp url w)) = [] /\
  browsers (snd (Isolated.runIsolatedBenchmark inp url w)) = browsers w.
Proof.
  intros O. unfold Isolated.runIsolatedBenchmark, bind.
  pose proof (IsolatedFacts.repeatFrom_disposes inp url Isolated.REPEATS 0 [] w O) as D.
  destruct (Isolated.repeatFrom inp url 0 Isolated.REPEATS [] w) as [[r|msg] w1];
    exact D.
Qed.

Lemma runScenarios_disposes inp : forall indexFiles comparisons (w : world Isolated.body),
  open_pages w = [] ->
  open_pages (snd (Isolated.runScenarios inp indexFiles comparisons w)) = [] /\
  browsers (snd (Isolated.runScenarios inp indexFiles comparisons w)) = browsers w.
Proof.
  induction indexFiles as [|s rest IH]; intros comparisons w O; [now split|].
  rewrite IsolatedFacts.runScenarios_step.
  destruct (runIsolatedBenchmark_disposes inp (Isolated.devURL s) w O) as [O1 B1].
  destruct (Isolated.runIsolatedBenchmark inp (Isolated.devURL s) w) as [[devResult|msg] w1];
    cbn [snd] in O1, B1; [|now split].
  destruct (runIsolatedBenchmark_disposes inp (Isolated.localURL s) w1 O1) as [O2 B2].
  destruct (Isolated.runIsolatedBenchmark inp (Isolated.localURL s) w1)
    as [[localResult|msg] w2]; cbn [snd] in O2, B2;
    [|cbn [snd]; split; [assumption | congruence]].
  destruct (IH (comparisons ++
                [Isolated.compare (Isolated.perfChange inp) (Isolated.scenario_name s)
                   devResult localResult]) w2 O2) as [O3 B3].
  split; [assumption | congruence].
Qed.

(** The comment and the final signal open and close nothing. *)
Lemma report_frame inp comparisons (w : world Isolated.body) :
  open_pages (snd (Isolated.report inp comparisons w)) = open_pages w /\
  browsers (snd (Isolated.report inp comparisons w)) = browsers w.
Proof.
  unfold Isolated.report, bind.
  pose proof (EffFacts.postComment_frame (Isolated.comment_sink inp)
                {| Isolated.table := comparisons;
                   Isolated.regressionLine := Isolated.detect comparisons;
                   Isolated.threshold := Isolated.perfChange inp |} w) as F.
  cbv zeta in F. destruct F as (_ & _ & B & O & _).
  destruct (postComment _ _ w) as [[[]|msg] w1]; cbn [snd] in *; [|now split].
  destruct (Isolated.detect comparisons); cbn; now split.
Qed.

Lemma Isolated_tryBlock_disposes inp cs r w1 :
  Isolated.tryBlock inp (initial cs) = (r, w1) ->
  open_pages w1 = [] /\ browsers w1 = 0.
Proof.
  unfold Isolated.tryBlock.
  destruct (Isolated.dist_exists inp); cbn [negb]; [|now intros [= _ <-]].
  destruct (Isolated.pixi_exists inp); cbn [negb]; [|now intros [= _ <-]].
  unfold bind at 1. cbn [set_server modify initial].
  unfold bind at 1. unfold lift at 1.
  destruct (Isolated.index_files inp) as [[|s rest]|msg];
    [now intros [= _ <-] | | now intros [= _ <-]].
  unfold bind at 1.
  match goal with |- context [Isolated.runScenarios inp ?l [] ?w0] =>
    destruct (runScenarios_disposes inp l [] w0 eq_refl) as [O B];
    destruct (Isolated.runScenarios inp l [] w0) as [[rows|msg] w2]
  end; cbn in O, B; [|now intros [= _ <-]].
  destruct (report_frame inp rows w2) as [O' B']. intros E. rewrite E in O', B'.
  cbn [snd] in O', B'. split; congruence.
Qed.

End DisposalFacts.

(** ** Properties of the runners' error handling and teardown *)

Section Teardown.

Import JS Eff DisposalFacts.
Local Open Scope nat_scope.

(** X21. The runner that spawns its server can reject: its [finally]
    signals the server's process group whenever the server was spawned,
    outside of every [catch].  When [process.kill] throws there, [run]
    rejects with that message in place of the outcome of [try] and [catch]
    and the server is left as it was; what was caught before stays
    reported.  In every other case [run] returns and no server is left.
    A run that measured its page and has nothing to compare rejects in
    this way without a single call of [core.setFailed]. *)
Theorem X21_spawned_run_rejects_when_the_signal_fails :
  (forall i cs,
     exists w,
       Spawned.run i (initial cs)
       = (match Spawned.kill_fails i with
          | Some msg => if Spawned.spawned i then Throw msg else Ok tt
          | None => Ok tt
          end, w) /\
       server w
       = (Spawned.spawned i &&
          match Spawned.kill_fails i with Some _ => true | None => false end)%bool /\
       failures w
       = failures (snd (Spawned.tryBlock i (initial cs))) ++
         match fst (Spawned.tryBlock i (initial cs)) with
         | Ok _ => []
         | Throw msg => [msg]
         end /\
       output w = output (snd (Spawned.tryBlock i (initial cs))) /\
       comments w = comments (snd (Spawned.tryBlock i (initial cs)))) /\
  Spawned.run OlderExamples.vanished_server_run (initial [])
  = (Throw "kill ESRCH",
     {| server := true; browsers := 0; open_pages := []; failures := []; warnings := [];
        output := Some [Examples.sprite 60%float]; comments := [] |}).
Proof.
  split; [|reflexivity].
  intros i cs. pose proof (SpawnedFacts.tryBlock_server i cs) as S.
  unfold Spawned.run, try_finally, try_catch.
  destruct (Spawned.tryBlock i (initial cs)) as [[[]|msg] w1]; cbn [fst snd] in S |- *.
  - rewrite SpawnedFacts.killServer_spec, S.
    destruct (Spawned.spawned i), (Spawned.kill_fails i);
      eexists; (split; [reflexivity|]); cbn; rewrite ?app_nil_r; auto.
  - unfold setFailed, modify. rewrite SpawnedFacts.killServer_spec. cbn [server]. rewrite S.
    destruct (Spawned.spawned i), (Spawned.kill_fails i);
      eexists; (split; [reflexivity|]); cbn; auto.
Qed.

(** X22. The two runners that tear down in [finally] leave nothing
    behind, whatever the pages, the baseline and the comment sink do: the
    one with the per-page [finally] and the browser teardown in the outer
    [finally], and the averaged-repeats one, in which every repeat closes
    its own browser.  When [run] returns no page is open, no browser is
    running and the server is closed. *)
Theorem X22_runs_with_teardown_leave_nothing_behind :
  (forall i cs,
     let w := snd (Guarded.run i (initial cs)) in
     open_pages w = [] /\ browsers w = 0 /\ server w = false) /\
  (forall inp cs,
     let w := snd (Isolated.run inp (initial cs)) in
     open_pages w = [] /\ browsers w = 0 /\ server w = false).
Proof.
  split.
  - exact TeardownFacts.Guarded_run_disposes.
  - intros inp cs. cbv zeta.
    destruct (RunFacts.run_returns (Isolated.tryBlock inp) (initial cs))
      as (w' & R & S & _ & B & O & _).
    unfold Isolated.run. rewrite R. cbn [snd].
    destruct (Isolated.tryBlock inp (initial cs)) as [r w1] eqn:E.
    destruct (Isolated_tryBlock_disposes inp cs r w1 E) as [O1 B1].
    cbn [snd] in O, B. rewrite O, B. auto.
Qed.

(** X23. In the runner with the per-page [catch] a page that does not
    publish is reported twice, by the inner [catch] with the page named
    and by the outer one with the bare message, and the run stops there
    with no results file and no comment; the page, the browser and the
    server are all closed. *)
Theorem X23_guarded_run_reports_a_failing_page_twice i before u after cs :
  Main.dist_exists i = true -> Main.pixi_exists i = true ->
  Main.benchmark_files i = Ok (before ++ u :: after) ->
  Forall (fun v => Main.completes i v = true) before ->
  Main.completes i u = false ->
  exists msg,
    Guarded.run i (initial cs)
    = (Ok tt, {| server := false; browsers := 0; open_pages := [];
                 failures := [("Benchmark failed for " ++ u ++ ": " ++ msg)%string; msg];
                 warnings := []; output := None; comments := cs |}) /\
    (Main.page i u = NavigationFails msg \/
     msg = "page.waitForFunction: Timeout 30000ms exceeded."%string).
Proof.
  intros D P F Cb Cu.
  destruct (Guarded_runPages_stops i before u after Cb Cu []
              {| server := true; browsers := 1; open_pages := []; failures := [];
                 warnings := []; output := None; comments := cs |})
    as (msg & E & H).
  exists msg. split; [|exact H].
  unfold Guarded.run, try_finally, try_catch.
  rewrite (Guarded_tryBlock_loop i _ cs D P F). unfold bind at 1. rewrite E. reflexivity.
Qed.

Lemma X23_witness :
  exists msg,
    Guarded.run Examples.stuck_run (initial [])
    = (Ok tt, {| server := false; browsers := 0; open_pages := [];
                 failures := [("Benchmark failed for " ++ Examples.sprite_url ++ ": "
                               ++ msg)%string; msg];
                 warnings := []; output := None; comments := [] |}).
Proof.
  destruct (X23_guarded_run_reports_a_failing_page_twice Examples.stuck_run []
              Examples.sprite_url [] [] eq_refl eq_refl eq_refl (Forall_nil _) eq_refl)
    as (msg & R & _).
  exists msg. exact R.
Defined.

(** X24. What the averaged-repeats runner needs is checked before any
    browser is launched: a missing build, a missing [pixi.mjs], a benchmark
    directory that cannot be listed and one without any entry point each
    fail the run with one message, with no results and no comment. *)
Theorem X24_isolated_run_checks_before_it_measures inp cs :
  (Isolated.dist_exists inp = false ->
   Isolated.run inp (initial cs)
   = (Ok tt, {| server := false; browsers := 0; open_pages := [];
                failures := ["dist path not found"%string]; warnings := [];
                output := None; comments := cs |})) /\
  (Isolated.dist_exists inp = true -> Isolated.pixi_exists inp = false ->
   Isolated.run inp (initial cs)
   = (Ok tt, {| server := false; browsers := 0; open_pages := [];
                failures := ["pixi.mjs not found in dist path"%string]; warnings := [];
                output := None; comments := cs |})) /\
  (Isolated.dist_exists inp = true -> Isolated.pixi_exists inp = true ->
   forall msg, Isolated.index_files inp = Throw msg ->
   Isolated.run inp (initial cs)
   = (Ok tt, {| server := false; browsers := 0; open_pages := [];
                failures := [msg]; warnings := []; output := None; comments := cs |})) /\
  (Isolated.dist_exists inp = true -> Isolated.pixi_exists inp = true ->
   Isolated.index_files inp = Ok [] ->
   Isolated.run inp (initial cs)
   = (Ok tt, {| server := false; browsers := 0; open_pages := [];
                failures := ["No index.mjs benchmark entrypoints found."%string];
                warnings := []; output := None; comments := cs |})).
Proof.
  unfold Isolated.run, try_finally, try_catch, Isolated.tryBlock.
  repeat split.
  - now intros ->.
  - now intros -> ->.
  - now intros -> -> msg ->.
  - now intros -> -> ->.
Qed.

End Teardown.

(** ** Facts about the grouping by name *)

Module GroupingFacts.

Import JS DevLocal Grouping.

Lemma store_keys k which fps : forall grouped,
  map fst (store k which fps grouped)
  = if existsb (fun k' => key_eqb k' k) (map fst grouped) then map fst grouped
    else map fst grouped ++ [k].
Proof.
  induction grouped as [|[k' v] rest IH]; [reflexivity|].
  cbn [store map fst existsb]. destruct (key_eqb k' k); [reflexivity|].
  cbn [map fst orb]. rewrite IH. now destruct (existsb _ (map fst rest)).
Qed.

Lemma group_keys_from rawResults : forall grouped,
  map fst (fold_left (fun grouped r =>
                        store (raw_name r) (raw_variant r) (Number (raw_fps r)) grouped)
                     rawResults grouped)
  = fold_left (fun seen k => if existsb (fun k' => key_eqb k' k) seen then seen
                             else seen ++ [k])
              (map raw_name rawResults) (map fst grouped).
Proof.
  induction rawResults as [|r rest IH]; intros grouped; [reflexivity|].
  cbn [fold_left map]. rewrite IH, store_keys. reflexivity.
Qed.

Lemma existsb_key k keys :
  existsb (fun k' => key_eqb k' k) keys = true <-> In k keys.
Proof.
  rewrite existsb_exists. split.
  - intros (k' & I & E). apply DevLocalFacts.key_eqb_eq in E. now subst.
  - intros I. exists k. split; [assumption | now apply DevLocalFacts.key_eqb_eq].
Qed.

Lemma first_occurrences_from keys : forall seen,
  NoDup seen ->
  let result := fold_left (fun seen k => if existsb (fun k' => key_eqb k' k) seen then seen
                                         else seen ++ [k]) keys seen in
  NoDup result /\ forall k, In k result <-> In k seen \/ In k keys.
Proof.
  induction keys as [|k0 keys IH]; intros seen N; cbn [fold_left].
  - split; [assumption|]. intros k. cbn. tauto.
  - destruct (existsb (fun k' => key_eqb k' k0) seen) eqn:E.
    + destruct (IH seen N) as [N' I']. split; [exact N'|].
      intros k. rewrite I'. cbn [In]. apply existsb_key in E.
      split; [tauto|]. intros [H | [<- | H]]; auto.
    + assert (Fresh : ~ In k0 seen).
      { intros I. apply existsb_key in I. congruence. }
      destruct (IH (seen ++ [k0])) as [N' I'].
      { apply NoDup_app; [assumption | repeat constructor; intros [] |].
        intros a Ia [<- | []]. contradiction. }
      split; [exact N'|]. intros k. rewrite I', in_app_iff. cbn [In]. tauto.
Qed.

Lemma side_assign which which' v fps :
  side which (assign v which' fps)
  = match which, which' with
    | Dev, Dev | Local, Local => Some fps
    | _, _ => side which v
    end.
Proof. now destruct which, which'. Qed.

(** A store sets its side of its group. *)
Lemma store_sets k which fps : forall grouped,
  exists v, In (k, v) (store k which fps grouped) /\ side which v = Some fps.
Proof.
  induction grouped as [|[k' v'] rest IH]; cbn [store].
  - eexists. split; [now left | now destruct which].
  - destruct (key_eqb k' k) eqn:E.
    + apply DevLocalFacts.key_eqb_eq in E. subst k'.
      eexists. split; [now left | now destruct which].
    + destruct IH as (v & I & S). exists v. split; [now right | exact S].
Qed.

(** A store under another name, or of the other variant, leaves the side
    as it is. *)
Lemma store_keeps k which x k' which' fps' : forall grouped,
  (k' = k -> which' <> which) ->
  (exists v, In (k, v) grouped /\ side which v = Some x) ->
  exists v, In (k, v) (store k' which' fps' grouped) /\ side which v = Some x.
Proof.
  induction grouped as [|[k0 v0] rest IH]; intros D (v & I & S); [destruct I|].
  cbn [store]. destruct (key_eqb k0 k') eqn:E.
  - apply DevLocalFacts.key_eqb_eq in E. subst k0. destruct I as [[= -> ->] | I].
    + eexists. split; [now left|]. rewrite side_assign.
      specialize (D eq_refl). destruct which, which'; congruence.
    + exists v. split; [now right | exact S].
  - destruct I as [[= -> ->] | I].
    + exists v. split; [now left | exact S].
    + destruct (IH D (ex_intro _ v (conj I S))) as (v1 & I1 & S1).
      exists v1. split; [now right | exact S1].
Qed.

Lemma group_keeps k which x : forall rawResults grouped,
  (forall r, In r rawResults -> raw_name r = k -> raw_variant r <> which) ->
  (exists v, In (k, v) grouped /\ side which v = Some x) ->
  exists v,
    In (k, v) (fold_left (fun grouped r =>
                            store (raw_name r) (raw_variant r) (Number (raw_fps r)) grouped)
                         rawResults grouped) /\
    side which v = Some x.
Proof.
  induction rawResults as [|r rest IH]; intros grouped D H; [exact H|].
  cbn [fold_left]. apply IH.
  - intros r' I. apply D. now right.
  - apply store_keeps; [|exact H]. apply D. now left.
Qed.

End GroupingFacts.

(** ** Properties of the grouping by name *)

Section GroupingByName.

Import JS DevLocal Grouping GroupingFacts.

(** X25. The raw results are grouped into one group per name, in the order
    in which the names first appear: no name has two groups, every name
    reported has one, and the table has one row per group in that
    order. *)
Theorem X25_one_group_per_name rawResults perfChange :
  map fst (group rawResults) = first_occurrences (map raw_name rawResults) /\
  NoDup (map fst (group rawResults)) /\
  (forall k, In k (map fst (group rawResults)) <-> In k (map raw_name rawResults)) /\
  map name (fst (compareGroups perfChange (group rawResults)))
  = first_occurrences (map raw_name rawResults).
Proof.
  assert (K : map fst (group rawResults) = first_occurrences (map raw_name rawResults))
    by apply (group_keys_from rawResults []).
  destruct (first_occurrences_from (map raw_name rawResults) [] (NoDup_nil _)) as [N I].
  fold (first_occurrences (map raw_name rawResults)) in N, I.
  split; [exact K|]. rewrite K. split; [exact N|]. split.
  - intros k. rewrite I. cbn [In]. tauto.
  - rewrite DevLocalFacts.compareGroups_spec. cbn [fst]. rewrite map_map, <- K.
    apply map_ext. intros [k v]. unfold compareGroup.
    now destruct (dev v), (local v).
Qed.

(** X26. Within a name the last result of a variant wins: a result that no
    later result of the same name and variant follows is the one its
    group holds on that side. *)
Theorem X26_last_result_of_a_variant_wins before r after :
  (forall r', In r' after -> raw_name r' = raw_name r ->
              raw_variant r' <> raw_variant r) ->
  exists v,
    In (raw_name r, v) (group (before ++ r :: after)) /\
    side (raw_variant r) v = Some (Number (raw_fps r)).
Proof.
  intros Last. unfold group. rewrite fold_left_app. cbn [fold_left].
  apply group_keeps; [exact Last|]. apply store_sets.
Qed.

Lemma X26_witness :
  exists v,
    In (Some "sprite"%string, v)
       (group ([{| raw_name := Some "sprite"%string; raw_fps := Num 30%float; raw_variant := Dev |}]
               ++ {| raw_name := Some "sprite"%string; raw_fps := Num 60%float;
                     raw_variant := Dev |}
               :: [{| raw_name := Some "sprite"%string; raw_fps := Num 58%float;
                      raw_variant := Local |}])) /\
    dev v = Some 60%float.
Proof.
  apply (X26_last_result_of_a_variant_wins
           [{| raw_name := Some "sprite"%string; raw_fps := Num 30%float; raw_variant := Dev |}]
           {| raw_name := Some "sprite"%string; raw_fps := Num 60%float; raw_variant := Dev |}
           [{| raw_name := Some "sprite"%string; raw_fps := Num 58%float;
               raw_variant := Local |}]).
  intros r' [<- | []] _. discriminate.
Defined.

End GroupingByName.

(** ** Facts about the page list *)

Module PagesFacts.

Import JS Fs Pages.
Local Open Scope list_scope.

Lemma pagesOf_from cwd benchmarkFiles : forall pages,
  fold_left (fun pages file => pages ++ [pageUrl cwd file]) benchmarkFiles pages
  = pages ++ map (pageUrl cwd) benchmarkFiles.
Proof.
  induction benchmarkFiles as [|file rest IH]; intros pages; cbn [fold_left map].
  - now rewrite app_nil_r.
  - rewrite IH, <- app_assoc. reflexivity.
Qed.

Lemma pagesOf_map cwd benchmarkFiles :
  pagesOf cwd benchmarkFiles = map (pageUrl cwd) benchmarkFiles.
Proof. apply (pagesOf_from cwd benchmarkFiles []). Qed.

(** Below the working directory the relative path is what follows it. *)
Lemma relative_below cwd : forall below, relative cwd (cwd ++ below) = below.
Proof.
  induction cwd as [|a cwd IH]; intros below; cbn [relative app map].
  - now destruct below.
  - now rewrite String.eqb_refl.
Qed.

(** Two different members of a list without repetition sit at two
    different places. *)
Lemma two_places {A} (l : list A) a b :
  In a l -> In b l -> a <> b ->
  exists i j, i <> j /\ nth_error l i = Some a /\ nth_error l j = Some b.
Proof.
  intros Ia Ib N. apply In_nth_error in Ia, Ib.
  destruct Ia as [i Hi], Ib as [j Hj]. exists i, j. split; [|now split].
  intros ->. congruence.
Qed.

End PagesFacts.

(** ** Properties of the page list *)

Section PageList.

Import JS Fs Pages FsFacts PagesFacts.
Local Open Scope string_scope.
Local Open Scope list_scope.

(** X27. The run visits one page per [.html] file, in the order of the
    listing, and the page is the URL of the file's directory: for a file
    below the working directory, the segments between the two.  Two
    [.html] files in one directory therefore give the same URL twice. *)
Theorem X27_one_page_per_html_file fs cwd benchmarkFullPath entries :
  distinct_names fs -> lookup benchmarkFullPath fs = Some (Dir entries) ->
  exists benchmarkFiles,
    findRecursive fs benchmarkFullPath [] = Ok benchmarkFiles /\
    benchmark_pages fs cwd benchmarkFullPath = Ok (map (pageUrl cwd) benchmarkFiles) /\
    (forall below name,
       pageUrl cwd (cwd ++ below ++ [name])
       = ("http://localhost:8080/" ++ slashes (join below) ++ "/")%string) /\
    (forall dir a b contentA contentB,
       a <> b ->
       lookup (benchmarkFullPath ++ dir ++ [a]) fs = Some (File contentA) ->
       lookup (benchmarkFullPath ++ dir ++ [b]) fs = Some (File contentB) ->
       endsWith (render (benchmarkFullPath ++ dir ++ [a])) ".html" = true ->
       endsWith (render (benchmarkFullPath ++ dir ++ [b])) ".html" = true ->
       exists i j,
         i <> j /\
         nth_error (map (pageUrl cwd) benchmarkFiles) i
         = Some (pageUrl cwd (benchmarkFullPath ++ dir ++ [a])) /\
         nth_error (map (pageUrl cwd) benchmarkFiles) j
         = Some (pageUrl cwd (benchmarkFullPath ++ dir ++ [a]))).
Proof.
  intros D L.
  destruct (listing html_page fs benchmarkFullPath [] entries D L) as (files & W & N & I).
  cbn [app] in W.
  assert (F : findRecursive fs benchmarkFullPath [] = Ok files).
  { unfold findRecursive, readable. rewrite L. cbn [rbind].
    now rewrite findRecursive_in_walk, W. }
  exists files. split; [exact F|]. split; [|split].
  - unfold benchmark_pages. rewrite F. cbn [rbind]. now rewrite pagesOf_map.
  - intros below name. unfold pageUrl, dirname.
    rewrite app_assoc, removelast_last, relative_below. reflexivity.
  - intros dir a b ca cb Nab La Lb Ha Hb.
    assert (Ia : In (benchmarkFullPath ++ dir ++ [a]) files)
      by (apply I; exists dir, a, ca; auto).
    assert (Ib : In (benchmarkFullPath ++ dir ++ [b]) files)
      by (apply I; exists dir, b, cb; auto).
    destruct (two_places files _ _ Ia Ib) as (i & j & Nij & Hi & Hj).
    { intros E. apply app_inv_head in E. apply app_inv_head in E. congruence. }
    exists i, j. split; [exact Nij|]. rewrite !nth_error_map, Hi, Hj. cbn [option_map].
    split; [reflexivity|]. f_equal. unfold pageUrl, dirname.
    now rewrite !app_assoc, !removelast_last.
Qed.

Lemma X27_witness :
  distinct_names PagesExamples.two_pages /\
  benchmark_pages PagesExamples.two_pages [] ["benchmarks"]
  = Ok ["http://localhost:8080/benchmarks/sprite/"; "http://localhost:8080/benchmarks/sprite/"].
Proof.
  assert (D : distinct_names PagesExamples.two_pages) by names_distinct.
  split; [exact D|].
  destruct (X27_one_page_per_html_file PagesExamples.two_pages [] ["benchmarks"] _ D eq_refl)
    as (files & F & P & _).
  rewrite P. injection F as <-. reflexivity.
Defined.

End PageList.

(** ** Facts about the recursive copy *)

Module CopyFacts.

Import JS Fs Copy FsFacts.
Local Open Scope nat_scope.
Local Open Scope list_scope.

Lemma update_found name f front child back :
  entry_named name front = None ->
  update name f (front ++ (name, child) :: back) = front ++ (name, f child) :: back.
Proof.
  induction front as [|[name' c] front IH]; cbn; intros F.
  - now rewrite String.eqb_refl.
  - destruct (String.eqb name' name); [discriminate|]. now rewrite IH.
Qed.

Lemma update_absent name f entries :
  entry_named name entries = None ->
  update name f entries = entries ++ [(name, f (Dir []))].
Proof.
  induction entries as [|[name' c] rest IH]; cbn; intros F; [reflexivity|].
  destruct (String.eqb name' name); [discriminate|]. now rewrite IH.
Qed.

Lemma update_update name f g h : (forall c, f (g c) = h c) ->
  forall entries, update name f (update name g entries) = update name h entries.
Proof.
  intros H. induction entries as [|[name' c] rest IH]; cbn.
  - now rewrite String.eqb_refl, H.
  - destruct (String.eqb name' name) eqn:E; cbn; rewrite E; [now rewrite H | now rewrite IH].
Qed.

Lemma entry_named_update name f entries :
  entry_named name (update name f entries)
  = Some (f match entry_named name entries with
            | Some child => child
            | None => Dir []
            end).
Proof.
  induction entries as [|[name' c] rest IH]; cbn.
  - now rewrite String.eqb_refl.
  - destruct (String.eqb name' name) eqn:E; cbn; now rewrite E.
Qed.

Lemma entry_named_update_other name other f entries :
  other <> name -> entry_named other (update name f entries) = entry_named other entries.
Proof.
  intros N. induction entries as [|[name' c] rest IH]; cbn.
  - destruct (String.eqb_spec name other); [congruence | reflexivity].
  - destruct (String.eqb_spec name' name) as [->|D]; cbn.
    + destruct (String.eqb_spec name other); [congruence | reflexivity].
    + destruct (String.eqb_spec name' other); [reflexivity | exact IH].
Qed.

Lemma graft_app : forall p q n m fs,
  graft (p ++ q) n (graft p m fs) = graft p (graft q n m) fs.
Proof.
  induction p as [|name p IH]; intros q n m fs; [reflexivity|].
  cbn [app graft]. destruct fs as [c|entries]; [reflexivity|]. cbn [graft]. f_equal.
  apply update_update. intros c. apply IH.
Qed.

(** The node put at a path is found there. *)
Lemma lookup_graft_new : forall p fs n parent,
  p <> [] -> lookup (removelast p) fs = Some (Dir parent) ->
  lookup p (graft p n fs) = Some n.
Proof.
  induction p as [|name rest IH]; intros fs n parent N P; [contradiction|].
  destruct rest as [|name2 rest].
  - cbn in P. injection P as ->. cbn [graft lookup]. now rewrite entry_named_update.
  - change (removelast (name :: name2 :: rest))
      with (name :: removelast (name2 :: rest)) in P.
    destruct fs as [c|entries]; [discriminate|]. cbn [lookup] in P.
    destruct (entry_named name entries) as [child|] eqn:E; [|discriminate].
    cbn [graft lookup]. rewrite entry_named_update, E.
    apply IH with parent; [discriminate | assumption].
Qed.

(** A path that parts ways with the one grafted at leads where it led. *)
Lemma lookup_graft_apart : forall p q n fs,
  apart q p = true -> lookup q (graft p n fs) = lookup q fs.
Proof.
  induction p as [|name p IH]; intros q n fs A; [now destruct q|].
  destruct q as [|name' q]; [discriminate|]. cbn [apart] in A.
  destruct fs as [c|entries]; [reflexivity|]. cbn [graft lookup].
  destruct (String.eqb_spec name' name) as [->|N].
  - rewrite entry_named_update. destruct (entry_named name entries) as [child|].
    + now apply IH.
    + rewrite IH by assumption. now destruct q.
  - now rewrite entry_named_update_other.
Qed.

Lemma apart_app : forall p q r s, apart p q = true -> apart (p ++ r) (q ++ s) = true.
Proof.
  induction p as [|a p IH]; intros [|b q] r s A; try discriminate.
  cbn [app apart] in *. destruct (String.eqb a b); [now apply IH | reflexivity].
Qed.

Lemma apart_left p q r : apart p q = true -> apart (p ++ r) q = true.
Proof. intros A. rewrite <- (app_nil_r q). now apply apart_app. Qed.

Lemma write_grafts content : forall p fs parent,
  p <> [] -> lookup p fs = None -> lookup (removelast p) fs = Some (Dir parent) ->
  writeFileSync p content fs = Ok (graft p (File content) fs).
Proof.
  induction p as [|name rest IH]; intros fs parent N L P; [contradiction|].
  destruct rest as [|name2 rest].
  - cbn in P. injection P as ->. cbn [lookup] in L.
    destruct (entry_named name parent) as [child|] eqn:E; [discriminate|].
    rewrite (write_absent _ _ _ _ E). cbn [graft]. now rewrite (update_absent _ _ _ E).
  - change (removelast (name :: name2 :: rest))
      with (name :: removelast (name2 :: rest)) in P.
    destruct fs as [c|entries]; [discriminate|]. cbn [lookup] in L, P.
    destruct (entry_named name entries) as [child|] eqn:E; [|discriminate].
    destruct (entry_named_split _ _ _ E) as (front & back & -> & F).
    rewrite (write_found _ _ _ _ _ _ F).
    rewrite (IH child parent ltac:(discriminate) L P). cbn [rbind graft].
    now rewrite (update_found _ _ _ _ _ F).
Qed.

Lemma mkdirp_cons name rest entries :
  mkdirp (name :: rest) (Dir entries)
  = rbind (place name (mkdirp rest)
             (rbind (mkdirp rest (Dir [])) (fun made => Ok [(name, made)])) entries)
          (fun entries' => Ok (Dir entries')).
Proof. reflexivity. Qed.

Lemma mkdirp_grafts : forall p fs parent,
  p <> [] -> lookup p fs = None -> lookup (removelast p) fs = Some (Dir parent) ->
  mkdirp p fs = Ok (graft p (Dir []) fs).
Proof.
  induction p as [|name rest IH]; intros fs parent N L P; [contradiction|].
  destruct rest as [|name2 rest].
  - cbn in P. injection P as ->. cbn [lookup] in L.
    destruct (entry_named name parent) as [child|] eqn:E; [discriminate|].
    rewrite mkdirp_cons, (place_absent _ _ _ _ E). cbn [mkdirp rbind graft].
    now rewrite (update_absent _ _ _ E).
  - change (removelast (name :: name2 :: rest))
      with (name :: removelast (name2 :: rest)) in P.
    destruct fs as [c|entries]; [discriminate|]. cbn [lookup] in L, P.
    destruct (entry_named name entries) as [child|] eqn:E; [|discriminate].
    destruct (entry_named_split _ _ _ E) as (front & back & -> & F).
    rewrite mkdirp_cons, (place_found _ _ _ _ _ _ F).
    rewrite (IH child parent ltac:(discriminate) L P). cbn [rbind graft].
    now rewrite (update_found _ _ _ _ _ F).
Qed.

Lemma depth_child name child entries :
  In (name, child) entries -> depth child < depth (Dir entries).
Proof.
  cbn [depth]. induction entries as [|[name' c] rest IH]; [intros []|].
  intros [[= -> ->] | I]; [lia | specialize (IH I); lia].
Qed.

(** The loop over the entries, with the entries [done] copied already. *)
Lemma copyEach_grafts fuel src dest fs parent entries :
  Forall (fun e =>
            forall src dest fs parent,
              distinct_names (snd e) -> depth (snd e) < fuel -> apart src dest = true ->
              lookup src fs = Some (snd e) -> dest <> [] -> lookup dest fs = None ->
              lookup (removelast dest) fs = Some (Dir parent) ->
              copyRecursive fuel src dest fs = Some (Ok (graft dest (snd e) fs))) entries ->
  NoDup (map fst entries) ->
  Forall (fun e => distinct_names (snd e)) entries ->
  Forall (fun e => depth (snd e) < fuel) entries ->
  apart src dest = true -> dest <> [] ->
  lookup (removelast dest) fs = Some (Dir parent) ->
  lookup src fs = Some (Dir entries) ->
  forall todo done, entries = done ++ todo ->
    copyEach (copyRecursive fuel) src dest (map fst todo) (graft dest (Dir done) fs)
    = Some (Ok (graft dest (Dir (done ++ todo)) fs)).
Proof.
  intros IH N Dn Dp A Nd P S.
  induction todo as [|[name child] rest IHt]; intros done E.
  - now rewrite app_nil_r.
  - cbn [map fst copyEach].
    assert (I : In (name, child) entries) by (rewrite E; apply in_elt).
    rewrite Forall_forall in IH, Dn, Dp.
    assert (Ld : lookup dest (graft dest (Dir done) fs) = Some (Dir done))
      by now apply lookup_graft_new with parent.
    rewrite (IH _ I (src ++ [name]) (dest ++ [name]) (graft dest (Dir done) fs) done).
    + cbv beta iota. cbn [snd]. rewrite graft_app. cbn [graft].
      assert (Fresh : entry_named name done = None).
      { apply entry_named_None. rewrite E, map_app in N. cbn [map fst] in N.
        apply NoDup_remove_2 in N. intros H. apply N. apply in_or_app. now left. }
      rewrite (update_absent _ _ _ Fresh).
      rewrite (IHt (done ++ [(name, child)])) by (rewrite <- app_assoc; exact E).
      now rewrite <- app_assoc.
    + exact (Dn _ I).
    + exact (Dp _ I).
    + now apply apart_app.
    + rewrite lookup_graft_apart by now apply apart_left.
      rewrite lookup_app, S. cbn [lookup].
      now rewrite (In_entry_named _ _ _ N I).
    + now destruct dest.
    + rewrite lookup_app, Ld. cbn [lookup].
      assert (Fresh : entry_named name done = None).
      { apply entry_named_None. rewrite E, map_app in N. cbn [map fst] in N.
        apply NoDup_remove_2 in N. intros H. apply N. apply in_or_app. now left. }
      now rewrite Fresh.
    + now rewrite removelast_last.
Qed.

(** The copy of a tree to a new place beside it is the tree, put there. *)
Lemma copyRecursive_grafts : forall n fuel src dest fs parent,
  distinct_names n -> depth n < fuel -> apart src dest = true ->
  lookup src fs = Some n -> dest <> [] -> lookup dest fs = None ->
  lookup (removelast dest) fs = Some (Dir parent) ->
  copyRecursive fuel src dest fs = Some (Ok (graft dest n fs)).
Proof.
  induction n as [content | entries IH] using node_induction;
    intros fuel src dest fs parent D Lt A S Nd L P;
    (destruct fuel as [|fuel]; [lia|]); cbn [copyRecursive]; rewrite S.
  - unfold copyFileSync. rewrite S. f_equal. now apply write_grafts with parent.
  - rewrite (mkdirp_grafts dest fs parent Nd L P).
    rewrite lookup_graft_apart by assumption. rewrite S.
    apply distinct_names_dir in D. destruct D as [N Dn].
    apply (copyEach_grafts fuel src dest fs parent entries) with (todo := entries) (done := []);
      try assumption; try reflexivity.
    + eapply Forall_impl; [|exact IH]. intros e He src' dest' fs' parent'. apply He.
    + apply Forall_forall. intros [name child] I. cbn [snd].
      pose proof (depth_child name child entries I). lia.
Qed.

End CopyFacts.

(** ** Properties of the recursive copy *)

Section RecursiveCopy.

Import JS Fs Copy FsFacts CopyFacts.
Local Open Scope nat_scope.
Local Open Scope string_scope.
Local Open Scope list_scope.

(** X28. [copyRecursive(src, dest)] to a place that does not exist yet, in
    a directory that does, beside the source, returns, and then [dest]
    holds the tree that [src] holds, entry for entry; the source is as it
    was, and so is every path that parts ways with [dest]. *)
Theorem X28_copyRecursive_copies_the_tree fuel src dest fs n parent :
  distinct_names n -> depth n < fuel -> apart src dest = true ->
  lookup src fs = Some n -> dest <> [] -> lookup dest fs = None ->
  lookup (dirname dest) fs = Some (Dir parent) ->
  exists fs',
    copyRecursive fuel src dest fs = Some (Ok fs') /\
    lookup dest fs' = Some n /\
    lookup src fs' = Some n /\
    forall q, apart q dest = true -> lookup q fs' = lookup q fs.
Proof.
  intros D Lt A S Nd L P. exists (graft dest n fs). split; [|split; [|split]].
  - now apply copyRecursive_grafts with parent.
  - now apply lookup_graft_new with parent.
  - now rewrite lookup_graft_apart.
  - intros q Aq. now apply lookup_graft_apart.
Qed.

Lemma X28_witness :
  exists fs',
    copyRecursive 3 ["dist"] ["temp"; "dist"] CopyExamples.action = Some (Ok fs') /\
    lookup ["temp"; "dist"; "assets"; "bunny.png"] fs' = Some (File "PNG").
Proof.
  destruct (X28_copyRecursive_copies_the_tree 3 ["dist"] ["temp"; "dist"]
              CopyExamples.action CopyExamples.built [])
    as (fs' & C & L & _).
  - names_distinct.
  - cbn. lia.
  - reflexivity.
  - reflexivity.
  - discriminate.
  - reflexivity.
  - reflexivity.
  - exists fs'. split; [exact C|].
    change ["temp"; "dist"; "assets"; "bunny.png"]
      with (["temp"; "dist"] ++ ["assets"; "bunny.png"]).
    now rewrite lookup_app, L.
Defined.

End RecursiveCopy.

(** ** Facts about a measurement that fails *)

Module AbortFacts.

Import JS Eff Isolated.
Local Open Scope nat_scope.

(** A repeat whose page does not publish throws the page's error, with
    its browser closed. *)
Lemma repeat_fails inp url sampleFPS i (w : world body) :
  completes inp url i = false ->
  open_pages w = [] ->
  exists msg,
    try_finally (runSingleBenchmark inp url sampleFPS i)
                (try_catch close_browser (fun _ => throw "Failed to close browser"))
                (snd (launch w))
    = (Throw msg, w) /\
    (page inp url i = NavigationFails msg \/
     msg = "page.waitForFunction: Timeout 30000ms exceeded."%string).
Proof.
  unfold completes, try_finally, try_catch, runSingleBenchmark, bind, launch, newPage,
    close_browser, modify, throw.
  intros C O. destruct w as [sv br op fl wa out cm]. cbn in O. subst op.
  destruct (page inp url i) as [msg | e].
  - exists msg. split; [reflexivity | now left].
  - rewrite C. eexists. split; [reflexivity | now right].
Qed.

(** The repeats stop at the first that fails. *)
Lemma repeatFrom_fails inp url : forall k count i sampleFPS (w : world body),
  k < count ->
  (forall j, j < k -> completes inp url (i + j) = true) ->
  completes inp url (i + k) = false ->
  open_pages w = [] ->
  exists msg,
    repeatFrom inp url i count sampleFPS w = (Throw msg, w) /\
    (page inp url (i + k) = NavigationFails msg \/
     msg = "page.waitForFunction: Timeout 30000ms exceeded."%string).
Proof.
  induction k as [|k IH]; intros count i sampleFPS w Lt Before Fails O;
    (destruct count as [|count]; [lia|]); rewrite IsolatedFacts.repeatFrom_step.
  - rewrite Nat.add_0_r in Fails |- *.
    destruct (repeat_fails inp url sampleFPS i w Fails O) as (msg & -> & H).
    exists msg. now split.
  - assert (C0 : completes inp url i = true)
      by (rewrite <- (Nat.add_0_r i); apply Before; lia).
    rewrite (IsolatedFacts.repeat_completes inp url sampleFPS i w C0 O).
    destruct (IH count (S i) (sampleFPS ++ [fps_of (published inp url i)]) w)
      as (msg & E & H); try assumption.
    + lia.
    + intros j Lj. rewrite Nat.add_succ_comm. apply Before. lia.
    + now rewrite Nat.add_succ_comm.
    + exists msg. split; [exact E|]. now rewrite <- Nat.add_succ_comm.
Qed.

Lemma runIsolatedBenchmark_fails inp url k (w : world body) :
  k < REPEATS ->
  (forall j, j < k -> completes inp url j = true) ->
  completes inp url k = false ->
  open_pages w = [] ->
  exists msg,
    runIsolatedBenchmark inp url w = (Throw msg, w) /\
    (page inp url k = NavigationFails msg \/
     msg = "page.waitForFunction: Timeout 30000ms exceeded."%string).
Proof.
  intros Lt Before Fails O.
  destruct (repeatFrom_fails inp url k REPEATS 0 [] w Lt Before Fails O) as (msg & E & H).
  exists msg. split; [|exact H]. unfold runIsolatedBenchmark, bind. now rewrite E.
Qed.

(** The scenarios before the one that fails are measured and compared;
    the loop stops at the measurement that fails. *)
Lemma runScenarios_fails inp before s after url k :
  Forall (scenario_completes inp) before ->
  (url = devURL s \/
   (url = localURL s /\ forall j, j < REPEATS -> completes inp (devURL s) j = true)) ->
  k < REPEATS ->
  (forall j, j < k -> completes inp url j = true) ->
  completes inp url k = false ->
  forall comparisons (w : world body),
  open_pages w = [] ->
  exists msg,
    runScenarios inp (before ++ s :: after) comparisons w = (Throw msg, w) /\
    (page inp url k = NavigationFails msg \/
     msg = "page.waitForFunction: Timeout 30000ms exceeded."%string).
Proof.
  intros Cb Which Lt Before Fails.
  induction Cb as [|s0 before C0 _ IH]; intros comparisons w O; cbn [app].
  - rewrite IsolatedFacts.runScenarios_step.
    destruct Which as [-> | [-> Dev]].
    + destruct (runIsolatedBenchmark_fails inp (devURL s) k w Lt Before Fails O)
        as (msg & -> & H).
      exists msg. now split.
    + rewrite (IsolatedFacts.runIsolatedBenchmark_completes inp (devURL s) w Dev O).
      destruct (runIsolatedBenchmark_fails inp (localURL s) k w Lt Before Fails O)
        as (msg & -> & H).
      exists msg. now split.
  - rewrite IsolatedFacts.runScenarios_step.
    rewrite (IsolatedFacts.runIsolatedBenchmark_completes inp (devURL s0) w)
      by (assumption || (intros j Lj; apply (C0 j Lj))).
    rewrite (IsolatedFacts.runIsolatedBenchmark_completes inp (localURL s0) w)
      by (assumption || (intros j Lj; apply (C0 j Lj))).
    apply IH. exact O.
Qed.

Lemma Isolated_tryBlock_loop inp s0 rest cs :
  dist_exists inp = true -> pixi_exists inp = true ->
  index_files inp = Ok (s0 :: rest) ->
  tryBlock inp (initial cs)
  = bind (runScenarios inp (s0 :: rest) []) (fun comparisons => report inp comparisons)
      {| server := true; browsers := 0; open_pages := []; failures := [];
         warnings := []; output := None; comments := cs |}.
Proof.
  intros D P F. unfold tryBlock. rewrite D, P, F. reflexivity.
Qed.

End AbortFacts.

(** ** Properties of a measurement that fails *)

Section Abort.

Import JS Eff Isolated AbortFacts.
Local Open Scope nat_scope.

(** X29. In the averaged-repeats runner the first repeat that fails ends
    the run: its error is the one failure reported, no later repeat, page
    or scenario is measured, the rows of the scenarios measured before are
    dropped with it, and no comment is posted.  The error is the one of
    the navigation, or that of the wait when the page never publishes: the
    wait gives up after its default of 30 seconds, the [60_000] of the
    source being handed over as the argument of the page function.  The
    browser of the failed repeat is closed and so is the server. *)
Theorem X29_first_failing_repeat_stops_the_run inp before s after url k cs :
  dist_exists inp = true -> pixi_exists inp = true ->
  index_files inp = Ok (before ++ s :: after) ->
  Forall (scenario_completes inp) before ->
  (url = devURL s \/
   (url = localURL s /\ forall j, j < REPEATS -> completes inp (devURL s) j = true)) ->
  k < REPEATS ->
  (forall j, j < k -> completes inp url j = true) ->
  completes inp url k = false ->
  exists msg,
    run inp (initial cs)
    = (Ok tt, {| server := false; browsers := 0; open_pages := []; failures := [msg];
                 warnings := []; output := None; comments := cs |}) /\
    (page inp url k = NavigationFails msg \/
     msg = "page.waitForFunction: Timeout 30000ms exceeded."%string).
Proof.
  intros D P F Cb Which Lt Before Fails.
  destruct (runScenarios_fails inp before s after url k Cb Which Lt Before Fails []
              {| server := true; browsers := 0; open_pages := []; failures := [];
                 warnings := []; output := None; comments := cs |} eq_refl)
    as (msg & E & H).
  exists msg. split; [|exact H].
  destruct (before ++ s :: after) as [|s0 rest] eqn:L; [now destruct before|].
  unfold run, try_finally, try_catch.
  rewrite (Isolated_tryBlock_loop inp s0 rest cs D P F). unfold bind at 1.
  rewrite E. reflexivity.
Qed.

Lemma X29_witness :
  run AbortExamples.flaky_run (initial [])
  = (Ok tt, {| server := false; browsers := 0; open_pages := [];
               failures := ["net::ERR_CONNECTION_REFUSED"%string];
               warnings := []; output := None; comments := [] |}).
Proof.
  assert (Lt : 1 < REPEATS) by (unfold REPEATS; lia).
  assert (Before : forall j, j < 1 ->
            completes AbortExamples.flaky_run (devURL Examples.sprite_scenario) j = true).
  { intros j Lj. assert (j = 0) as -> by lia. reflexivity. }
  destruct (X29_first_failing_repeat_stops_the_run AbortExamples.flaky_run []
              Examples.sprite_scenario [] (devURL Examples.sprite_scenario) 1 []
              eq_refl eq_refl eq_refl (Forall_nil _) (or_introl eq_refl) Lt Before eq_refl)
    as (msg & R & H).
  destruct H as [H | ->]; [|discriminate R].
  injection H as <-. exact R.
Defined.

End Abort.

(** ** Facts about the threshold *)

Module ThresholdFacts.

Import JS.
Local Open Scope float_scope.

Ltac order_cases :=
  repeat match goal with
         | |- context [Z.compare ?a ?b] => destruct (Z.compare_spec a b)
         | H : context [Z.compare ?a ?b] |- _ => destruct (Z.compare_spec a b)
         | |- context [Pos.compare ?a ?b] => destruct (Pos.compare_spec a b)
         | H : context [Pos.compare ?a ?b] |- _ => destruct (Pos.compare_spec a b)
         end.

(** The order of binary64 is transitive, NaN aside. *)
Lemma SFleb_ltb_trans x y z :
  SFleb x y = true -> SFltb y z = true -> SFltb x z = true.
Proof.
  unfold SFleb, SFltb.
  destruct x as [[] | [] | | [] mx ex], y as [[] | [] | | [] my ey],
    z as [[] | [] | | [] mz ez];
    cbn; try discriminate; try reflexivity;
    fold (Pos.compare mx my); fold (Pos.compare my mz); fold (Pos.compare mx mz);
    intros H1 H2; order_cases; cbn in *; try discriminate; try reflexivity; try lia.
Qed.

Lemma leb_ltb_trans x y z : (x <=? y) = true -> (y <? z) = true -> (x <? z) = true.
Proof. rewrite leb_spec, !ltb_spec. apply SFleb_ltb_trans. Qed.

(** What is over the higher threshold is over the lower one. *)
Lemma gt_lower d low high : (low <=? high) = true -> gt d high = true -> gt d low = true.
Proof. unfold gt. apply leb_ltb_trans. Qed.

(** A row under the higher threshold is the row under the lower one, but
    for a flag that can only have gone. *)
Lemma compareAt_threshold low high prResults baseline i r1 :
  (low <=? high) = true ->
  Main.compareAt low prResults baseline i = Ok r1 ->
  exists r2,
    Main.compareAt high prResults baseline i = Ok r2 /\
    Main.name r2 = Main.name r1 /\ Main.devFPS r2 = Main.devFPS r1 /\
    Main.prFPS r2 = Main.prFPS r1 /\ Main.diffPercent r2 = Main.diffPercent r1 /\
    Main.arrow r2 = Main.arrow r1 /\
    (Main.regression r2 = true -> Main.regression r1 = true).
Proof.
  intros Le. unfold Main.compareAt.
  destruct (negb (truthy (at_index baseline i))).
  - destruct (get_name (at_index prResults i)) as [n|]; [|discriminate].
    destruct (get_fps (at_index prResults i)) as [f|]; [|discriminate].
    cbn [rbind]. intros [= <-]. eexists. split; [reflexivity|]. cbn. auto 10.
  - destruct (get_fps (at_index baseline i)) as [bf|]; [|discriminate].
    destruct (get_fps (at_index prResults i)) as [pf|]; [|discriminate].
    destruct (get_name (at_index prResults i)) as [n|]; [|discriminate].
    cbn [rbind]. intros [= <-]. eexists. split; [reflexivity|]. cbn.
    repeat split. now apply gt_lower.
Qed.

Lemma compareFrom_threshold low high prResults baseline :
  (low <=? high) = true ->
  forall count i acc1 acc2 rows1,
    Forall2 (fun r1 r2 => Main.regression r2 = true -> Main.regression r1 = true) acc1 acc2 ->
    Main.compareFrom low prResults baseline i count acc1 = Ok rows1 ->
    exists rows2,
      Main.compareFrom high prResults baseline i count acc2 = Ok rows2 /\
      Forall2 (fun r1 r2 => Main.regression r2 = true -> Main.regression r1 = true)
              rows1 rows2.
Proof.
  intros Le. induction count as [|count IH]; intros i acc1 acc2 rows1 A; cbn [Main.compareFrom].
  - intros [= <-]. eauto.
  - destruct (Main.compareAt low prResults baseline i) as [r1|] eqn:E1; [|discriminate].
    destruct (compareAt_threshold low high prResults baseline i r1 Le E1)
      as (r2 & -> & _ & _ & _ & _ & _ & F).
    cbn [rbind]. apply IH. apply Forall2_app; [assumption | now constructor].
Qed.

Lemma existsb_flags {A} (flag : A -> bool) rows1 rows2 :
  Forall2 (fun r1 r2 => flag r2 = true -> flag r1 = true) rows1 rows2 ->
  existsb flag rows1 = false -> existsb flag rows2 = false.
Proof.
  induction 1 as [|r1 r2 l1 l2 F _ IH]; [reflexivity|]. cbn [existsb].
  rewrite !orb_false_iff. intros [H1 H2]. split; [|now apply IH].
  destruct (flag r2); [|reflexivity]. now rewrite F in H1.
Qed.

End ThresholdFacts.

(** ** Properties of the threshold *)

Section Threshold.

Import JS ThresholdFacts.
Local Open Scope float_scope.

(** X30. A higher threshold flags no more: when the comparison returns under
    a threshold it returns under every higher one, no row is flagged that
    was not flagged before, and a table without regression stays without
    one; the same holds for the table of the grouping runner.  A run that
    passes therefore still passes when [perf-change] is raised. *)
Theorem X30_a_higher_threshold_flags_no_more low high :
  (low <=? high) = true ->
  (forall pages prResults baseline rows1,
     Main.compareAll low pages prResults baseline = Ok rows1 ->
     exists rows2,
       Main.compareAll high pages prResults baseline = Ok rows2 /\
       Forall2 (fun r1 r2 => Main.regression r2 = true -> Main.regression r1 = true)
               rows1 rows2 /\
       (Main.detect rows1 = false -> Main.detect rows2 = false)) /\
  (forall grouped,
     snd (DevLocal.compareGroups low grouped) = false ->
     snd (DevLocal.compareGroups high grouped) = false).
Proof.
  intros Le. split.
  - intros pages prResults baseline rows1 R1. unfold Main.compareAll in *.
    destruct (compareFrom_threshold low high prResults baseline Le _ _ [] [] rows1
                (Forall2_nil _) R1) as (rows2 & R2 & F).
    exists rows2. split; [exact R2|]. split; [exact F|].
    rewrite !MainFacts.detect_existsb. now apply existsb_flags.
  - intros grouped. rewrite !DevLocalFacts.compareGroups_spec. cbn [snd].
    apply existsb_flags. induction grouped as [|[k v] rest IH]; cbn [map].
    + constructor.
    + constructor; [|exact IH]. unfold DevLocal.compareGroup.
      destruct (DevLocal.dev v) as [d|], (DevLocal.local v) as [l|]; cbn; try discriminate.
      now apply gt_lower.
Qed.

Lemma X30_witness :
  exists rows2,
    Main.compareAll 10 [Examples.sprite_url] [Examples.sprite 54] [Examples.sprite 60]
    = Ok rows2 /\
    List.length rows2 = 1%nat.
Proof.
  destruct (proj1 (X30_a_higher_threshold_flags_no_more 5 10 eq_refl)
              [Examples.sprite_url] [Examples.sprite 54] [Examples.sprite 60] _ eq_refl)
    as (rows2 & R & F & _).
  exists rows2. split; [exact R|]. inversion F as [|? ? ? ? _ F']; subst.
  now inversion F'.
Defined.

End Threshold.
